(** * kubectl-graph: the graph construction engine of [pkg/graph/graph.go]

    A shallow embedding of the Go package [graph]: the identity generator
    [ToUID], the label and attribute renderings, the node and relationship
    registries with [Graph.Node] and [Graph.Relationship], the batch
    constructor [NewGraph] and the two output entry points.

    Go maps are finite maps ([gmap]); a map iterated by [range] is iterated
    in an arbitrary order, which is made explicit wherever the order could
    matter.  Strings are byte strings, compared bytewise as Go does. *)

From Stdlib Require Import ZArith Ascii String List Permutation Sorted.
From stdpp Require Import base tactics option list sorting gmap strings pretty.

Local Open Scope string_scope.
Local Open Scope Z_scope.

(** ** crypto/md5

    MD5 (RFC 1321) on 32-bit words kept as [Z] with the wrap-around written
    out.  A message is a list of bytes, each a [Z] in [0, 255]. *)
Module MD5.

Definition w32 (x : Z) : Z := Z.land x 0xffffffff.

Definition add32 (x y : Z) : Z := w32 (x + y).

Definition not32 (x : Z) : Z := Z.lxor x 0xffffffff.

Definition rotl32 (x s : Z) : Z :=
  w32 (Z.lor (Z.shiftl x s) (Z.shiftr x (32 - s))).

Definition shifts : list Z :=
  [7; 12; 17; 22; 7; 12; 17; 22; 7; 12; 17; 22; 7; 12; 17; 22;
   5; 9; 14; 20; 5; 9; 14; 20; 5; 9; 14; 20; 5; 9; 14; 20;
   4; 11; 16; 23; 4; 11; 16; 23; 4; 11; 16; 23; 4; 11; 16; 23;
   6; 10; 15; 21; 6; 10; 15; 21; 6; 10; 15; 21; 6; 10; 15; 21].

Definition sines : list Z :=
  [0xd76aa478; 0xe8c7b756; 0x242070db; 0xc1bdceee;
   0xf57c0faf; 0x4787c62a; 0xa8304613; 0xfd469501;
   0x698098d8; 0x8b44f7af; 0xffff5bb1; 0x895cd7be;
   0x6b901122; 0xfd987193; 0xa679438e; 0x49b40821;
   0xf61e2562; 0xc040b340; 0x265e5a51; 0xe9b6c7aa;
   0xd62f105d; 0x02441453; 0xd8a1e681; 0xe7d3fbc8;
   0x21e1cde6; 0xc33707d6; 0xf4d50d87; 0x455a14ed;
   0xa9e3e905; 0xfcefa3f8; 0x676f02d9; 0x8d2a4c8a;
   0xfffa3942; 0x8771f681; 0x6d9d6122; 0xfde5380c;
   0xa4beea44; 0x4bdecfa9; 0xf6bb4b60; 0xbebfbc70;
   0x289b7ec6; 0xeaa127fa; 0xd4ef3085; 0x04881d05;
   0xd9d4d039; 0xe6db99e5; 0x1fa27cf8; 0xc4ac5665;
   0xf4292244; 0x432aff97; 0xab9423a7; 0xfc93a039;
   0x655b59c3; 0x8f0ccc92; 0xffeff47d; 0x85845dd1;
   0x6fa87e4f; 0xfe2ce6e0; 0xa3014314; 0x4e0811a1;
   0xf7537e82; 0xbd3af235; 0x2ad7d2bb; 0xeb86d391].

(** The chaining value (a, b, c, d). *)
Record digest := Digest { dA : Z; dB : Z; dC : Z; dD : Z }.

Definition init : digest :=
  Digest 0x67452301 0xefcdab89 0x98badcfe 0x10325476.

(** Little-endian word from four bytes, and back. *)
Definition word_of_bytes (bs : list Z) : Z :=
  fold_right (fun b acc => b + 256 * acc) 0 bs.

Definition bytes_of_word (n : nat) (x : Z) : list Z :=
  map (fun i => Z.land (Z.shiftr x (8 * Z.of_nat i)) 0xff) (seq 0 n).

Definition block_words (block : list Z) : list Z :=
  map (fun j => word_of_bytes (firstn 4 (skipn (4 * j) block))) (seq 0 16).

(** One of the 64 operations of a block. *)
Definition step (m : list Z) (st : digest) (i : nat) : digest :=
  let '(Digest a b c d) := st in
  let iz := Z.of_nat i in
  let '(f, g) :=
    if iz <? 16 then (Z.lor (Z.land b c) (Z.land (not32 b) d), iz)
    else if iz <? 32 then
      (Z.lor (Z.land d b) (Z.land (not32 d) c), (5 * iz + 1) mod 16)
    else if iz <? 48 then (Z.lxor b (Z.lxor c d), (3 * iz + 5) mod 16)
    else (Z.lxor c (Z.lor b (not32 d)), (7 * iz) mod 16) in
  let f' := add32 (add32 (add32 f a) (nth i sines 0)) (nth (Z.to_nat g) m 0) in
  Digest d (add32 b (rotl32 f' (nth i shifts 0))) b c.

Definition compress (st : digest) (block : list Z) : digest :=
  let '(Digest a b c d) := fold_left (step (block_words block)) (seq 0 64) st in
  Digest (add32 (dA st) a) (add32 (dB st) b) (add32 (dC st) c) (add32 (dD st) d).

Definition pad (msg : list Z) : list Z :=
  let len := Z.of_nat (length msg) in
  msg ++ [0x80] ++ repeat 0 (Z.to_nat ((55 - len) mod 64))
      ++ bytes_of_word 8 (8 * len).

Definition blocks (bs : list Z) : list (list Z) :=
  map (fun j => firstn 64 (skipn (64 * j) bs)) (seq 0 (length bs / 64)).

(** [md5.Sum]: the 16 bytes of the digest. *)
Definition Sum (msg : list Z) : list Z :=
  let '(Digest a b c d) := fold_left compress (blocks (pad msg)) init in
  bytes_of_word 4 a ++ bytes_of_word 4 b ++ bytes_of_word 4 c ++ bytes_of_word 4 d.

End MD5.

(** ** Strings as Go has them *)

Definition bytes_of_string (s : string) : list Z :=
  map (fun c => Z.of_N (N_of_ascii c)) (list_ascii_of_string s).

Definition hex_digit (d : Z) : ascii :=
  nth (Z.to_nat d)
    (list_ascii_of_string "0123456789abcdef") "0"%char.

(** [fmt.Sprintf("%x", bs)] on a byte array: two lower-case digits a byte. *)
Definition hex_of_bytes (bs : list Z) : string :=
  string_of_list_ascii
    (flat_map (fun b => [hex_digit (b / 16); hex_digit (b mod 16)]) bs).

(** [strings.Join]. *)
Definition Join (elems : list string) (sep : string) : string :=
  String.concat sep elems.

(** [s[lo:hi]] and [s[lo:]] for in-range bounds. *)
Definition slice (s : string) (lo hi : nat) : string :=
  substring lo (hi - lo) s.

Definition slice_from (s : string) (lo : nat) : string :=
  substring lo (String.length s - lo) s.

(** ** ToUID *)

(** The dynamically typed parameters handed to [ToUID], with the
    stringification [fmt.Sprint] gives each of them. *)
Inductive Param :=
| PString (s : string)
| PInt (n : Z)
| PBool (b : bool).

Definition Sprint (p : Param) : string :=
  match p with
  | PString s => s
  | PInt n => pretty n
  | PBool true => "true"
  | PBool false => "false"
  end.

(** The hyphen-grouped layout of a 32 digit hexadecimal string. *)
Definition uid_layout (md5sum : string) : string :=
  Join [slice md5sum 0 8; slice md5sum 8 12; slice md5sum 12 16;
        slice md5sum 16 20; slice_from md5sum 20] "-".

(** [input := make([]string, len(params))] already holds [len(params)] empty
    strings when the loop appends the stringified parameters to it. *)
Definition ToUID_input (params : list Param) : list string :=
  fold_left (fun input param => (input ++ [Sprint param])%list) params
    (repeat "" (length params)).

Definition ToUID (params : list Param) : string :=
  let input := ToUID_input params in
  let bytes := bytes_of_string (Join input "-") in
  let md5sum := hex_of_bytes (MD5.Sum bytes) in
  uid_layout md5sum.

(** The identifier as the specification words it: the digest of the
    stringified parameters joined by the separator, in the same layout. *)
Definition ToUID_spec (params : list Param) : string :=
  uid_layout (hex_of_bytes (MD5.Sum (bytes_of_string (Join (map Sprint params) "-")))).

(** ** Bytewise order on strings, as Go's [<] on [string] *)

Definition str_le : relation string := fun a b => String.leb a b = true.

#[global] Instance str_le_dec : RelDecision str_le.
Proof. intros a b. unfold str_le. apply _. Defined.




(** ** Labels.String and Attributes.String *)

Definition byte_in (lo hi c : ascii) : bool :=
  ((N_of_ascii lo <=? N_of_ascii c) && (N_of_ascii c <=? N_of_ascii hi))%N.

(** [strings.ToLower].  It scans the bytes of [s]: when every byte is
    below [utf8.RuneSelf] (0x80) it returns [s] with the bytes [A]-[Z] made
    lower case; when one is not, it returns
    [strings.Map(unicode.ToLower, s)], which decodes the runes of [s] and
    maps each one through the case tables of package [unicode] (so the
    Kelvin sign becomes [k]).  Those tables belong to the Go library, not
    to this repository: the second path is the parameter
    [Map_unicode_ToLower] of the definitions below. *)
Fixpoint isASCII (s : string) : bool :=
  match s with
  | EmptyString => true
  | String c s' => (N_of_ascii c <? 128)%N && isASCII s'
  end.

Definition ToLower_byte (c : ascii) : ascii :=
  if byte_in "A" "Z" c then ascii_of_N (N_of_ascii c + 32) else c.

Fixpoint ToLower_ASCII (s : string) : string :=
  match s with
  | EmptyString => EmptyString
  | String c s' => String (ToLower_byte c) (ToLower_ASCII s')
  end.

(** The character class [a-z0-9]. *)
Definition lower_alnum (c : ascii) : bool :=
  byte_in "a" "z" c || byte_in "0" "9" c.

(** [regexp.MustCompile(`[^a-z0-9]+`).ReplaceAllString(src, repl)] for a
    replacement without [$]: the scanner emits [repl] once when it enters a
    match and skips the rest of the match.  [inside] tells that the byte
    before belongs to the current match.  The scanner of the library walks
    runes; walking bytes gives the same text, because every byte of a rune
    encoded on several bytes, and every byte that is not valid UTF-8, is
    at least 0x80 and so belongs to the match like the rune it is part
    of. *)
Fixpoint ReplaceAllString_from (inside : bool) (src repl : string) : string :=
  match src with
  | EmptyString => EmptyString
  | String c src' =>
      if lower_alnum c then String c (ReplaceAllString_from false src' repl)
      else if inside then ReplaceAllString_from true src' repl
      else repl ++ ReplaceAllString_from true src' repl
  end.

Definition ReplaceAllString (src repl : string) : string :=
  ReplaceAllString_from false src repl.




Abbreviation Labels := (gmap string string).
Abbreviation Attributes := (gmap string string).


(** A text cut into its maximal runs of bytes that satisfy [p] and of bytes
    that do not, each run with its side. *)
Fixpoint runs (p : ascii -> bool) (s : string) : list (bool * string) :=
  match s with
  | EmptyString => []
  | String c s' =>
      match runs p s' with
      | (b, r) :: rest =>
          if Bool.eqb (p c) b then (b, String c r) :: rest
          else (p c, String c EmptyString) :: (b, r) :: rest
      | [] => [(p c, String c EmptyString)]
      end
  end.

Definition replace_outside_runs (rs : list (bool * string)) : string :=
  fold_right (fun (br : bool * string) acc => (if br.1 then br.2 else "_") ++ acc)
    EmptyString rs.


Section Lowering.

Variable Map_unicode_ToLower : string -> string.

Definition ToLower (s : string) : string :=
  if isASCII s then ToLower_ASCII s else Map_unicode_ToLower s.

Definition property_of_key (key : string) : string :=
  ReplaceAllString (ToLower key) "_".




(** The normalized key as the specification words it: the lower-cased key
    cut into maximal runs of bytes inside and outside [a-z0-9], every run
    outside replaced by one underscore. *)
Definition normalized_key_spec (key : string) : string :=
  replace_outside_runs (runs lower_alnum (ToLower key)).

End Lowering.


(** ** k8s.io/apimachinery: group, version and kind *)

Record GroupVersion := { gvGroup : string; gvVersion : string }.

Record GroupVersionKind := { Group : string; Version : string; Kind : string }.

(** [strings.Count(s, "/")] and the two halves around the first [/]. *)
Fixpoint count_slash (s : string) : nat :=
  match s with
  | EmptyString => 0%nat
  | String c s' => ((if Ascii.eqb c "/" then 1 else 0) + count_slash s')%nat
  end.

Fixpoint cut_slash (s : string) : string * string :=
  match s with
  | EmptyString => (EmptyString, EmptyString)
  | String c s' =>
      if Ascii.eqb c "/" then (EmptyString, s')
      else let '(l, r) := cut_slash s' in (String c l, r)
  end.

(** [schema.ParseGroupVersion]; [None] is its error. *)
Definition ParseGroupVersion (gv : string) : option GroupVersion :=
  if String.eqb gv "" || String.eqb gv "/" then
    Some {| gvGroup := ""; gvVersion := "" |}
  else
    match count_slash gv with
    | 0%nat => Some {| gvGroup := ""; gvVersion := gv |}
    | 1%nat => let '(l, r) := cut_slash gv in Some {| gvGroup := l; gvVersion := r |}
    | _ => None
    end.

(** [schema.FromAPIVersionAndKind]. *)
Definition FromAPIVersionAndKind (apiVersion kind : string) : GroupVersionKind :=
  match ParseGroupVersion apiVersion with
  | Some gv => {| Group := gvGroup gv; Version := gvVersion gv; Kind := kind |}
  | None => {| Group := ""; Version := ""; Kind := kind |}
  end.

(** [GroupVersion.String]. *)
Definition GroupVersion_String (gv : GroupVersion) : string :=
  if (0 <? String.length (gvGroup gv))%nat then gvGroup gv ++ "/" ++ gvVersion gv
  else gvVersion gv.

Definition GroupVersionKind_Empty (gvk : GroupVersionKind) : bool :=
  (String.length (Group gvk) =? 0)%nat && (String.length (Version gvk) =? 0)%nat
  && (String.length (Kind gvk) =? 0)%nat.

(** [GroupVersionKind.ToAPIVersionAndKind]. *)
Definition ToAPIVersionAndKind (gvk : GroupVersionKind) : string * string :=
  if GroupVersionKind_Empty gvk then ("", "")
  else (GroupVersion_String {| gvGroup := Group gvk; gvVersion := Version gvk |},
        Kind gvk).

(** [gvk.GroupKind().String()]. *)
Definition GroupKind_String (gvk : GroupVersionKind) : string :=
  if (String.length (Group gvk) =? 0)%nat then Kind gvk
  else Kind gvk ++ "." ++ Group gvk.

(** ** The data model *)

Record Node := {
  nAPIVersion : string;
  nKind : string;
  nLabels : Labels;
  nName : string;
  nNamespace : string;
  nUID : string
}.

(** The two fields of [v1.ObjectReference] that the graph fills in. *)
Record ObjectReference := { oUID : string; oKind : string }.

Record Relationship := {
  rFrom : ObjectReference;
  rType : string;
  rTo : ObjectReference;
  rAttr : Attributes
}.

Record OwnerReference := {
  orAPIVersion : string;
  orKind : string;
  orName : string;
  orUID : string
}.

(** What [Graph.Node] reads and writes through [metav1.Object]. *)
Record ObjectMeta := {
  mClusterName : string;
  mNamespace : string;
  mName : string;
  mUID : string;
  mLabels : Labels;
  mOwnerReferences : list OwnerReference
}.

Record Unstructured := {
  uAPIVersion : string;
  uKind : string;
  uMeta : ObjectMeta
}.

(** [Unstructured.GroupVersionKind]: empty when the version does not parse. *)
Definition Unstructured_GroupVersionKind (u : Unstructured) : GroupVersionKind :=
  match ParseGroupVersion (uAPIVersion u) with
  | Some gv => {| Group := gvGroup gv; Version := gvVersion gv; Kind := uKind u |}
  | None => {| Group := ""; Version := ""; Kind := "" |}
  end.

(** The graph.  [clientset] stands for the one thing the graph asks of the
    client: the host name of its REST endpoint. *)
Record Graph := {
  Nodes : gmap string (gmap string (gmap string Node));
  Relationships : gmap string (list Relationship);
  clientset : string
}.

Definition SetClusterName (obj : ObjectMeta) (c : string) : ObjectMeta :=
  {| mClusterName := c; mNamespace := mNamespace obj; mName := mName obj;
     mUID := mUID obj; mLabels := mLabels obj;
     mOwnerReferences := mOwnerReferences obj |}.

Definition SetLabels (obj : ObjectMeta) (l : Labels) : ObjectMeta :=
  {| mClusterName := mClusterName obj; mNamespace := mNamespace obj;
     mName := mName obj; mUID := mUID obj; mLabels := l;
     mOwnerReferences := mOwnerReferences obj |}.

Definition set_Nodes (g : Graph) (ns : gmap string (gmap string (gmap string Node))) : Graph :=
  {| Nodes := ns; Relationships := Relationships g; clientset := clientset g |}.

Definition set_Relationships (g : Graph) (rs : gmap string (list Relationship)) : Graph :=
  {| Nodes := Nodes g; Relationships := rs; clientset := clientset g |}.

(** [g.Nodes[c][ns][uid]] with the [ok] of the innermost lookup; indexing a
    missing level reads as an empty map. *)
Definition lookupNode (g : Graph) (c ns uid : string) : option Node :=
  m ← Nodes g !! c; m' ← m !! ns; m' !! uid.

(** [g.Nodes[c][ns][uid] = node], the two outer levels being present. *)
Definition storeNode (g : Graph) (c ns uid : string) (node : Node) : Graph :=
  let byNamespace := default ∅ (Nodes g !! c) in
  let byUID := default ∅ (byNamespace !! ns) in
  set_Nodes g (<[c := <[ns := <[uid := node]> byUID]> byNamespace]> (Nodes g)).

(** ** Graph.Relationship *)

(** A [*Relationship] is the place of the relationship in the registry:
    the key of its edge list and its position there. *)
Definition RelationshipPtr : Type := string * nat.

Definition deref (g : Graph) (p : RelationshipPtr) : option Relationship :=
  rs ← Relationships g !! p.1; rs !! p.2.

(** Position of the first relationship of [rs] that points at [uid]. *)
Fixpoint find_To (uid : string) (rs : list Relationship) : option nat :=
  match rs with
  | [] => None
  | r :: rs' =>
      if String.eqb (oUID (rTo r)) uid then Some 0%nat
      else S <$> find_To uid rs'
  end.

Definition Graph_Relationship (g : Graph) (from : Node) (label : string) (to : Node)
  : Graph * RelationshipPtr :=
  let rs := default [] (Relationships g !! nUID from) in
  match find_To (nUID to) rs with
  | Some i => (g, (nUID from, i))
  | None =>
      let relationship :=
        {| rFrom := {| oUID := nUID from; oKind := nKind from |};
           rType := label;
           rTo := {| oUID := nUID to; oKind := nKind to |};
           rAttr := ∅ |} in
      (set_Relationships g (<[nUID from := (rs ++ [relationship])%list]> (Relationships g)),
       (nUID from, length rs))
  end.

(** [Relationship.Attribute]: writes through the pointer. *)
Definition Relationship_Attribute (g : Graph) (p : RelationshipPtr) (key value : string)
  : Graph * RelationshipPtr :=
  let set_attr (r : Relationship) :=
    {| rFrom := rFrom r; rType := rType r; rTo := rTo r;
       rAttr := <[key := value]> (rAttr r) |} in
  (set_Relationships g (alter (alter set_attr p.2) p.1 (Relationships g)), p).

(** ** Graph.Node *)

(** [if g.Nodes[c] == nil { g.Nodes[c] = make(...) }]. *)
Definition ensureCluster (g : Graph) (c : string) : Graph :=
  match Nodes g !! c with
  | Some _ => g
  | None => set_Nodes g (<[c := ∅]> (Nodes g))
  end.

(** [if g.Nodes[c][ns] == nil { g.Nodes[c][ns] = make(...) }]. *)
Definition ensureNamespace (g : Graph) (c ns : string) : Graph :=
  let byNamespace := default ∅ (Nodes g !! c) in
  match byNamespace !! ns with
  | Some _ => g
  | None => set_Nodes g (<[c := <[ns := ∅]> byNamespace]> (Nodes g))
  end.

(** The object an owner reference is turned into. *)
Definition ownerMeta (ownerRef : OwnerReference) (namespace : string) : ObjectMeta :=
  {| mClusterName := ""; mNamespace := namespace; mName := orName ownerRef;
     mUID := orUID ownerRef; mLabels := ∅; mOwnerReferences := [] |}.

Definition NodeFn : Type := Graph -> GroupVersionKind -> ObjectMeta -> Graph * Node * ObjectMeta.

(** The body of [Graph.Node], the recursive call being [self].  It returns
    the graph, the node and the object as the call leaves it (its cluster
    name and labels may have been set). *)
Definition Graph_Node_body (self : NodeFn) : NodeFn := fun g gvk obj =>
  let obj :=
    if String.eqb (mClusterName obj) "" then SetClusterName obj (clientset g) else obj in
  let g := ensureCluster g (mClusterName obj) in
  let g := ensureNamespace g (mClusterName obj) (mNamespace obj) in
  let obj :=
    match lookupNode g (mClusterName obj) (mNamespace obj) (mUID obj) with
    | Some n => if (size (nLabels n) =? 0)%nat then obj else SetLabels obj (nLabels n)
    | None => obj
    end in
  let '(apiVersion, kind) := ToAPIVersionAndKind gvk in
  let node :=
    {| nAPIVersion := apiVersion; nKind := kind; nLabels := mLabels obj;
       nName := mName obj; nNamespace := mNamespace obj; nUID := mUID obj |} in
  if String.eqb (GroupKind_String gvk) "Namespace" then (g, node, obj)
  else
    let g := storeNode g (mClusterName obj) (mNamespace obj) (mUID obj) node in
    let g :=
      fold_left
        (fun g ownerRef =>
           let '(g, owner, _) :=
             self g (FromAPIVersionAndKind (orAPIVersion ownerRef) (orKind ownerRef))
               (ownerMeta ownerRef (mNamespace obj)) in
           (Graph_Relationship g owner kind node).1)
        (mOwnerReferences obj) g in
    (g, node, obj).

(** The recursion of [Graph.Node] is two calls deep: the object built from
    an owner reference carries no owner references of its own, so the loop
    of the inner call never runs.  [Graph_Node_unfold] below shows that
    [Graph_Node] satisfies the recursive equation of the source. *)
Definition Graph_Node_bottom : NodeFn := fun g gvk obj =>
  (g, {| nAPIVersion := ""; nKind := ""; nLabels := ∅; nName := "";
         nNamespace := ""; nUID := "" |}, obj).

Definition Graph_Node : NodeFn :=
  Graph_Node_body (Graph_Node_body Graph_Node_bottom).

(** ** Graph.Unstructured and NewGraph *)

Definition error : Type := string.

(** [errors.NewAggregate]: [nil] for an empty list. *)
Definition NewAggregate (errs : list error) : option (list error) :=
  match errs with
  | [] => None
  | _ => Some errs
  end.

(** The graph [NewGraph] starts from. *)
Definition emptyGraph (host : string) : Graph :=
  {| Nodes := ∅; Relationships := ∅; clientset := host |}.

Section Extractors.

(** The three extractors live in other files of the package; the builder
    only knows their calling contract: they receive the object and may
    change the graph and fail. *)
Variables CoreV1_Unstructured NetworkingV1_Unstructured RouteV1_Unstructured :
  Graph -> Unstructured -> Graph * option error.

Definition Graph_Unstructured (g : Graph) (unstr : Unstructured) : Graph * option error :=
  let '(g, _, meta) := Graph_Node g (Unstructured_GroupVersionKind unstr) (uMeta unstr) in
  let unstr := {| uAPIVersion := uAPIVersion unstr; uKind := uKind unstr; uMeta := meta |} in
  if String.eqb (uAPIVersion unstr) "v1" then CoreV1_Unstructured g unstr
  else if String.eqb (uAPIVersion unstr) "networking.k8s.io/v1" then
    NetworkingV1_Unstructured g unstr
  else if String.eqb (uAPIVersion unstr) "route.openshift.io/v1" then
    RouteV1_Unstructured g unstr
  else (g, None).

(** The loop of [NewGraph]: the graph, the errors collected so far and the
    number of calls of [processed]. *)
Definition NewGraph_loop (objs : list Unstructured) (st : Graph * list error * nat)
  : Graph * list error * nat :=
  fold_left
    (fun '(g, errs, calls) obj =>
       let '(g, err) := Graph_Unstructured g obj in
       let errs := match err with Some e => (errs ++ [e])%list | None => errs end in
       (g, errs, S calls))
    objs st.

(** [NewGraph]; the third component counts the calls of [processed]. *)
Definition NewGraph (host : string) (objs : list Unstructured)
  : Graph * option (list error) * nat :=
  let '(g, errs, calls) := NewGraph_loop objs (emptyGraph host, [], 0%nat) in
  (g, NewAggregate errs, calls).

End Extractors.


(** ** Reading a graph *)

(** Every node the registry stores, and every relationship. *)
Definition allNodes (g : Graph) : list Node :=
  '(_, byNamespace) ← map_to_list (Nodes g);
  '(_, byUID) ← map_to_list byNamespace;
  (map_to_list byUID).*2.

Definition allRelationships (g : Graph) : list Relationship :=
  '(_, rs) ← map_to_list (Relationships g); rs.

(** The edge list kept under a source identifier ([nil] when there is none). *)
Definition edgesFrom (g : Graph) (uid : string) : list Relationship :=
  default [] (Relationships g !! uid).

(** ** Graph.Write and Graph.String *)

(** An [io.Writer] whose states are the values of [W]: [Write(p)] leaves the
    writer in a new state and returns an error or [nil]. *)
Definition Writer (W : Type) : Type := W -> string -> W * option error.

(** [bytes.Buffer], its state being its contents: [Write] appends [p] and
    returns no error. *)
Definition Buffer_Write : Writer string := fun b p => (b ++ p, None).

(** The errors of [Template.ExecuteTemplate]: no template of that name, the
    error of the writer (handed back as it is), or the error of the
    execution itself. *)
Inductive WriteError :=
| ErrNoTemplate (name : string)
| ErrWriter (e : error)
| ErrExec (e : error).

(** What a template does to the outside while it runs: it writes a piece of
    text to the writer, or it calls a method of the data.  The graph is
    handed over by value, so of the methods of this file that change
    something only [Relationship.Attribute] can be called, through the
    pointers of the edge lists. *)
Inductive Action :=
| Emit (text : string)
| CallAttribute (r : RelationshipPtr) (key value : string).

(** Modelled from the spec: the files [templates/cypher.tmpl] and
    [templates/graphviz.tmpl] are embedded at build time and are not part of
    the package source.  A parsed template is taken as what it does for a
    given graph: the actions it takes in order, and the error that ends
    the execution after them, if any. *)
Definition Template : Type := Graph -> list Action * option error.

(** [Template.Execute(wr, data)] of package [text/template]: the output is
    written piece by piece, and the execution stops at the first write the
    writer refuses, with the error of the writer. *)
Fixpoint Execute_steps {W : Type} (wr : Writer W) (steps : list Action)
    (failure : option error) (w : W) (data : Graph) : W * Graph * option WriteError :=
  match steps with
  | [] => (w, data, ErrExec <$> failure)
  | Emit text :: steps' =>
      let '(w, err) := wr w text in
      match err with
      | Some e => (w, data, Some (ErrWriter e))
      | None => Execute_steps wr steps' failure w data
      end
  | CallAttribute r key value :: steps' =>
      Execute_steps wr steps' failure w (Relationship_Attribute data r key value).1
  end.

Definition Execute {W : Type} (tmpl : Template) (wr : Writer W) (w : W) (data : Graph)
  : W * Graph * option WriteError :=
  let '(steps, failure) := tmpl data in
  Execute_steps wr steps failure w data.

Section Templates.

Variables cypherTemplate graphvizTemplate : Template.

(** The template set after [init]: [template.New("output")] registers no
    template of its own, and the two calls of [Parse] register [cypher] and
    [graphviz].  Modelled from the spec: the two files define no further
    named template. *)
Definition templates : gmap string Template :=
  <["graphviz" := graphvizTemplate]> (<["cypher" := cypherTemplate]> ∅).

(** [templates.ExecuteTemplate(w, name, data)]: without a template of that
    name nothing is executed and nothing is written. *)
Definition ExecuteTemplate {W : Type} (wr : Writer W) (w : W) (name : string)
    (data : Graph) : W * Graph * option WriteError :=
  match templates !! name with
  | None => (w, data, Some (ErrNoTemplate name))
  | Some tmpl => Execute tmpl wr w data
  end.

(** [Graph.Write]: the state of the writer and the graph after the call,
    and the error. *)
Definition Graph_Write {W : Type} (g : Graph) (wr : Writer W) (w : W) (format : string)
  : W * Graph * option WriteError :=
  let '(w, g, err) := ExecuteTemplate wr w format g in
  match err with
  | Some e => (w, g, Some e)
  | None => (w, g, None)
  end.

(** [Graph.String]: the contents of the buffer after [Graph.Write], and the
    graph after the call. *)
Definition Graph_String (g : Graph) (format : string) : string * Graph :=
  let b := "" in
  let '(b, g, _) := Graph_Write g Buffer_Write b format in
  (b, g).

End Templates.

(** The text a run of actions writes when no write fails, and the graph it
    leaves. *)
Definition emitted (steps : list Action) : string :=
  fold_right (fun a acc => match a with Emit text => text ++ acc | _ => acc end)
    "" steps.

Definition called (steps : list Action) (g : Graph) : Graph :=
  fold_left
    (fun g a =>
       match a with
       | CallAttribute r key value => (Relationship_Attribute g r key value).1
       | _ => g
       end)
    steps g.

(** ** What one call of [Graph.Node] resolves

    The pieces of the body of [Graph.Node], named for the statements below:
    the cluster the object is filed under, the object after the defaulting
    of its cluster name and the inheritance of stored labels, and the node
    built from it. *)

Definition clusterOf (g : Graph) (obj : ObjectMeta) : string :=
  if String.eqb (mClusterName obj) "" then clientset g else mClusterName obj.

Definition resolveObject (g : Graph) (obj : ObjectMeta) : ObjectMeta :=
  let obj := SetClusterName obj (clusterOf g obj) in
  match lookupNode g (mClusterName obj) (mNamespace obj) (mUID obj) with
  | Some n => if (size (nLabels n) =? 0)%nat then obj else SetLabels obj (nLabels n)
  | None => obj
  end.

Definition nodeOf (gvk : GroupVersionKind) (obj : ObjectMeta) : Node :=
  {| nAPIVersion := (ToAPIVersionAndKind gvk).1; nKind := Kind gvk;
     nLabels := mLabels obj; nName := mName obj; nNamespace := mNamespace obj;
     nUID := mUID obj |}.

Definition isNamespace (gvk : GroupVersionKind) : bool :=
  String.eqb (GroupKind_String gvk) "Namespace".

(** The edge [Graph.Node] asks for on behalf of one owner reference. *)
Definition ownerEdge (gvk : GroupVersionKind) (obj : ObjectMeta) (ownerRef : OwnerReference)
  : Relationship :=
  {| rFrom := {| oUID := orUID ownerRef; oKind := orKind ownerRef |};
     rType := Kind gvk;
     rTo := {| oUID := mUID obj; oKind := Kind gvk |};
     rAttr := ∅ |}.

(** [Graph.Relationship] on the edge lists alone. *)
Definition addEdge (rels : gmap string (list Relationship)) (e : Relationship)
  : gmap string (list Relationship) :=
  let rs := default [] (rels !! oUID (rFrom e)) in
  match find_To (oUID (rTo e)) rs with
  | Some _ => rels
  | None => <[oUID (rFrom e) := (rs ++ [e])%list]> rels
  end.

(** [Graph.Relationship] on one edge list: append unless a relationship
    already points at the same target. *)
Definition addTo (rs : list Relationship) (e : Relationship) : list Relationship :=
  match find_To (oUID (rTo e)) rs with
  | Some _ => rs
  | None => (rs ++ [e])%list
  end.

(** The relationship the registry holds from [u] to [v]: the first of the
    edge list of [u] that points at [v]. *)
Definition firstEdge (rels : gmap string (list Relationship)) (u v : string)
  : option Relationship :=
  let rs := default [] (rels !! u) in
  i ← find_To v rs; rs !! i.

(** The relationship [Graph.Relationship] builds for a new pair. *)
Definition newRelationship (from : Node) (label : string) (to : Node) : Relationship :=
  {| rFrom := {| oUID := nUID from; oKind := nKind from |};
     rType := label;
     rTo := {| oUID := nUID to; oKind := nKind to |};
     rAttr := ∅ |}.

(** The registry after the two outer levels were made, and after the node
    was stored. *)
Definition prepareGraph (g : Graph) (obj : ObjectMeta) : Graph :=
  ensureNamespace (ensureCluster g (clusterOf g obj)) (clusterOf g obj) (mNamespace obj).

Definition registerNode (g : Graph) (gvk : GroupVersionKind) (obj : ObjectMeta) : Graph :=
  storeNode (prepareGraph g obj) (clusterOf g obj) (mNamespace obj) (mUID obj)
    (nodeOf gvk (resolveObject g obj)).

(** The node an owner reference stands for. *)
Definition ownerGVK (ownerRef : OwnerReference) : GroupVersionKind :=
  FromAPIVersionAndKind (orAPIVersion ownerRef) (orKind ownerRef).

(** ** Graphs built through the registration primitives *)

(** The graphs that calls of [Graph.Node], [Graph.Relationship] and
    [Relationship.Attribute] make from the empty graph, in any order. *)
Inductive built : Graph -> Prop :=
| built_empty host : built (emptyGraph host)
| built_Node g gvk obj : built g -> built (Graph_Node g gvk obj).1.1
| built_Relationship g from label to :
    built g -> built (Graph_Relationship g from label to).1
| built_Attribute g p key value :
    built g -> built (Relationship_Attribute g p key value).1.

(** A node of kind [Namespace] whose API version names no group: the node
    of a Namespace of the core API. *)
Definition coreNamespaceNode (n : Node) : bool :=
  String.eqb (nKind n) "Namespace" && (count_slash (nAPIVersion n) =? 0)%nat.

(** ** Vocabulary for the further properties *)

(** The relationship [Relationship.Attribute] leaves behind the pointer. *)
Definition setAttr (key value : string) (r : Relationship) : Relationship :=
  {| rFrom := rFrom r; rType := rType r; rTo := rTo r;
     rAttr := <[key := value]> (rAttr r) |}.

(** The identifiers the relationships of one edge list point at. *)
Definition targets (rs : list Relationship) : list string :=
  map (fun r => oUID (rTo r)) rs.

(** Well-formed edge lists: no list is empty, every relationship is filed
    under the identifier of its source, and no two relationships of a list
    point at the same identifier. *)
Definition wfEdgeLists (rels : gmap string (list Relationship)) : Prop :=
  forall u rs, rels !! u = Some rs ->
    rs <> [] /\ Forall (fun r => oUID (rFrom r) = u) rs /\ NoDup (targets rs).

(** Every node is filed under its own namespace and identifier. *)
Definition keyedByIdentity (g : Graph) : Prop :=
  forall c ns u n, lookupNode g c ns u = Some n -> nUID n = u /\ nNamespace n = ns.

(** The owner reference takes part in the loop of [Graph.Node] by storing
    a node: its group and kind do not read [Namespace]. *)
Definition storesOwner (ownerRef : OwnerReference) : Prop :=
  isNamespace (ownerGVK ownerRef) = false.

Section Outcomes.

Variables CoreV1_Unstructured NetworkingV1_Unstructured RouteV1_Unstructured :
  Graph -> Unstructured -> Graph * option error.

(** What each call of [Graph.Unstructured] made by [NewGraph] returns, in
    the order of the batch. *)
Fixpoint NewGraph_outcomes (objs : list Unstructured) (g : Graph) : list (option error) :=
  match objs with
  | [] => []
  | obj :: objs' =>
      let '(g', err) :=
        Graph_Unstructured CoreV1_Unstructured NetworkingV1_Unstructured
          RouteV1_Unstructured g obj in
      err :: NewGraph_outcomes objs' g'
  end.

End Outcomes.

(** [n] separators in a row. *)
Fixpoint dashes (n : nat) : string :=
  match n with
  | O => EmptyString
  | S n' => String "-" (dashes n')
  end.

(** The lower-case hexadecimal digits. *)
Definition hex_char (c : ascii) : bool := byte_in "0" "9" c || byte_in "a" "f" c.

Fixpoint all_chars (p : ascii -> bool) (s : string) : bool :=
  match s with
  | EmptyString => true
  | String c s' => p c && all_chars p s'
  end.

(** The characters of a rendered property name, and the strings in which
    no two underscores follow each other. *)
Definition property_char (c : ascii) : bool := lower_alnum c || Ascii.eqb c "_".

Definition starts_underscore (s : string) : bool :=
  match s with
  | EmptyString => false
  | String c _ => Ascii.eqb c "_"
  end.

Fixpoint single_underscores (s : string) : bool :=
  match s with
  | EmptyString => true
  | String c s' =>
      (negb (Ascii.eqb c "_") || negb (starts_underscore s')) && single_underscores s'
  end.

(** ** One registry key through a call of [Graph.Node]

    What is stored under one key changes by a sequence of writes, each
    made for a group-version-kind and an object: the node built from them,
    with the labels already stored when there are some. *)

Definition inheritLabels (st : option Node) (supplied : Labels) : Labels :=
  match st with
  | Some n => if (size (nLabels n) =? 0)%nat then supplied else nLabels n
  | None => supplied
  end.

Definition rewriteNode (st : option Node) (w : GroupVersionKind * ObjectMeta)
  : option Node :=
  Some (nodeOf w.1 (SetLabels w.2 (inheritLabels st (mLabels w.2)))).

(** The writes the loop over the owner references makes under the key
    [(c, ns, u)], the host of the client being [h]. *)
Definition ownerWrites (h : string) (obj : ObjectMeta) (refs : list OwnerReference)
    (c ns u : string) : list (GroupVersionKind * ObjectMeta) :=
  omap (fun r =>
          if negb (isNamespace (ownerGVK r)) && String.eqb h c
             && String.eqb (mNamespace obj) ns && String.eqb (orUID r) u
          then Some (ownerGVK r, ownerMeta r (mNamespace obj))
          else None) refs.

(** All the writes of one call under the key [(c, ns, u)]. *)
Definition nodeWrites (g : Graph) (gvk : GroupVersionKind) (obj : ObjectMeta)
    (c ns u : string) : list (GroupVersionKind * ObjectMeta) :=
  ((if String.eqb (clusterOf g obj) c && String.eqb (mNamespace obj) ns
       && String.eqb (mUID obj) u
    then [(gvk, obj)] else [])
   ++ ownerWrites (clientset g) obj (mOwnerReferences obj) c ns u)%list.

Definition labelsOf (st : option Node) : Labels :=
  match st with
  | Some n => nLabels n
  | None => ∅
  end.

(** The pair of identifiers of a relationship is already linked. *)
Definition linked (rels : gmap string (list Relationship)) (e : Relationship) : Prop :=
  find_To (oUID (rTo e)) (default [] (rels !! oUID (rFrom e))) <> None.

(** [g'] holds whatever [g] holds: the same client, a node under every key
    that had one, a relationship between every pair that was linked. *)
Definition grows (g g' : Graph) : Prop :=
  clientset g' = clientset g
  /\ (forall c ns u, is_Some (lookupNode g c ns u) -> is_Some (lookupNode g' c ns u))
  /\ (forall u v, is_Some (firstEdge (Relationships g) u v) ->
                  is_Some (firstEdge (Relationships g') u v)).

(** ** Steps of [Graph.Node] *)

(** The graph a call on an owner reference leaves. *)
Definition ownerGraph (g : Graph) (ownerRef : OwnerReference) (namespace : string) : Graph :=
  (Graph_Node g (FromAPIVersionAndKind (orAPIVersion ownerRef) (orKind ownerRef))
     (ownerMeta ownerRef namespace)).1.1.

(** One turn of the loop over the owner references. *)
Definition ownerStep (gvk : GroupVersionKind) (obj : ObjectMeta) (node : Node)
    (g : Graph) (ownerRef : OwnerReference) : Graph :=
  let '(g, owner, _) :=
    Graph_Node g (FromAPIVersionAndKind (orAPIVersion ownerRef) (orKind ownerRef))
      (ownerMeta ownerRef (mNamespace obj)) in
  (Graph_Relationship g owner (Kind gvk) node).1.

(** No node of a core Namespace is stored. *)
Definition noCoreNamespace (g : Graph) : Prop :=
  forall c ns u n, lookupNode g c ns u = Some n -> coreNamespaceNode n = false.

(** The relationships [Graph.Node] asks for, none for a [Namespace]. *)
Definition askedEdges (gvk : GroupVersionKind) (obj : ObjectMeta) : list Relationship :=
  if isNamespace gvk then [] else map (ownerEdge gvk obj) (mOwnerReferences obj).

(** ** Vocabulary for the statements on edges *)

(** Attributes written one after the other through one pointer. *)
Definition setAttributes (g : Graph) (p : RelationshipPtr) (kvs : list (string * string))
  : Graph :=
  fold_left (fun g kv => (Relationship_Attribute g p kv.1 kv.2).1) kvs g.

(** The same writes on one relationship and on an attribute map. *)
Definition withAttributes (kvs : list (string * string)) (r : Relationship) : Relationship :=
  fold_left (fun r kv => setAttr kv.1 kv.2 r) kvs r.

Definition attributesOf (kvs : list (string * string)) (attr : Attributes) : Attributes :=
  fold_left (fun attr kv => <[kv.1 := kv.2]> attr) kvs attr.

(** The relationships of an edge list that point at [v]. *)
Definition edgesTo (v : string) (rs : list Relationship) : list Relationship :=
  filter (fun e => oUID (rTo e) = v) rs.

(** ** Vocabulary for the statements on batches *)

(** An object whose API version is none of the three [Graph.Unstructured]
    hands to an extractor. *)
Definition undispatched (unstr : Unstructured) : Prop :=
  uAPIVersion unstr <> "v1"
  /\ uAPIVersion unstr <> "networking.k8s.io/v1"
  /\ uAPIVersion unstr <> "route.openshift.io/v1".

(** The graph after [Graph.Node] was called on each object of a batch. *)
Definition registerAll (objs : list Unstructured) (g : Graph) : Graph :=
  fold_left (fun g unstr => (Graph_Node g (Unstructured_GroupVersionKind unstr)
                               (uMeta unstr)).1.1) objs g.

(** Objects that share a unique identifier. *)
Module Twins.

Definition uid : string := "66666666-6666-6666-6666-666666666666".

Definition object (kind name : string) (owners : list OwnerReference) : Unstructured :=
  {| uAPIVersion := "example.io/v1"; uKind := kind;
     uMeta := {| mClusterName := ""; mNamespace := "default"; mName := name;
                 mUID := uid; mLabels := ∅; mOwnerReferences := owners |} |}.

Definition replicaSet : OwnerReference :=
  {| orAPIVersion := "apps/v1"; orKind := "ReplicaSet"; orName := "web-5d4f";
     orUID := "22222222-2222-2222-2222-222222222222" |}.

(** Two objects of different kinds with the same identifier and the same
    owner. *)
Definition alpha : Unstructured := object "Alpha" "twin" [replicaSet].
Definition beta : Unstructured := object "Beta" "twin" [replicaSet].

(** Two objects with the same identifier that name each other as owner. *)
Definition child : Unstructured :=
  object "Alpha" "left"
    [{| orAPIVersion := "example.io/v1"; orKind := "Beta"; orName := "right";
        orUID := uid |}].
Definition owner : Unstructured :=
  object "Beta" "right"
    [{| orAPIVersion := "example.io/v1"; orKind := "Alpha"; orName := "left";
        orUID := uid |}].

End Twins.

(** Templates to run the statements on: one that writes two pieces of
    text, and one that fails after the first piece. *)
Module DemoTemplates.

Definition cypher : Template :=
  fun _ => ([Emit "MATCH "; Emit "(n)"], None).

Definition graphviz : Template :=
  fun _ => ([Emit "digraph {"], Some "no such field").

End DemoTemplates.
(** * Properties *)

(** ** MD5 test vectors *)

Example md5_empty :
  hex_of_bytes (MD5.Sum []) = "d41d8cd98f00b204e9800998ecf8427e".
Proof. vm_compute. reflexivity. Qed.

Example md5_abc :
  hex_of_bytes (MD5.Sum (bytes_of_string "abc")) = "900150983cd24fb0d6963f7d28e17f72".
Proof. vm_compute. reflexivity. Qed.

Example md5_two_blocks :
  hex_of_bytes (MD5.Sum (repeat 120 70)) = "7d56c0f83fd1e320d60ea2f13dfdeedd".
Proof. vm_compute. reflexivity. Qed.

Lemma fold_left_snoc_map {A B} (f : A -> B) (l : list A) (acc : list B) :
  fold_left (fun acc x => (acc ++ [f x])%list) l acc = (acc ++ map f l)%list.
Proof.
  revert acc. induction l as [|x l IH]; intros acc; simpl.
  - now rewrite app_nil_r.
  - rewrite IH, <- app_assoc. reflexivity.
Qed.

Lemma ToUID_input_eq (params : list Param) :
  ToUID_input params = (repeat "" (length params) ++ map Sprint params)%list.
Proof. unfold ToUID_input. apply fold_left_snoc_map. Qed.


Lemma compare_le_trans (a b c : string) :
  String.compare a b <> Gt -> String.compare b c <> Gt -> String.compare a c <> Gt.
Proof.
  revert b c. induction a as [|x a IH]; intros [|y b] [|z c]; simpl; try congruence.
  unfold Ascii.compare.
  destruct (N.compare_spec (N_of_ascii x) (N_of_ascii y)) as [Hxy|Hxy|Hxy];
    destruct (N.compare_spec (N_of_ascii y) (N_of_ascii z)) as [Hyz|Hyz|Hyz];
    destruct (N.compare_spec (N_of_ascii x) (N_of_ascii z)) as [Hxz|Hxz|Hxz];
    try congruence; try lia; intros; eauto.
Qed.

#[global] Instance str_le_trans : Transitive str_le.
Proof.
  intros a b c. unfold str_le, String.leb. intros Hab Hbc.
  pose proof (compare_le_trans a b c) as H.
  destruct (String.compare a b), (String.compare b c), (String.compare a c);
    try reflexivity; try discriminate; exfalso; apply H; congruence.
Qed.

#[global] Instance str_le_total : Total str_le.
Proof. intros a b. apply String.leb_total. Qed.

#[global] Instance str_le_antisymm : AntiSymm (=) str_le.
Proof. intros a b. apply String.leb_antisym. Qed.




Section LoweringFacts.

Variable Map_unicode_ToLower : string -> string.

Lemma ToLower_isASCII (s : string) :
  isASCII s = true -> ToLower Map_unicode_ToLower s = ToLower_ASCII s.
Proof. unfold ToLower. now intros ->. Qed.

Example property_of_key_example :
  property_of_key Map_unicode_ToLower "App.Kubernetes.io/Name--X"
  = "app_kubernetes_io_name_x"
  /\ normalized_key_spec Map_unicode_ToLower "App.Kubernetes.io/Name--X"
     = "app_kubernetes_io_name_x".
Proof. split; reflexivity. Qed.





End LoweringFacts.


(** ** The identity generator *)

Lemma ToUID_eq (params : list Param) :
  ToUID params
  = uid_layout (hex_of_bytes (MD5.Sum (bytes_of_string
      (Join (repeat "" (length params) ++ map Sprint params)%list "-")))).
Proof. unfold ToUID. now rewrite ToUID_input_eq. Qed.

(** With no parameter the slice is empty either way. *)
Lemma ToUID_nil : ToUID [] = ToUID_spec [].
Proof. vm_compute. reflexivity. Qed.

(** C6: the identifier is meant to be the MD5 digest of the stringified
    parameters joined by ["-"], laid out in 8-4-4-4-12 hexadecimal groups.
    [ToUID] lays the digest out that way, but the slice it joins starts with
    one empty string per parameter, so the hashed bytes carry as many
    leading separators: for the single parameter ["a"] it digests ["-a"],
    not ["a"], and the identifier differs from the one the claim defines. *)
Theorem ToUID_single_parameter :
  ToUID_input [PString "a"] = [""; "a"]
  /\ ToUID [PString "a"] = "37caf0ee-2622-29a9-ddc6-0877eec6883f"
  /\ ToUID_spec [PString "a"] = "0cc175b9-c0f1-b6a8-31c3-99e269772661"
  /\ ToUID [PString "a"] <> ToUID_spec [PString "a"].
Proof.
  assert (H1 : ToUID [PString "a"] = "37caf0ee-2622-29a9-ddc6-0877eec6883f")
    by (vm_compute; reflexivity).
  assert (H2 : ToUID_spec [PString "a"] = "0cc175b9-c0f1-b6a8-31c3-99e269772661")
    by (vm_compute; reflexivity).
  split; [reflexivity|]. split; [exact H1|]. split; [exact H2|].
  rewrite H1, H2. discriminate.
Qed.

(** ** The two renderings *)



Section Renderings.

Variable Map_unicode_ToLower : string -> string.



End Renderings.

(** ** The registries: basic facts *)

Lemma fold_left_ext {A B} (f f' : A -> B -> A) (l : list B) (a : A) :
  (forall a x, x ∈ l -> f a x = f' a x) -> fold_left f l a = fold_left f' l a.
Proof.
  revert a. induction l as [|x l IH]; intros a H; simpl; [reflexivity|].
  rewrite H by left. apply IH. intros a' y Hy. apply H. now right.
Qed.

Lemma Graph_eta (g : Graph) :
  {| Nodes := Nodes g; Relationships := Relationships g; clientset := clientset g |} = g.
Proof. now destruct g. Qed.

Lemma lookupNode_ensureCluster g c c' ns u :
  lookupNode (ensureCluster g c) c' ns u = lookupNode g c' ns u.
Proof.
  unfold ensureCluster, lookupNode.
  destruct (Nodes g !! c) eqn:Hc; [reflexivity|]. simpl.
  destruct (decide (c = c')) as [->|Hne].
  - rewrite lookup_insert_eq, Hc. reflexivity.
  - now rewrite lookup_insert_ne.
Qed.

Lemma lookupNode_ensureNamespace g c ns c' ns' u :
  lookupNode (ensureNamespace g c ns) c' ns' u = lookupNode g c' ns' u.
Proof.
  unfold ensureNamespace, lookupNode.
  destruct (default ∅ (Nodes g !! c) !! ns) eqn:Hns; [reflexivity|]. simpl.
  destruct (decide (c = c')) as [->|Hne]; [|now rewrite lookup_insert_ne].
  rewrite lookup_insert_eq. simpl.
  destruct (decide (ns = ns')) as [->|Hne'].
  - rewrite lookup_insert_eq. simpl.
    destruct (Nodes g !! c') as [m|]; simpl in *; [now rewrite Hns|reflexivity].
  - rewrite lookup_insert_ne by assumption.
    destruct (Nodes g !! c') as [m|]; simpl; [reflexivity|now rewrite lookup_empty].
Qed.

Lemma lookupNode_storeNode g c ns u n c' ns' u' :
  lookupNode (storeNode g c ns u n) c' ns' u'
  = if decide (c = c' /\ ns = ns' /\ u = u') then Some n else lookupNode g c' ns' u'.
Proof.
  unfold storeNode, lookupNode. simpl.
  destruct (decide (c = c')) as [->|Hc].
  2:{ rewrite lookup_insert_ne by assumption. case_decide; [tauto|reflexivity]. }
  rewrite lookup_insert_eq. simpl.
  destruct (decide (ns = ns')) as [->|Hns].
  2:{ rewrite lookup_insert_ne by assumption. case_decide; [tauto|].
      destruct (Nodes g !! c'); simpl; [reflexivity|now rewrite lookup_empty]. }
  rewrite lookup_insert_eq. simpl.
  destruct (decide (u = u')) as [->|Hu].
  - rewrite lookup_insert_eq. case_decide; [reflexivity|tauto].
  - rewrite lookup_insert_ne by assumption. case_decide; [tauto|].
    destruct (Nodes g !! c') as [m|]; simpl; [|now rewrite !lookup_empty].
    destruct (m !! ns'); simpl; [reflexivity|now rewrite lookup_empty].
Qed.

Lemma Relationships_ensureCluster g c :
  Relationships (ensureCluster g c) = Relationships g.
Proof. unfold ensureCluster. now destruct (Nodes g !! c). Qed.

Lemma Relationships_ensureNamespace g c ns :
  Relationships (ensureNamespace g c ns) = Relationships g.
Proof. unfold ensureNamespace. now destruct (default ∅ (Nodes g !! c) !! ns). Qed.

Lemma clientset_ensureCluster g c : clientset (ensureCluster g c) = clientset g.
Proof. unfold ensureCluster. now destruct (Nodes g !! c). Qed.

Lemma clientset_ensureNamespace g c ns : clientset (ensureNamespace g c ns) = clientset g.
Proof. unfold ensureNamespace. now destruct (default ∅ (Nodes g !! c) !! ns). Qed.

Lemma Nodes_Graph_Relationship g from label to :
  Nodes (Graph_Relationship g from label to).1 = Nodes g.
Proof.
  unfold Graph_Relationship.
  now destruct (find_To (nUID to) (default [] (Relationships g !! nUID from))).
Qed.

Lemma clientset_Graph_Relationship g from label to :
  clientset (Graph_Relationship g from label to).1 = clientset g.
Proof.
  unfold Graph_Relationship.
  now destruct (find_To (nUID to) (default [] (Relationships g !! nUID from))).
Qed.

Lemma lookupNode_Graph_Relationship g from label to c ns u :
  lookupNode (Graph_Relationship g from label to).1 c ns u = lookupNode g c ns u.
Proof. unfold lookupNode. now rewrite Nodes_Graph_Relationship. Qed.

Lemma ToAPIVersionAndKind_kind gvk : (ToAPIVersionAndKind gvk).2 = Kind gvk.
Proof.
  unfold ToAPIVersionAndKind, GroupVersionKind_Empty.
  destruct (String.length (Group gvk) =? 0)%nat; simpl; [|reflexivity].
  destruct (String.length (Version gvk) =? 0)%nat; simpl; [|reflexivity].
  destruct (Kind gvk); reflexivity.
Qed.

Lemma Kind_FromAPIVersionAndKind apiVersion kind :
  Kind (FromAPIVersionAndKind apiVersion kind) = kind.
Proof. unfold FromAPIVersionAndKind. now destruct (ParseGroupVersion apiVersion). Qed.

(** ** Graph.Node, call by call *)

Lemma SetClusterName_same obj : SetClusterName obj (mClusterName obj) = obj.
Proof. now destruct obj. Qed.

Lemma Graph_Node_body_eq (self : NodeFn) g gvk obj :
  Graph_Node_body self g gvk obj
  = let obj' := resolveObject g obj in
    let node := nodeOf gvk obj' in
    let c := clusterOf g obj in
    let g1 := ensureNamespace (ensureCluster g c) c (mNamespace obj) in
    if isNamespace gvk then (g1, node, obj')
    else
      (fold_left
         (fun g ownerRef =>
            let '(g, owner, _) :=
              self g (FromAPIVersionAndKind (orAPIVersion ownerRef) (orKind ownerRef))
                (ownerMeta ownerRef (mNamespace obj)) in
            (Graph_Relationship g owner (Kind gvk) node).1)
         (mOwnerReferences obj) (storeNode g1 c (mNamespace obj) (mUID obj) node),
       node, obj').
Proof.
  unfold Graph_Node_body, resolveObject, clusterOf, isNamespace, nodeOf.
  pose proof (ToAPIVersionAndKind_kind gvk) as Hk.
  destruct (ToAPIVersionAndKind gvk) as [apiVersion kind]. simpl in Hk. subst kind.
  cbv zeta.
  destruct (String.eqb (mClusterName obj) "") eqn:Hc; simpl.
  - rewrite lookupNode_ensureNamespace, lookupNode_ensureCluster.
    destruct (lookupNode g (clientset g) (mNamespace obj) (mUID obj)) as [n|]; simpl;
      [destruct (size (nLabels n) =? 0)%nat|]; simpl;
      destruct (String.eqb (GroupKind_String gvk) "Namespace"); reflexivity.
  - rewrite lookupNode_ensureNamespace, lookupNode_ensureCluster.
    destruct (lookupNode g (mClusterName obj) (mNamespace obj) (mUID obj)) as [n|]; simpl;
      [destruct (size (nLabels n) =? 0)%nat|]; simpl; rewrite ?SetClusterName_same;
      destruct (String.eqb (GroupKind_String gvk) "Namespace"); reflexivity.
Qed.

(** A call on an object without owner references never reaches the
    recursive call. *)
Lemma Graph_Node_body_leaf (self : NodeFn) g gvk obj :
  mOwnerReferences obj = [] ->
  Graph_Node_body self g gvk obj
  = let obj' := resolveObject g obj in
    let node := nodeOf gvk obj' in
    let c := clusterOf g obj in
    let g1 := ensureNamespace (ensureCluster g c) c (mNamespace obj) in
    (if isNamespace gvk then g1 else storeNode g1 c (mNamespace obj) (mUID obj) node,
     node, obj').
Proof.
  intros Hrefs. rewrite Graph_Node_body_eq. cbv zeta. rewrite Hrefs. simpl.
  now destruct (isNamespace gvk).
Qed.

(** [Graph_Node] satisfies the recursive equation of [Graph.Node]. *)
Lemma Graph_Node_unfold g gvk obj :
  Graph_Node g gvk obj = Graph_Node_body Graph_Node g gvk obj.
Proof.
  unfold Graph_Node at 1. rewrite !Graph_Node_body_eq. cbv zeta.
  destruct (isNamespace gvk); [reflexivity|]. f_equal. f_equal.
  apply fold_left_ext. intros a r _.
  unfold Graph_Node. now rewrite !(Graph_Node_body_leaf _ a).
Qed.

Lemma Graph_Node_owner g ownerRef namespace :
  Graph_Node g (FromAPIVersionAndKind (orAPIVersion ownerRef) (orKind ownerRef))
    (ownerMeta ownerRef namespace)
  = Graph_Node_body Graph_Node_bottom g
      (FromAPIVersionAndKind (orAPIVersion ownerRef) (orKind ownerRef))
      (ownerMeta ownerRef namespace).
Proof. unfold Graph_Node. now rewrite !(Graph_Node_body_leaf _ g). Qed.

(** ** Edge lists *)

Lemma find_To_None v rs :
  find_To v rs = None <-> Forall (fun r => oUID (rTo r) <> v) rs.
Proof.
  induction rs as [|r rs IH]; simpl.
  - split; [constructor|reflexivity].
  - destruct (String.eqb_spec (oUID (rTo r)) v) as [Heq|Hne].
    + split; [discriminate|]. intros H. inversion H; subst. congruence.
    + destruct (find_To v rs); simpl.
      * split; [discriminate|]. intros H. inversion H; subst.
        apply IH in H3. discriminate.
      * split; [|reflexivity]. intros _. constructor; [assumption|]. now apply IH.
Qed.

Lemma find_To_Some v rs i :
  find_To v rs = Some i -> exists r, rs !! i = Some r /\ oUID (rTo r) = v.
Proof.
  revert i. induction rs as [|r rs IH]; simpl; intros i; [discriminate|].
  destruct (String.eqb_spec (oUID (rTo r)) v) as [Heq|Hne].
  - intros [= <-]. exists r. split; [reflexivity|assumption].
  - destruct (find_To v rs) as [j|]; simpl; [|discriminate].
    intros [= <-]. apply (IH j). reflexivity.
Qed.

Lemma find_To_app v rs e :
  find_To v (rs ++ [e])
  = match find_To v rs with
    | Some i => Some i
    | None => if String.eqb (oUID (rTo e)) v then Some (length rs) else None
    end.
Proof.
  induction rs as [|r rs IH]; simpl.
  - now destruct (String.eqb (oUID (rTo e)) v).
  - destruct (String.eqb (oUID (rTo r)) v); [reflexivity|].
    rewrite IH. destruct (find_To v rs); simpl; [reflexivity|].
    now destruct (String.eqb (oUID (rTo e)) v).
Qed.

Lemma find_To_perm v rs rs' :
  rs ≡ₚ rs' -> find_To v rs = None -> find_To v rs' = None.
Proof. rewrite !find_To_None. intros Hp. now rewrite Hp. Qed.

Lemma addTo_perm rs rs' e : rs ≡ₚ rs' -> addTo rs e ≡ₚ addTo rs' e.
Proof.
  intros Hp. unfold addTo.
  destruct (find_To (oUID (rTo e)) rs) eqn:H1, (find_To (oUID (rTo e)) rs') eqn:H2.
  - assumption.
  - apply (find_To_perm _ _ rs) in H2; [congruence|now symmetry].
  - apply (find_To_perm _ _ rs') in H1; [congruence|assumption].
  - now rewrite Hp.
Qed.

Lemma addTo_comm rs e1 e2 :
  oUID (rTo e1) <> oUID (rTo e2) ->
  addTo (addTo rs e1) e2 ≡ₚ addTo (addTo rs e2) e1.
Proof.
  intros Hne. unfold addTo.
  destruct (find_To (oUID (rTo e1)) rs) eqn:H1, (find_To (oUID (rTo e2)) rs) eqn:H2;
    rewrite ?H1, ?H2, ?find_To_app, ?H1, ?H2; try reflexivity.
  destruct (String.eqb_spec (oUID (rTo e1)) (oUID (rTo e2))); [contradiction|].
  destruct (String.eqb_spec (oUID (rTo e2)) (oUID (rTo e1))); [congruence|].
  rewrite <- !app_assoc. apply Permutation_app_head. apply perm_swap.
Qed.

Lemma fold_addTo_perm es rs rs' :
  rs ≡ₚ rs' -> fold_left addTo es rs ≡ₚ fold_left addTo es rs'.
Proof.
  revert rs rs'. induction es as [|e es IH]; intros rs rs' Hp; simpl; [assumption|].
  apply IH. now apply addTo_perm.
Qed.

Lemma fold_addTo_comm_one es rs e :
  Forall (fun e' => oUID (rTo e') <> oUID (rTo e)) es ->
  fold_left addTo es (addTo rs e) ≡ₚ addTo (fold_left addTo es rs) e.
Proof.
  revert rs. induction es as [|e' es IH]; intros rs Hall; simpl; [reflexivity|].
  inversion Hall as [|? ? Hne Hall']; subst.
  rewrite <- (IH _ Hall'). apply fold_addTo_perm.
  apply addTo_comm. congruence.
Qed.

(** Two blocks of insertions that never aim at a common target commute. *)
Lemma fold_addTo_comm es1 es2 rs :
  Forall (fun e1 => Forall (fun e2 => oUID (rTo e2) <> oUID (rTo e1)) es2) es1 ->
  fold_left addTo es2 (fold_left addTo es1 rs)
  ≡ₚ fold_left addTo es1 (fold_left addTo es2 rs).
Proof.
  revert rs. induction es1 as [|e es1 IH]; intros rs Hall; simpl; [reflexivity|].
  inversion Hall as [|? ? He Hall']; subst.
  rewrite (IH _ Hall'). apply fold_addTo_perm.
  now apply fold_addTo_comm_one.
Qed.

(** The registry seen from one source identifier. *)
Lemma addEdge_lookup rels e u :
  default [] (addEdge rels e !! u)
  = if decide (u = oUID (rFrom e)) then addTo (default [] (rels !! u)) e
    else default [] (rels !! u).
Proof.
  unfold addEdge, addTo.
  destruct (decide (u = oUID (rFrom e))) as [->|Hne].
  - destruct (find_To _ _); [reflexivity|]. now rewrite lookup_insert_eq.
  - destruct (find_To _ _); [reflexivity|]. now rewrite lookup_insert_ne.
Qed.

Lemma fold_addEdge_lookup es rels u :
  default [] (fold_left addEdge es rels !! u)
  = fold_left addTo (filter (fun e => u = oUID (rFrom e)) es) (default [] (rels !! u)).
Proof.
  revert rels. induction es as [|e es IH]; intros rels; simpl; [reflexivity|].
  rewrite IH, addEdge_lookup, filter_cons.
  destruct (decide (u = oUID (rFrom e))); reflexivity.
Qed.

Lemma addEdge_dom rels e :
  dom (addEdge rels e) = {[oUID (rFrom e)]} ∪ dom rels.
Proof.
  unfold addEdge.
  destruct (find_To _ _) eqn:Hf; [|apply dom_insert_L].
  destruct (rels !! oUID (rFrom e)) eqn:Hl; simpl in Hf; [|discriminate].
  apply (elem_of_dom_2 (D := gset string)) in Hl. set_solver.
Qed.

Lemma fold_addEdge_dom es rels :
  dom (fold_left addEdge es rels) = list_to_set (map (fun e => oUID (rFrom e)) es) ∪ dom rels.
Proof.
  revert rels. induction es as [|e es IH]; intros rels; simpl; [set_solver|].
  rewrite IH, addEdge_dom. set_solver.
Qed.

(** ** The relationships one call of [Graph.Node] leaves *)

Lemma Graph_Relationship_rels g from label to :
  Relationships (Graph_Relationship g from label to).1
  = addEdge (Relationships g) (newRelationship from label to).
Proof.
  unfold Graph_Relationship, addEdge, newRelationship. simpl.
  now destruct (find_To (nUID to) (default [] (Relationships g !! nUID from))).
Qed.

Lemma resolveObject_fields g obj :
  mClusterName (resolveObject g obj) = clusterOf g obj
  /\ mNamespace (resolveObject g obj) = mNamespace obj
  /\ mName (resolveObject g obj) = mName obj
  /\ mUID (resolveObject g obj) = mUID obj
  /\ mOwnerReferences (resolveObject g obj) = mOwnerReferences obj.
Proof.
  unfold resolveObject. simpl.
  destruct (lookupNode g (clusterOf g obj) (mNamespace obj) (mUID obj)) as [n|]; simpl;
    [destruct (size (nLabels n) =? 0)%nat|]; simpl; repeat split.
Qed.

(** The node a call returns. *)
Lemma Graph_Node_node g gvk obj :
  (Graph_Node g gvk obj).1.2 = nodeOf gvk (resolveObject g obj).
Proof.
  unfold Graph_Node. rewrite Graph_Node_body_eq. cbv zeta.
  now destruct (isNamespace gvk).
Qed.

Lemma Graph_Node_object g gvk obj :
  (Graph_Node g gvk obj).2 = resolveObject g obj.
Proof.
  unfold Graph_Node. rewrite Graph_Node_body_eq. cbv zeta.
  now destruct (isNamespace gvk).
Qed.

Lemma ownerGraph_eq g ownerRef namespace :
  ownerGraph g ownerRef namespace
  = let gvk := FromAPIVersionAndKind (orAPIVersion ownerRef) (orKind ownerRef) in
    let obj := ownerMeta ownerRef namespace in
    let g1 := ensureNamespace (ensureCluster g (clientset g)) (clientset g) namespace in
    if isNamespace gvk then g1
    else storeNode g1 (clientset g) namespace (orUID ownerRef) (nodeOf gvk (resolveObject g obj)).
Proof.
  unfold ownerGraph. rewrite Graph_Node_owner, Graph_Node_body_leaf by reflexivity.
  reflexivity.
Qed.

Lemma Relationships_ownerGraph g ownerRef namespace :
  Relationships (ownerGraph g ownerRef namespace) = Relationships g.
Proof.
  rewrite ownerGraph_eq. cbv zeta.
  destruct (isNamespace _); simpl;
    now rewrite Relationships_ensureNamespace, Relationships_ensureCluster.
Qed.

Lemma clientset_ownerGraph g ownerRef namespace :
  clientset (ownerGraph g ownerRef namespace) = clientset g.
Proof.
  rewrite ownerGraph_eq. cbv zeta.
  destruct (isNamespace _); simpl;
    now rewrite clientset_ensureNamespace, clientset_ensureCluster.
Qed.

Lemma ownerStep_eq gvk obj node g ownerRef :
  ownerStep gvk obj node g ownerRef
  = (Graph_Relationship (ownerGraph g ownerRef (mNamespace obj))
       (nodeOf (FromAPIVersionAndKind (orAPIVersion ownerRef) (orKind ownerRef))
          (resolveObject g (ownerMeta ownerRef (mNamespace obj))))
       (Kind gvk) node).1.
Proof.
  unfold ownerStep, ownerGraph.
  rewrite <- Graph_Node_node.
  now destruct (Graph_Node g _ _) as [[g' owner] o].
Qed.

Lemma Graph_Node_eq g gvk obj :
  Graph_Node g gvk obj
  = let obj' := resolveObject g obj in
    let node := nodeOf gvk obj' in
    let c := clusterOf g obj in
    let g1 := ensureNamespace (ensureCluster g c) c (mNamespace obj) in
    if isNamespace gvk then (g1, node, obj')
    else (fold_left (ownerStep gvk obj node) (mOwnerReferences obj)
            (storeNode g1 c (mNamespace obj) (mUID obj) node), node, obj').
Proof. rewrite Graph_Node_unfold, Graph_Node_body_eq. reflexivity. Qed.

Lemma Relationships_ownerStep gvk obj node g ownerRef :
  nUID node = mUID obj -> nKind node = Kind gvk ->
  Relationships (ownerStep gvk obj node g ownerRef)
  = addEdge (Relationships g) (ownerEdge gvk obj ownerRef).
Proof.
  intros Hu Hk. rewrite ownerStep_eq, Graph_Relationship_rels, Relationships_ownerGraph.
  f_equal. unfold newRelationship, ownerEdge, nodeOf. simpl.
  destruct (resolveObject_fields g (ownerMeta ownerRef (mNamespace obj)))
    as (_ & _ & _ & -> & _).
  now rewrite Kind_FromAPIVersionAndKind, Hu, Hk.
Qed.

Lemma Relationships_fold_ownerStep gvk obj node refs g :
  nUID node = mUID obj -> nKind node = Kind gvk ->
  Relationships (fold_left (ownerStep gvk obj node) refs g)
  = fold_left addEdge (map (ownerEdge gvk obj) refs) (Relationships g).
Proof.
  intros Hu Hk. revert g. induction refs as [|r refs IH]; intros g; simpl; [reflexivity|].
  now rewrite IH, Relationships_ownerStep.
Qed.

Lemma Relationships_prepareGraph g obj :
  Relationships (prepareGraph g obj) = Relationships g.
Proof.
  unfold prepareGraph.
  now rewrite Relationships_ensureNamespace, Relationships_ensureCluster.
Qed.

Lemma Relationships_registerNode g gvk obj :
  Relationships (registerNode g gvk obj) = Relationships g.
Proof. unfold registerNode. simpl. apply Relationships_prepareGraph. Qed.

Lemma clientset_prepareGraph g obj : clientset (prepareGraph g obj) = clientset g.
Proof.
  unfold prepareGraph. now rewrite clientset_ensureNamespace, clientset_ensureCluster.
Qed.

Lemma clientset_registerNode g gvk obj : clientset (registerNode g gvk obj) = clientset g.
Proof. unfold registerNode. simpl. apply clientset_prepareGraph. Qed.

Lemma lookupNode_prepareGraph g obj c ns u :
  lookupNode (prepareGraph g obj) c ns u = lookupNode g c ns u.
Proof.
  unfold prepareGraph. now rewrite lookupNode_ensureNamespace, lookupNode_ensureCluster.
Qed.

Lemma lookupNode_registerNode g gvk obj c ns u :
  lookupNode (registerNode g gvk obj) c ns u
  = if decide (clusterOf g obj = c /\ mNamespace obj = ns /\ mUID obj = u)
    then Some (nodeOf gvk (resolveObject g obj))
    else lookupNode g c ns u.
Proof.
  unfold registerNode. rewrite lookupNode_storeNode.
  case_decide; [reflexivity|apply lookupNode_prepareGraph].
Qed.

(** [Graph.Node] as a sequence of registry steps. *)
Lemma Graph_Node_steps g gvk obj :
  Graph_Node g gvk obj
  = (if isNamespace gvk then prepareGraph g obj
     else fold_left (ownerStep gvk obj (nodeOf gvk (resolveObject g obj)))
            (mOwnerReferences obj) (registerNode g gvk obj),
     nodeOf gvk (resolveObject g obj), resolveObject g obj).
Proof. rewrite Graph_Node_eq. cbv zeta. now destruct (isNamespace gvk). Qed.

Lemma ownerStep_steps gvk obj node g ownerRef :
  ownerStep gvk obj node g ownerRef
  = let om := ownerMeta ownerRef (mNamespace obj) in
    (Graph_Relationship
       (if isNamespace (ownerGVK ownerRef) then prepareGraph g om
        else registerNode g (ownerGVK ownerRef) om)
       (nodeOf (ownerGVK ownerRef) (resolveObject g om)) (Kind gvk) node).1.
Proof.
  rewrite ownerStep_eq. cbv zeta. unfold ownerGraph, ownerGVK.
  rewrite Graph_Node_steps. simpl. reflexivity.
Qed.

Lemma nodeOf_resolveObject_ids gvk g obj :
  nUID (nodeOf gvk (resolveObject g obj)) = mUID obj
  /\ nKind (nodeOf gvk (resolveObject g obj)) = Kind gvk
  /\ nName (nodeOf gvk (resolveObject g obj)) = mName obj
  /\ nNamespace (nodeOf gvk (resolveObject g obj)) = mNamespace obj.
Proof.
  destruct (resolveObject_fields g obj) as (_ & Hn & Hm & Hu & _).
  unfold nodeOf. simpl. now rewrite Hn, Hm, Hu.
Qed.

Lemma Relationships_Graph_Node g gvk obj :
  Relationships (Graph_Node g gvk obj).1.1
  = if isNamespace gvk then Relationships g
    else fold_left addEdge (map (ownerEdge gvk obj) (mOwnerReferences obj)) (Relationships g).
Proof.
  rewrite Graph_Node_steps. simpl.
  destruct (isNamespace gvk); [apply Relationships_prepareGraph|].
  destruct (nodeOf_resolveObject_ids gvk g obj) as (Hu & Hk & _).
  now rewrite Relationships_fold_ownerStep, Relationships_registerNode.
Qed.

(** A property of graphs that the three registry steps keep is kept by
    [Graph.Node]. *)
Lemma Graph_Node_preserves (P : Graph -> Prop) :
  (forall g obj, P g -> P (prepareGraph g obj)) ->
  (forall g gvk obj, isNamespace gvk = false -> P g -> P (registerNode g gvk obj)) ->
  (forall g from label to, P g -> P (Graph_Relationship g from label to).1) ->
  forall g gvk obj, P g -> P (Graph_Node g gvk obj).1.1.
Proof.
  intros Hprep Hreg Hrel g gvk obj Hg. rewrite Graph_Node_steps. simpl.
  destruct (isNamespace gvk) eqn:Hns; [now apply Hprep|].
  assert (Hstart : P (registerNode g gvk obj)) by now apply Hreg.
  revert Hstart. generalize (registerNode g gvk obj) as g0.
  generalize (nodeOf gvk (resolveObject g obj)) as node.
  induction (mOwnerReferences obj) as [|r refs IH]; intros node g0 Hg0; simpl; [assumption|].
  apply IH. rewrite ownerStep_steps. cbv zeta. apply Hrel.
  destruct (isNamespace (ownerGVK r)) eqn:Hr; [now apply Hprep|now apply Hreg].
Qed.

(** ** Labels of a stored node *)

Lemma resolveObject_labels g obj :
  mLabels (resolveObject g obj)
  = match lookupNode g (clusterOf g obj) (mNamespace obj) (mUID obj) with
    | Some n => if (size (nLabels n) =? 0)%nat then mLabels obj else nLabels n
    | None => mLabels obj
    end.
Proof.
  unfold resolveObject. simpl.
  destruct (lookupNode g (clusterOf g obj) (mNamespace obj) (mUID obj)) as [n|];
    [destruct (size (nLabels n) =? 0)%nat|]; reflexivity.
Qed.

Lemma resolveObject_inherits g obj n :
  lookupNode g (clusterOf g obj) (mNamespace obj) (mUID obj) = Some n ->
  size (nLabels n) <> 0%nat ->
  mLabels (resolveObject g obj) = nLabels n.
Proof.
  intros Hl Hs. rewrite resolveObject_labels, Hl.
  destruct (Nat.eqb_spec (size (nLabels n)) 0); [contradiction|reflexivity].
Qed.

(** C3: once the node stored under an identity key holds labels, every
    later call of [Graph.Node] leaves a node with the same labels under
    that key; a call under the same key takes the stored labels over, also
    when it supplies none, so they never become empty. *)
Theorem Graph_Node_labels_kept g gvk obj c ns u n :
  lookupNode g c ns u = Some n ->
  size (nLabels n) <> 0%nat ->
  (exists n', lookupNode (Graph_Node g gvk obj).1.1 c ns u = Some n'
              /\ nLabels n' = nLabels n)
  /\ (clusterOf g obj = c -> mNamespace obj = ns -> mUID obj = u ->
      nLabels (Graph_Node g gvk obj).1.2 = nLabels n
      /\ mLabels (Graph_Node g gvk obj).2 = nLabels n).
Proof.
  intros Hl Hs. split.
  - apply (Graph_Node_preserves
             (fun g => exists n', lookupNode g c ns u = Some n' /\ nLabels n' = nLabels n)).
    + intros g0 o (n' & H1 & H2). exists n'. now rewrite lookupNode_prepareGraph.
    + intros g0 gvk0 o _ (n' & H1 & H2). rewrite lookupNode_registerNode.
      case_decide as Hkey; [|now exists n'].
      destruct Hkey as (<- & <- & <-). eexists. split; [reflexivity|].
      simpl. rewrite (resolveObject_inherits g0 o n') by congruence. assumption.
    + intros g0 from label to (n' & H1 & H2). exists n'.
      now rewrite lookupNode_Graph_Relationship.
    + now exists n.
  - intros <- <- <-. rewrite Graph_Node_node, Graph_Node_object. simpl.
    rewrite (resolveObject_inherits g obj n) by assumption.
    split; reflexivity.
Qed.

(** ** Namespaces *)

Lemma count_slash_app a b : count_slash (a ++ b) = (count_slash a + count_slash b)%nat.
Proof. induction a as [|c a IH]; simpl; [reflexivity|]. rewrite IH. lia. Qed.

Lemma length_zero_empty (s : string) : (String.length s =? 0)%nat = true <-> s = "".
Proof. destruct s; simpl; split; congruence. Qed.

Lemma dotted_not_Namespace (k g : string) : k ++ "." ++ g <> "Namespace".
Proof.
  intros H.
  do 9 (destruct k as [|? k]; simpl in H; [discriminate H|injection H as _ H]).
  destruct k; discriminate H.
Qed.

Lemma isNamespace_iff gvk :
  isNamespace gvk = true <-> Group gvk = "" /\ Kind gvk = "Namespace".
Proof.
  unfold isNamespace, GroupKind_String. rewrite String.eqb_eq.
  destruct (String.length (Group gvk) =? 0)%nat eqn:Hg.
  - apply length_zero_empty in Hg. tauto.
  - split.
    + intros H. exfalso. exact (dotted_not_Namespace _ _ H).
    + intros [H _]. apply length_zero_empty in H. congruence.
Qed.

Lemma coreNamespaceNode_nodeOf gvk obj :
  isNamespace gvk = false -> coreNamespaceNode (nodeOf gvk obj) = false.
Proof.
  intros Hns. unfold coreNamespaceNode, nodeOf. simpl.
  destruct (String.eqb_spec (Kind gvk) "Namespace") as [Hk|]; [|reflexivity]. simpl.
  assert (Hg : (String.length (Group gvk) =? 0)%nat = false).
  { destruct (String.length (Group gvk) =? 0)%nat eqn:Hg; [|reflexivity].
    apply length_zero_empty in Hg.
    assert (isNamespace gvk = true) by now apply isNamespace_iff. congruence. }
  unfold ToAPIVersionAndKind, GroupVersionKind_Empty, GroupVersion_String.
  rewrite Hg. simpl.
  destruct (String.length (Group gvk)) eqn:Hl; [discriminate|]. simpl.
  rewrite !count_slash_app. simpl. apply Nat.eqb_neq. lia.
Qed.

Lemma noCoreNamespace_Graph_Node g gvk obj :
  noCoreNamespace g -> noCoreNamespace (Graph_Node g gvk obj).1.1.
Proof.
  apply (Graph_Node_preserves noCoreNamespace).
  - intros g0 o H c ns u n. rewrite lookupNode_prepareGraph. apply H.
  - intros g0 gvk0 o Hns H c ns u n. rewrite lookupNode_registerNode.
    case_decide; [|apply H]. intros [= <-]. now apply coreNamespaceNode_nodeOf.
  - intros g0 from label to H c ns u n. rewrite lookupNode_Graph_Relationship. apply H.
Qed.

Lemma noCoreNamespace_built g : built g -> noCoreNamespace g.
Proof.
  induction 1 as [host|g gvk obj _ IH|g from label to _ IH|g p key value _ IH].
  - intros c ns u n. unfold lookupNode. simpl. rewrite lookup_empty. discriminate.
  - now apply noCoreNamespace_Graph_Node.
  - intros c ns u n. rewrite lookupNode_Graph_Relationship. apply IH.
  - exact IH.
Qed.

Lemma Unstructured_core_Namespace (u : Unstructured) :
  uKind u = "Namespace" -> count_slash (uAPIVersion u) = 0%nat ->
  isNamespace (Unstructured_GroupVersionKind u) = true.
Proof.
  intros Hk Hc. apply isNamespace_iff.
  unfold Unstructured_GroupVersionKind, ParseGroupVersion. rewrite Hc.
  destruct (String.eqb (uAPIVersion u) "" || String.eqb (uAPIVersion u) "/"); simpl;
    split; (reflexivity || assumption).
Qed.

(** Objects used to run the statements on concrete input. *)
Module Sample.

Definition host : string := "api.cluster.local".

Definition meta (namespace name uid : string) (labels : Labels)
    (owners : list OwnerReference) : ObjectMeta :=
  {| mClusterName := ""; mNamespace := namespace; mName := name; mUID := uid;
     mLabels := labels; mOwnerReferences := owners |}.

Definition uidD : string := "11111111-1111-1111-1111-111111111111".
Definition uidR : string := "22222222-2222-2222-2222-222222222222".

Definition deploymentD : Unstructured :=
  {| uAPIVersion := "apps/v1"; uKind := "Deployment";
     uMeta := meta "default" "web" uidD ∅ [] |}.

Definition replicaSetR : Unstructured :=
  {| uAPIVersion := "apps/v1"; uKind := "ReplicaSet";
     uMeta := meta "default" "web-5d4f" uidR ∅
                [{| orAPIVersion := "apps/v1"; orKind := "Deployment";
                    orName := "web"; orUID := uidD |}] |}.

Definition coreNamespace : Unstructured :=
  {| uAPIVersion := "v1"; uKind := "Namespace";
     uMeta := meta "" "prod" "44444444-4444-4444-4444-444444444444" ∅ [] |}.

(** A custom resource whose kind is also called [Namespace]. *)
Definition serviceBusNamespace : Unstructured :=
  {| uAPIVersion := "servicebus.azure.com/v1"; uKind := "Namespace";
     uMeta := meta "prod" "orders" "33333333-3333-3333-3333-333333333333" ∅ [] |}.

Definition gvkOf := Unstructured_GroupVersionKind.

(** A graph that already holds the deployment, labelled. *)
Definition labelled : ObjectMeta :=
  meta "default" "web" uidD (<["a" := "1"]> ∅) [].

Definition unlabelled : ObjectMeta := meta "default" "web" uidD ∅ [].

Definition withLabels : Graph :=
  (Graph_Node (emptyGraph host) (gvkOf deploymentD) labelled).1.1.

End Sample.

Lemma Graph_Node_labels_kept_witness :
  exists n',
    lookupNode (Graph_Node Sample.withLabels (Sample.gvkOf Sample.deploymentD)
                  Sample.unlabelled).1.1 Sample.host "default" Sample.uidD = Some n'
    /\ nLabels n' = <["a" := "1"]> ∅.
Proof.
  refine (proj1 (Graph_Node_labels_kept Sample.withLabels
                   (Sample.gvkOf Sample.deploymentD) Sample.unlabelled
                   Sample.host "default" Sample.uidD
                   (nodeOf (Sample.gvkOf Sample.deploymentD) Sample.labelled) _ _)).
  - vm_compute. reflexivity.
  - vm_compute. discriminate.
Defined.

(** C4, as the code has it: a call of [Graph.Node] whose group and kind read
    [Namespace] (kind [Namespace] of the core API, which has no group)
    returns the node and stores nothing: every lookup in the registry and
    every relationship is as before.  Whatever the order of the calls, a
    graph built through the registration primitives holds no node of kind
    [Namespace] whose API version names no group. *)
Theorem core_Namespace_never_stored :
  (forall g gvk obj, isNamespace gvk = true ->
     (Graph_Node g gvk obj).1.2 = nodeOf gvk (resolveObject g obj)
     /\ nKind (Graph_Node g gvk obj).1.2 = "Namespace"
     /\ nUID (Graph_Node g gvk obj).1.2 = mUID obj
     /\ (forall c ns u, lookupNode (Graph_Node g gvk obj).1.1 c ns u = lookupNode g c ns u)
     /\ Relationships (Graph_Node g gvk obj).1.1 = Relationships g)
  /\ (forall gvk, isNamespace gvk = true <-> Group gvk = "" /\ Kind gvk = "Namespace")
  /\ (forall u, uKind u = "Namespace" -> count_slash (uAPIVersion u) = 0%nat ->
        isNamespace (Unstructured_GroupVersionKind u) = true)
  /\ (forall g, built g ->
        forall c ns u n, lookupNode g c ns u = Some n -> coreNamespaceNode n = false).
Proof.
  split; [|split; [exact isNamespace_iff|split;
    [exact Unstructured_core_Namespace|exact noCoreNamespace_built]]].
  intros g gvk obj Hns. rewrite Graph_Node_steps, Hns. simpl.
  destruct (nodeOf_resolveObject_ids gvk g obj) as (Hu & Hk & _).
  apply isNamespace_iff in Hns as [_ HK].
  repeat split.
  - congruence.
  - destruct (resolveObject_fields g obj) as (_ & _ & _ & -> & _). reflexivity.
  - intros c ns u. apply lookupNode_prepareGraph.
  - apply Relationships_prepareGraph.
Qed.

Lemma core_Namespace_never_stored_witness :
  let r := Graph_Node Sample.withLabels (Sample.gvkOf Sample.coreNamespace)
             (uMeta Sample.coreNamespace) in
  nKind r.1.2 = "Namespace"
  /\ (forall c ns u, lookupNode r.1.1 c ns u = lookupNode Sample.withLabels c ns u).
Proof.
  cbv zeta.
  pose proof (proj1 core_Namespace_never_stored Sample.withLabels
                (Sample.gvkOf Sample.coreNamespace) (uMeta Sample.coreNamespace)
                eq_refl) as (_ & Hk & _ & Hl & _).
  split; [exact Hk|exact Hl].
Defined.

(** C4 as stated fails: an object of kind [Namespace] that belongs to
    another API group is stored like any other object. *)
Lemma Namespace_of_a_group_is_stored :
  uKind Sample.serviceBusNamespace = "Namespace"
  /\ exists n,
       lookupNode (Graph_Node (emptyGraph Sample.host)
                     (Unstructured_GroupVersionKind Sample.serviceBusNamespace)
                     (uMeta Sample.serviceBusNamespace)).1.1
         Sample.host "prod" "33333333-3333-3333-3333-333333333333" = Some n
       /\ nKind n = "Namespace"
       /\ nAPIVersion n = "servicebus.azure.com/v1".
Proof.
  split; [reflexivity|]. eexists. split; [vm_compute; reflexivity|].
  split; reflexivity.
Qed.

(** * Further properties *)

(** ** Relationship.Attribute *)

Lemma Relationship_Attribute_eq g p key value :
  Relationship_Attribute g p key value
  = (set_Relationships g (alter (alter (setAttr key value) p.2) p.1 (Relationships g)), p).
Proof. reflexivity. Qed.

Lemma deref_Attribute g p key value q :
  deref (Relationship_Attribute g p key value).1 q
  = if decide (q = p) then setAttr key value <$> deref g q else deref g q.
Proof.
  rewrite Relationship_Attribute_eq. unfold deref. simpl.
  destruct p as [u i], q as [v j]. simpl.
  destruct (decide (u = v)) as [->|Huv].
  - rewrite lookup_alter_eq.
    destruct (Relationships g !! v) as [rs|]; simpl.
    + destruct (decide (i = j)) as [->|Hij].
      * rewrite list_lookup_alter_eq. now rewrite decide_True.
      * rewrite list_lookup_alter_ne by assumption.
        rewrite decide_False; [reflexivity|congruence].
    + case_decide; reflexivity.
  - rewrite lookup_alter_ne by assumption.
    rewrite decide_False; [reflexivity|congruence].
Qed.

(** [Relationship.Attribute] writes through the pointer: the relationship
    behind it gains the attribute and keeps its ends, label and other
    attributes; every other relationship and the whole node registry stay
    as they were, and the same pointer comes back. *)
Theorem Relationship_Attribute_writes_through g p key value r :
  deref g p = Some r ->
  (Relationship_Attribute g p key value).2 = p
  /\ (exists r', deref (Relationship_Attribute g p key value).1 p = Some r'
        /\ rAttr r' !! key = Some value
        /\ (forall k, k <> key -> rAttr r' !! k = rAttr r !! k)
        /\ rFrom r' = rFrom r /\ rType r' = rType r /\ rTo r' = rTo r)
  /\ (forall q, q <> p -> deref (Relationship_Attribute g p key value).1 q = deref g q)
  /\ Nodes (Relationship_Attribute g p key value).1 = Nodes g
  /\ clientset (Relationship_Attribute g p key value).1 = clientset g.
Proof.
  intros Hr. split; [reflexivity|]. split; [|split; [|split; reflexivity]].
  - exists (setAttr key value r). rewrite deref_Attribute, decide_True, Hr by reflexivity.
    simpl. split; [reflexivity|]. split; [apply lookup_insert_eq|].
    split; [|repeat split]. intros k Hk. now apply lookup_insert_ne.
  - intros q Hq. rewrite deref_Attribute. now rewrite decide_False.
Qed.

Lemma setAttr_setAttr_eq key v1 v2 r :
  setAttr key v2 (setAttr key v1 r) = setAttr key v2 r.
Proof. unfold setAttr. simpl. now rewrite insert_insert_eq. Qed.

Lemma setAttr_comm k1 v1 k2 v2 r :
  k1 <> k2 -> setAttr k2 v2 (setAttr k1 v1 r) = setAttr k1 v1 (setAttr k2 v2 r).
Proof. intros Hne. unfold setAttr. simpl. f_equal. now apply insert_insert_ne. Qed.

Lemma Attribute_twice g p k1 v1 k2 v2 :
  (Relationship_Attribute (Relationship_Attribute g p k1 v1).1 p k2 v2).1
  = set_Relationships g
      (alter (alter (fun r => setAttr k2 v2 (setAttr k1 v1 r)) p.2) p.1 (Relationships g)).
Proof.
  rewrite !Relationship_Attribute_eq. unfold set_Relationships. simpl.
  rewrite alter_alter_eq. f_equal. apply alter_ext. intros rs _. simpl.
  now rewrite list_alter_alter_eq.
Qed.

(** Writes through one pointer compose as writes to a map do: a second
    write to the same key replaces the first, and writes to different keys
    can be made in either order. *)
Theorem Relationship_Attribute_composes g p :
  (forall key v1 v2,
     (Relationship_Attribute (Relationship_Attribute g p key v1).1 p key v2).1
     = (Relationship_Attribute g p key v2).1)
  /\ (forall k1 v1 k2 v2, k1 <> k2 ->
        (Relationship_Attribute (Relationship_Attribute g p k1 v1).1 p k2 v2).1
        = (Relationship_Attribute (Relationship_Attribute g p k2 v2).1 p k1 v1).1).
Proof.
  split.
  - intros key v1 v2. rewrite Attribute_twice, Relationship_Attribute_eq. simpl.
    f_equal. apply alter_ext. intros rs _. apply list_alter_ext; [|reflexivity].
    intros r _. apply setAttr_setAttr_eq.
  - intros k1 v1 k2 v2 Hne. rewrite !Attribute_twice. f_equal.
    apply alter_ext. intros rs _. apply list_alter_ext; [|reflexivity].
    intros r _. now apply setAttr_comm.
Qed.

(** ** Graph.Relationship *)

Lemma edgesFrom_Graph_Relationship g from label to u :
  edgesFrom (Graph_Relationship g from label to).1 u
  = if decide (u = nUID from)
    then addTo (edgesFrom g u) (newRelationship from label to)
    else edgesFrom g u.
Proof. unfold edgesFrom. rewrite Graph_Relationship_rels. apply addEdge_lookup. Qed.

Lemma Graph_Relationship_found g from label to i :
  find_To (nUID to) (edgesFrom g (nUID from)) = Some i ->
  Graph_Relationship g from label to = (g, (nUID from, i)).
Proof. unfold Graph_Relationship, edgesFrom. now intros ->. Qed.

Lemma Graph_Relationship_fresh g from label to :
  find_To (nUID to) (edgesFrom g (nUID from)) = None ->
  Graph_Relationship g from label to
  = (set_Relationships g
       (<[nUID from := (edgesFrom g (nUID from) ++ [newRelationship from label to])%list]>
          (Relationships g)),
     (nUID from, length (edgesFrom g (nUID from)))).
Proof. unfold Graph_Relationship, edgesFrom, newRelationship. now intros ->. Qed.

Lemma deref_edgesFrom g p : deref g p = edgesFrom g p.1 !! p.2.
Proof.
  unfold deref, edgesFrom. destruct (Relationships g !! p.1); simpl; [reflexivity|].
  now rewrite lookup_nil.
Qed.

Lemma Graph_Relationship_deref g from label to :
  let res := Graph_Relationship g from label to in
  res.2.1 = nUID from
  /\ find_To (nUID to) (edgesFrom res.1 (nUID from)) = Some res.2.2
  /\ (exists e, deref res.1 res.2 = Some e /\ oUID (rTo e) = nUID to
        /\ (find_To (nUID to) (edgesFrom g (nUID from)) = None ->
            e = newRelationship from label to)
        /\ (find_To (nUID to) (edgesFrom g (nUID from)) <> None ->
            deref g res.2 = Some e /\ res.1 = g))
  /\ (forall q e, deref g q = Some e -> deref res.1 q = Some e)
  /\ Nodes res.1 = Nodes g.
Proof.
  cbv zeta.
  destruct (find_To (nUID to) (edgesFrom g (nUID from))) as [i|] eqn:Hf.
  - rewrite (Graph_Relationship_found _ _ _ _ _ Hf). simpl.
    destruct (find_To_Some _ _ _ Hf) as (e & He & Hto).
    split; [reflexivity|]. split; [assumption|]. split; [|split; [auto|reflexivity]].
    exists e. rewrite deref_edgesFrom. simpl. repeat split; try assumption.
    discriminate.
  - rewrite (Graph_Relationship_fresh _ _ _ _ Hf). simpl.
    split; [reflexivity|].
    assert (Hl : edgesFrom
                   (set_Relationships g
                      (<[nUID from := (edgesFrom g (nUID from)
                                       ++ [newRelationship from label to])%list]>
                         (Relationships g))) (nUID from)
                 = (edgesFrom g (nUID from) ++ [newRelationship from label to])%list).
    { unfold edgesFrom at 1. simpl. now rewrite lookup_insert_eq. }
    split; [|split; [|split; [|reflexivity]]].
    + rewrite Hl, find_To_app, Hf. simpl. now rewrite String.eqb_refl.
    + exists (newRelationship from label to). rewrite deref_edgesFrom. simpl.
      rewrite Hl. split; [apply list_lookup_middle; reflexivity|].
      split; [reflexivity|]. split; [reflexivity|congruence].
    + intros [u j] e. rewrite !deref_edgesFrom. simpl. intros He.
      destruct (decide (u = nUID from)) as [->|Hne].
      * rewrite Hl. now apply lookup_app_l_Some.
      * unfold edgesFrom in *. simpl. now rewrite lookup_insert_ne.
Qed.

(** The pointer [Graph.Relationship] returns leads to a relationship filed
    under the source identifier that points at the target identifier; it
    is the existing one when the pair is already linked, and otherwise a
    new relationship with the given label, the kinds of the two nodes and
    no attribute.  Pointers obtained before stay valid and lead to the same
    relationships, and the node registry is not touched. *)
Theorem Graph_Relationship_pointer g from label to :
  let res := Graph_Relationship g from label to in
  res.2.1 = nUID from
  /\ find_To (nUID to) (edgesFrom res.1 (nUID from)) = Some res.2.2
  /\ (exists e, deref res.1 res.2 = Some e /\ oUID (rTo e) = nUID to
        /\ (find_To (nUID to) (edgesFrom g (nUID from)) = None ->
            e = newRelationship from label to)
        /\ (find_To (nUID to) (edgesFrom g (nUID from)) <> None ->
            deref g res.2 = Some e /\ res.1 = g))
  /\ (forall q e, deref g q = Some e -> deref res.1 q = Some e)
  /\ Nodes res.1 = Nodes g.
Proof. exact (Graph_Relationship_deref g from label to). Qed.

(** Asking again for a relationship between the same two identifiers,
    with whatever label and kinds, changes nothing and returns the pointer
    of the first call. *)
Theorem Graph_Relationship_idempotent g from label to from' label' to' :
  nUID from' = nUID from -> nUID to' = nUID to ->
  Graph_Relationship (Graph_Relationship g from label to).1 from' label' to'
  = Graph_Relationship g from label to.
Proof.
  intros Hf Ht.
  destruct (Graph_Relationship_deref g from label to) as (Hp & Hfind & _).
  cbv zeta in *.
  rewrite <- Hf, <- Ht in Hfind.
  rewrite (Graph_Relationship_found _ _ _ _ _ Hfind), Hf, <- Hp.
  now destruct (Graph_Relationship g from label to) as [g1 [u i]].
Qed.

Lemma targets_alter_setAttr key value i rs :
  targets (alter (setAttr key value) i rs) = targets rs.
Proof.
  revert i. induction rs as [|r rs IH]; intros [|i]; simpl; try reflexivity.
  f_equal. apply IH.
Qed.

Lemma Forall_from_alter_setAttr key value i u rs :
  Forall (fun r => oUID (rFrom r) = u) rs ->
  Forall (fun r => oUID (rFrom r) = u) (alter (setAttr key value) i rs).
Proof.
  intros H. revert i. induction H as [|r rs Hr H IH]; intros [|i]; simpl.
  - constructor.
  - constructor.
  - constructor; [exact Hr|exact H].
  - constructor; [exact Hr|apply IH].
Qed.

Lemma wfEdgeLists_addEdge rels e : wfEdgeLists rels -> wfEdgeLists (addEdge rels e).
Proof.
  intros Hwf. unfold addEdge.
  destruct (find_To (oUID (rTo e)) (default [] (rels !! oUID (rFrom e)))) eqn:Hf;
    [assumption|].
  intros u rs. destruct (decide (u = oUID (rFrom e))) as [->|Hne].
  - rewrite lookup_insert_eq. intros [= <-].
    split; [now destruct (default [] (rels !! oUID (rFrom e)))|].
    apply find_To_None in Hf.
    destruct (rels !! oUID (rFrom e)) as [rs0|] eqn:Hl; simpl in *.
    + destruct (Hwf _ _ Hl) as (_ & Hfrom & Hnd). split.
      * apply Forall_app. split; [assumption|]. now constructor.
      * unfold targets. rewrite map_app. simpl. apply NoDup_app.
        split; [exact Hnd|]. split; [|apply NoDup_singleton].
        intros x Hx Hx'. apply list_elem_of_singleton in Hx'. subst x.
        apply list_elem_of_In, in_map_iff in Hx as (r & Hr & Hin).
        rewrite Forall_forall in Hf. apply (Hf r); [|assumption].
        now apply list_elem_of_In.
    + split; [now repeat constructor|]. simpl. apply NoDup_singleton.
  - rewrite lookup_insert_ne by congruence. apply Hwf.
Qed.

Lemma wfEdgeLists_fold_addEdge es rels :
  wfEdgeLists rels -> wfEdgeLists (fold_left addEdge es rels).
Proof.
  revert rels. induction es as [|e es IH]; intros rels H; simpl; [assumption|].
  apply IH. now apply wfEdgeLists_addEdge.
Qed.

Lemma wfEdgeLists_built g : built g -> wfEdgeLists (Relationships g).
Proof.
  induction 1 as [host|g gvk obj _ IH|g from label to _ IH|g p key value _ IH].
  - intros u rs. simpl. rewrite lookup_empty. discriminate.
  - rewrite Relationships_Graph_Node. destruct (isNamespace gvk); [assumption|].
    now apply wfEdgeLists_fold_addEdge.
  - rewrite Graph_Relationship_rels. now apply wfEdgeLists_addEdge.
  - rewrite Relationship_Attribute_eq. simpl. intros u rs.
    destruct (decide (p.1 = u)) as [<-|Hne].
    + rewrite lookup_alter_eq.
      destruct (Relationships g !! p.1) as [rs0|] eqn:Hl; simpl; [|discriminate].
      intros [= <-]. destruct (IH _ _ Hl) as (Hne & Hfrom & Hnd).
      split; [|split].
      * intros Hnil. apply Hne. apply (f_equal length) in Hnil.
        rewrite length_alter in Hnil. now destruct rs0.
      * now apply Forall_from_alter_setAttr.
      * now rewrite targets_alter_setAttr.
    + rewrite lookup_alter_ne by assumption. apply IH.
Qed.

(** Graphs built through the primitives keep their edge lists well formed:
    a list that exists is not empty and holds only relationships whose
    source is the key it is filed under. *)
Theorem built_edges_filed_by_source g u rs :
  built g -> Relationships g !! u = Some rs ->
  rs <> [] /\ Forall (fun r => oUID (rFrom r) = u) rs.
Proof.
  intros Hb Hl. destruct (wfEdgeLists_built g Hb u rs Hl) as (H1 & H2 & _).
  now split.
Qed.

(** In a graph built through the primitives no ordered pair of identifiers
    is linked twice: the relationships filed under one source point at
    pairwise different targets, so two pointers to relationships with the
    same ends are the same pointer. *)
Theorem built_no_duplicate_edges g :
  built g ->
  (forall u, NoDup (targets (edgesFrom g u)))
  /\ (forall u i j e e',
        deref g (u, i) = Some e -> deref g (u, j) = Some e' ->
        oUID (rTo e) = oUID (rTo e') -> i = j).
Proof.
  intros Hb.
  assert (Hnd : forall u, NoDup (targets (edgesFrom g u))).
  { intros u. unfold edgesFrom.
    destruct (Relationships g !! u) as [rs|] eqn:Hl; simpl; [|constructor].
    now destruct (wfEdgeLists_built g Hb u rs Hl) as (_ & _ & H). }
  split; [exact Hnd|].
  intros u i j e e'. rewrite !deref_edgesFrom. simpl. intros Hi Hj Heq.
  apply (NoDup_lookup _ i j (oUID (rTo e)) (Hnd u)).
  - unfold targets. change (map ?f ?l) with (f <$> l).
    now rewrite list_lookup_fmap, Hi.
  - unfold targets. change (map ?f ?l) with (f <$> l).
    now rewrite list_lookup_fmap, Hj, Heq.
Qed.

(** ** Graph.Node: what one call changes *)

Lemma clusterOf_ownerMeta g ownerRef namespace :
  clusterOf g (ownerMeta ownerRef namespace) = clientset g.
Proof. reflexivity. Qed.

Lemma clientset_ownerStep gvk obj node g ownerRef :
  clientset (ownerStep gvk obj node g ownerRef) = clientset g.
Proof.
  rewrite ownerStep_steps. cbv zeta. rewrite clientset_Graph_Relationship.
  destruct (isNamespace (ownerGVK ownerRef));
    [apply clientset_prepareGraph|apply clientset_registerNode].
Qed.

Lemma clientset_fold_ownerStep gvk obj node refs g :
  clientset (fold_left (ownerStep gvk obj node) refs g) = clientset g.
Proof.
  revert g. induction refs as [|r refs IH]; intros g; simpl; [reflexivity|].
  now rewrite IH, clientset_ownerStep.
Qed.

Lemma lookupNode_ownerStep gvk obj node g ownerRef c ns u :
  lookupNode (ownerStep gvk obj node g ownerRef) c ns u
  = if decide (storesOwner ownerRef
               /\ clientset g = c /\ mNamespace obj = ns /\ orUID ownerRef = u)
    then Some (nodeOf (ownerGVK ownerRef)
                 (resolveObject g (ownerMeta ownerRef (mNamespace obj))))
    else lookupNode g c ns u.
Proof.
  rewrite ownerStep_steps. cbv zeta. rewrite lookupNode_Graph_Relationship.
  unfold storesOwner.
  destruct (isNamespace (ownerGVK ownerRef)) eqn:Hns.
  - rewrite lookupNode_prepareGraph. case_decide as H; [|reflexivity].
    destruct H as [H _]. discriminate.
  - rewrite lookupNode_registerNode. simpl.
    case_decide as H1; case_decide as H2; try reflexivity; exfalso; tauto.
Qed.

Lemma lookupNode_fold_ownerStep_frame gvk obj node refs g c ns u :
  (forall r, r ∈ refs ->
     ~ (clientset g = c /\ mNamespace obj = ns /\ orUID r = u)) ->
  lookupNode (fold_left (ownerStep gvk obj node) refs g) c ns u = lookupNode g c ns u.
Proof.
  revert g. induction refs as [|r refs IH]; intros g H; simpl; [reflexivity|].
  rewrite IH.
  - rewrite lookupNode_ownerStep. case_decide as Hk; [|reflexivity].
    exfalso. apply (H r); [left|tauto].
  - intros r' Hr'. rewrite clientset_ownerStep. apply H. now right.
Qed.

(** The node the loop leaves under the key of an owner reference is the
    one built from the last reference with that identifier. *)
Lemma lookupNode_fold_ownerStep_owner gvk obj node refs g r :
  r ∈ refs -> storesOwner r ->
  exists r' g', r' ∈ refs /\ orUID r' = orUID r /\ storesOwner r'
    /\ lookupNode (fold_left (ownerStep gvk obj node) refs g)
         (clientset g) (mNamespace obj) (orUID r)
       = Some (nodeOf (ownerGVK r') (resolveObject g' (ownerMeta r' (mNamespace obj)))).
Proof.
  revert r. induction refs as [|x refs IH] using rev_ind; intros r Hr Hs.
  - now apply elem_of_nil in Hr.
  - rewrite fold_left_app. simpl. rewrite lookupNode_ownerStep.
    rewrite clientset_fold_ownerStep.
    case_decide as Hk.
    + exists x, (fold_left (ownerStep gvk obj node) refs g).
      destruct Hk as (Hsx & _ & _ & Hu). repeat split; try assumption.
      apply elem_of_app. right. now left.
    + apply elem_of_app in Hr as [Hr|Hr].
      * destruct (IH r Hr Hs) as (r' & g' & Hin & Hu & Hs' & Hl).
        exists r', g'. repeat split; try assumption. apply elem_of_app. now left.
      * apply list_elem_of_singleton in Hr. subst x. exfalso. apply Hk. tauto.
Qed.

Lemma lookupNode_Graph_Node_Namespace g gvk obj c ns u :
  isNamespace gvk = true ->
  lookupNode (Graph_Node g gvk obj).1.1 c ns u = lookupNode g c ns u.
Proof.
  intros Hns. rewrite Graph_Node_steps, Hns. simpl. apply lookupNode_prepareGraph.
Qed.

(** A call of [Graph.Node] touches the registry only under the key of the
    object and under the keys of its owners, which are filed under the host
    of the client and the namespace of the object; every other lookup
    reads what it read before. *)
Theorem Graph_Node_frame g gvk obj c ns u :
  (c, ns, u) <> (clusterOf g obj, mNamespace obj, mUID obj) ->
  (forall r, r ∈ mOwnerReferences obj ->
     (c, ns, u) <> (clientset g, mNamespace obj, orUID r)) ->
  lookupNode (Graph_Node g gvk obj).1.1 c ns u = lookupNode g c ns u.
Proof.
  intros Hown Howners. rewrite Graph_Node_steps. simpl.
  destruct (isNamespace gvk); [apply lookupNode_prepareGraph|].
  rewrite lookupNode_fold_ownerStep_frame.
  - rewrite lookupNode_registerNode. case_decide as Hk; [|reflexivity].
    exfalso. apply Hown. destruct Hk as (-> & -> & ->). reflexivity.
  - intros r Hr (Hc & Hn & Hu). rewrite clientset_registerNode in Hc.
    apply (Howners r Hr). congruence.
Qed.

Lemma fold_ownerStep_keeps_identity gvk obj node refs g c ns u :
  (exists n, lookupNode g c ns u = Some n /\ nUID n = u /\ nNamespace n = ns) ->
  exists n, lookupNode (fold_left (ownerStep gvk obj node) refs g) c ns u = Some n
            /\ nUID n = u /\ nNamespace n = ns.
Proof.
  revert g. induction refs as [|r refs IH]; intros g H; simpl; [assumption|].
  apply IH. rewrite lookupNode_ownerStep. case_decide as Hk; [|assumption].
  destruct Hk as (_ & _ & <- & <-). eexists. split; [reflexivity|].
  destruct (nodeOf_resolveObject_ids (ownerGVK r) g (ownerMeta r (mNamespace obj)))
    as (-> & _ & _ & ->).
  split; reflexivity.
Qed.

Lemma Graph_Node_lookup_self g gvk obj :
  isNamespace gvk = false ->
  (exists n, lookupNode (Graph_Node g gvk obj).1.1
               (clusterOf g obj) (mNamespace obj) (mUID obj) = Some n
             /\ nUID n = mUID obj /\ nNamespace n = mNamespace obj)
  /\ ((forall r, r ∈ mOwnerReferences obj -> orUID r <> mUID obj) ->
      lookupNode (Graph_Node g gvk obj).1.1 (clusterOf g obj) (mNamespace obj) (mUID obj)
      = Some (Graph_Node g gvk obj).1.2
      /\ nKind (Graph_Node g gvk obj).1.2 = Kind gvk
      /\ nName (Graph_Node g gvk obj).1.2 = mName obj
      /\ nAPIVersion (Graph_Node g gvk obj).1.2 = (ToAPIVersionAndKind gvk).1).
Proof.
  intros Hns.
  destruct (nodeOf_resolveObject_ids gvk g obj) as (Hu & Hk & Hname & Hnsp).
  rewrite Graph_Node_steps, Hns. simpl. split.
  - apply fold_ownerStep_keeps_identity.
    rewrite lookupNode_registerNode, decide_True by tauto.
    eexists. split; [reflexivity|]. now split.
  - intros Hfree. rewrite lookupNode_fold_ownerStep_frame.
    + rewrite lookupNode_registerNode, decide_True by tauto.
      repeat split; assumption.
    + intros r Hr (_ & _ & Hru). now apply (Hfree r Hr).
Qed.

(** After a call for an object whose group and kind do not read
    [Namespace], the registry holds a node under the key of the object; when
    no owner reference carries the identifier of the object itself, it is
    the very node the call returns: kind, API version and name are those of
    this call, whatever was stored before. *)
Theorem Graph_Node_stores g gvk obj :
  isNamespace gvk = false ->
  (exists n, lookupNode (Graph_Node g gvk obj).1.1
               (clusterOf g obj) (mNamespace obj) (mUID obj) = Some n
             /\ nUID n = mUID obj /\ nNamespace n = mNamespace obj)
  /\ ((forall r, r ∈ mOwnerReferences obj -> orUID r <> mUID obj) ->
      lookupNode (Graph_Node g gvk obj).1.1 (clusterOf g obj) (mNamespace obj) (mUID obj)
      = Some (Graph_Node g gvk obj).1.2
      /\ nKind (Graph_Node g gvk obj).1.2 = Kind gvk
      /\ nName (Graph_Node g gvk obj).1.2 = mName obj
      /\ nAPIVersion (Graph_Node g gvk obj).1.2 = (ToAPIVersionAndKind gvk).1).
Proof. exact (Graph_Node_lookup_self g gvk obj). Qed.

(** For every owner reference that stores a node, the registry afterwards
    holds a node under the host of the client, the namespace of the child
    and the identifier of the reference; its kind and name are those of a
    reference with that identifier (the last one), also when the owner
    itself had been stored there before. *)
Theorem Graph_Node_owner_nodes g gvk obj r :
  isNamespace gvk = false ->
  r ∈ mOwnerReferences obj ->
  storesOwner r ->
  exists n r',
    lookupNode (Graph_Node g gvk obj).1.1 (clientset g) (mNamespace obj) (orUID r)
    = Some n
    /\ r' ∈ mOwnerReferences obj /\ orUID r' = orUID r
    /\ nUID n = orUID r /\ nNamespace n = mNamespace obj
    /\ nKind n = orKind r' /\ nName n = orName r'
    /\ nAPIVersion n = (ToAPIVersionAndKind (ownerGVK r')).1.
Proof.
  intros Hns Hr Hs. rewrite Graph_Node_steps, Hns. simpl.
  destruct (lookupNode_fold_ownerStep_owner gvk obj (nodeOf gvk (resolveObject g obj))
              (mOwnerReferences obj) (registerNode g gvk obj) r Hr Hs)
    as (r' & g' & Hin & Hu & _ & Hl).
  rewrite clientset_registerNode in Hl. rewrite Hl.
  eexists. exists r'. split; [reflexivity|].
  destruct (nodeOf_resolveObject_ids (ownerGVK r') g' (ownerMeta r' (mNamespace obj)))
    as (Hu' & Hk' & Hn' & Hns').
  rewrite Hu', Hk', Hn', Hns'. simpl.
  repeat split; try assumption. apply Kind_FromAPIVersionAndKind.
Qed.

Lemma keyedByIdentity_Graph_Node g gvk obj :
  keyedByIdentity g -> keyedByIdentity (Graph_Node g gvk obj).1.1.
Proof.
  apply (Graph_Node_preserves keyedByIdentity).
  - intros g0 o H c ns u n. rewrite lookupNode_prepareGraph. apply H.
  - intros g0 gvk0 o _ H c ns u n. rewrite lookupNode_registerNode.
    case_decide as Hk; [|apply H]. intros [= <-]. destruct Hk as (_ & <- & <-).
    destruct (nodeOf_resolveObject_ids gvk0 g0 o) as (-> & _ & _ & ->). now split.
  - intros g0 from label to H c ns u n. rewrite lookupNode_Graph_Relationship. apply H.
Qed.

(** In a graph built through the primitives every node is filed under its
    own namespace and identifier. *)
Theorem built_nodes_keyed_by_identity g c ns u n :
  built g -> lookupNode g c ns u = Some n -> nUID n = u /\ nNamespace n = ns.
Proof.
  intros Hb. revert c ns u n.
  induction Hb as [host|g gvk obj _ IH|g from label to _ IH|g p key value _ IH].
  - intros c ns u n. unfold lookupNode. simpl. rewrite lookup_empty. discriminate.
  - now apply keyedByIdentity_Graph_Node.
  - intros c ns u n. rewrite lookupNode_Graph_Relationship. apply IH.
  - exact IH.
Qed.

Lemma prefix_addTo rs e : rs `prefix_of` addTo rs e.
Proof.
  unfold addTo. destruct (find_To _ _); [reflexivity|]. now apply prefix_app_r.
Qed.

Lemma prefix_fold_addTo es rs : rs `prefix_of` fold_left addTo es rs.
Proof.
  revert rs. induction es as [|e es IH]; intros rs; simpl; [reflexivity|].
  etransitivity; [apply prefix_addTo|apply IH].
Qed.

Lemma edgesFrom_Graph_Node g gvk obj u :
  edgesFrom (Graph_Node g gvk obj).1.1 u
  = if isNamespace gvk then edgesFrom g u
    else fold_left addTo
           (filter (fun e => u = oUID (rFrom e))
              (map (ownerEdge gvk obj) (mOwnerReferences obj)))
           (edgesFrom g u).
Proof.
  unfold edgesFrom. rewrite Relationships_Graph_Node.
  destruct (isNamespace gvk); [reflexivity|apply fold_addEdge_lookup].
Qed.

Lemma Graph_Node_monotone g gvk obj :
  clientset (Graph_Node g gvk obj).1.1 = clientset g
  /\ (forall c ns u, is_Some (lookupNode g c ns u) ->
        is_Some (lookupNode (Graph_Node g gvk obj).1.1 c ns u))
  /\ (forall u, edgesFrom g u `prefix_of` edgesFrom (Graph_Node g gvk obj).1.1 u)
  /\ (forall p e, deref g p = Some e -> deref (Graph_Node g gvk obj).1.1 p = Some e).
Proof.
  assert (Hpre : forall u, edgesFrom g u `prefix_of` edgesFrom (Graph_Node g gvk obj).1.1 u).
  { intros u. rewrite edgesFrom_Graph_Node.
    destruct (isNamespace gvk); [reflexivity|apply prefix_fold_addTo]. }
  split; [|split; [|split; [exact Hpre|]]].
  - apply (Graph_Node_preserves (fun g' => clientset g' = clientset g)).
    + intros g0 o H. now rewrite clientset_prepareGraph.
    + intros g0 gvk0 o _ H. now rewrite clientset_registerNode.
    + intros g0 from label to H. now rewrite clientset_Graph_Relationship.
    + reflexivity.
  - intros c ns u Hs.
    apply (Graph_Node_preserves (fun g' => is_Some (lookupNode g' c ns u))).
    + intros g0 o H. now rewrite lookupNode_prepareGraph.
    + intros g0 gvk0 o _ H. rewrite lookupNode_registerNode. case_decide; [eauto|exact H].
    + intros g0 from label to H. now rewrite lookupNode_Graph_Relationship.
    + exact Hs.
  - intros p e. rewrite !deref_edgesFrom. intros He.
    destruct (Hpre p.1) as [k ->]. now apply lookup_app_l_Some.
Qed.

(** A call of [Graph.Node] only adds: the host of the client stays, a key
    that held a node still holds one, and every edge list is extended at
    its end, so that no relationship is removed, changed or moved. *)
Theorem Graph_Node_only_grows g gvk obj :
  clientset (Graph_Node g gvk obj).1.1 = clientset g
  /\ (forall c ns u, is_Some (lookupNode g c ns u) ->
        is_Some (lookupNode (Graph_Node g gvk obj).1.1 c ns u))
  /\ (forall u, edgesFrom g u `prefix_of` edgesFrom (Graph_Node g gvk obj).1.1 u)
  /\ (forall p e, deref g p = Some e -> deref (Graph_Node g gvk obj).1.1 p = Some e).
Proof. exact (Graph_Node_monotone g gvk obj). Qed.

(** Relationships are added only under the identifiers of the owner
    references: the edge list of any other identifier is left as it is,
    and an object without owner references leaves all of them. *)
Theorem Graph_Node_edges_frame g gvk obj u :
  (forall r, r ∈ mOwnerReferences obj -> orUID r <> u) ->
  edgesFrom (Graph_Node g gvk obj).1.1 u = edgesFrom g u.
Proof.
  intros H. rewrite edgesFrom_Graph_Node. destruct (isNamespace gvk); [reflexivity|].
  replace (filter _ _) with (@nil Relationship); [reflexivity|].
  symmetry. induction (mOwnerReferences obj) as [|r refs IH]; [reflexivity|].
  simpl. rewrite filter_cons, decide_False.
  - apply IH. intros r' Hr'. apply H. now right.
  - simpl. intros ->. apply (H r); [left|reflexivity].
Qed.

(** ** Graph.Unstructured and NewGraph *)

Lemma omap_id_nil_iff (os : list (option error)) :
  omap id os = [] <-> Forall (fun o => o = None) os.
Proof.
  induction os as [|[e|] os IH]; simpl.
  - split; [constructor|reflexivity].
  - split; [discriminate|]. intros H. inversion H; subst. discriminate.
  - rewrite IH. split; [now constructor|]. intros H. now inversion H.
Qed.

Lemma omap_id_length (os : list (option error)) :
  length (omap id os) = length (filter (fun o => is_Some o) os).
Proof.
  induction os as [|[e|] os IH]; [reflexivity| |]; rewrite filter_cons.
  - rewrite decide_True by eauto. simpl. f_equal. exact IH.
  - rewrite decide_False; [exact IH|]. intros [x Hx]. discriminate.
Qed.

Section ExtractorCalls.

Variables CoreV1_Unstructured NetworkingV1_Unstructured RouteV1_Unstructured :
  Graph -> Unstructured -> Graph * option error.

Let Unstructured_ := Graph_Unstructured CoreV1_Unstructured NetworkingV1_Unstructured
                       RouteV1_Unstructured.
Let loop_ := NewGraph_loop CoreV1_Unstructured NetworkingV1_Unstructured
               RouteV1_Unstructured.
Let outcomes_ := NewGraph_outcomes CoreV1_Unstructured NetworkingV1_Unstructured
                   RouteV1_Unstructured.

Lemma Graph_Unstructured_no_extractor g unstr :
  uAPIVersion unstr <> "v1" ->
  uAPIVersion unstr <> "networking.k8s.io/v1" ->
  uAPIVersion unstr <> "route.openshift.io/v1" ->
  Unstructured_ g unstr
  = ((Graph_Node g (Unstructured_GroupVersionKind unstr) (uMeta unstr)).1.1, None).
Proof.
  intros H1 H2 H3. unfold Unstructured_, Graph_Unstructured.
  destruct (Graph_Node g (Unstructured_GroupVersionKind unstr) (uMeta unstr))
    as [[g' node] meta]. simpl.
  apply String.eqb_neq in H1, H2, H3. now rewrite H1, H2, H3.
Qed.

(** An object whose API version is none of the three the switch knows is
    not an error: it gets its node and ownership edges, no extractor runs
    and the result is [nil]. *)
Theorem Graph_Unstructured_other_version g unstr :
  uAPIVersion unstr <> "v1" ->
  uAPIVersion unstr <> "networking.k8s.io/v1" ->
  uAPIVersion unstr <> "route.openshift.io/v1" ->
  Unstructured_ g unstr
  = ((Graph_Node g (Unstructured_GroupVersionKind unstr) (uMeta unstr)).1.1, None).
Proof. exact (Graph_Unstructured_no_extractor g unstr). Qed.

Lemma NewGraph_loop_eq objs g errs calls :
  loop_ objs (g, errs, calls)
  = (fold_left (fun g obj => (Unstructured_ g obj).1) objs g,
     (errs ++ omap id (outcomes_ objs g))%list,
     (calls + length objs)%nat).
Proof.
  unfold loop_, NewGraph_loop, outcomes_, Unstructured_.
  revert g errs calls. induction objs as [|obj objs IH]; intros g errs calls; simpl.
  - now rewrite app_nil_r, Nat.add_0_r.
  - destruct (Graph_Unstructured _ _ _ g obj) as [g' [e|]]; simpl; rewrite IH.
    + now rewrite <- app_assoc, <- Nat.add_succ_comm.
    + now rewrite <- Nat.add_succ_comm.
Qed.

Lemma NewGraph_outcomes_length objs g : length (outcomes_ objs g) = length objs.
Proof.
  unfold outcomes_. revert g. induction objs as [|obj objs IH]; intros g; simpl;
    [reflexivity|].
  destruct (Graph_Unstructured _ _ _ g obj) as [g' err]. simpl. now rewrite IH.
Qed.

Lemma NewGraph_run host objs :
  let res := NewGraph CoreV1_Unstructured NetworkingV1_Unstructured
               RouteV1_Unstructured host objs in
  let outcomes := outcomes_ objs (emptyGraph host) in
  res.2 = length objs
  /\ length outcomes = length objs
  /\ res.1.2 = NewAggregate (omap id outcomes)
  /\ (res.1.2 = None <-> Forall (fun o => o = None) outcomes)
  /\ (forall errs, res.1.2 = Some errs ->
        errs = omap id outcomes /\ errs <> []
        /\ length errs = length (filter (fun o => is_Some o) outcomes))
  /\ res.1.1 = fold_left (fun g obj => (Unstructured_ g obj).1) objs (emptyGraph host).
Proof.
  cbv zeta. unfold NewGraph.
  pose proof (NewGraph_loop_eq objs (emptyGraph host) [] 0%nat) as Hl.
  unfold loop_ in Hl. rewrite Hl. simpl.
  set (os := outcomes_ objs (emptyGraph host)).
  pose proof (omap_id_nil_iff os) as Hnone.
  pose proof (omap_id_length os) as Hlen.
  split; [reflexivity|]. split; [apply NewGraph_outcomes_length|].
  split; [reflexivity|]. split; [|split; [|reflexivity]].
  - rewrite <- Hnone. unfold NewAggregate. destruct (omap id os); split; congruence.
  - intros errs. unfold NewAggregate.
    destruct (omap id os) as [|e l] eqn:Ho; [discriminate|].
    intros [= <-]. repeat split; [discriminate|]. rewrite <- Hlen. reflexivity.
Qed.

(** [NewGraph] goes through the whole batch: it calls [processed] once per
    object, failed or not, and its error lists the errors of the failed
    calls in the order of the batch; it is [nil] exactly when no call
    failed. *)
Theorem NewGraph_accounts_for_every_object host objs :
  let res := NewGraph CoreV1_Unstructured NetworkingV1_Unstructured
               RouteV1_Unstructured host objs in
  let outcomes := outcomes_ objs (emptyGraph host) in
  res.2 = length objs
  /\ length outcomes = length objs
  /\ res.1.2 = NewAggregate (omap id outcomes)
  /\ (res.1.2 = None <-> Forall (fun o => o = None) outcomes)
  /\ (forall errs, res.1.2 = Some errs ->
        errs = omap id outcomes /\ errs <> []
        /\ length errs = length (filter (fun o => is_Some o) outcomes))
  /\ res.1.1 = fold_left (fun g obj => (Unstructured_ g obj).1) objs (emptyGraph host).
Proof. exact (NewGraph_run host objs). Qed.

End ExtractorCalls.

(** ** ToUID: what is hashed and how the result looks *)

Lemma Join_cons (x : string) (xs : list string) (sep : string) :
  xs <> [] -> Join (x :: xs) sep = x ++ sep ++ Join xs sep.
Proof. unfold Join. destruct xs; [congruence|reflexivity]. Qed.

Lemma Join_repeat_empty n (l : list string) :
  l <> [] -> Join (repeat "" n ++ l)%list "-" = dashes n ++ Join l "-".
Proof.
  intros Hl. induction n as [|n IH]; [reflexivity|].
  change (repeat "" (S n) ++ l)%list with ("" :: (repeat "" n ++ l))%list.
  rewrite Join_cons.
  - rewrite IH. reflexivity.
  - destruct n; simpl; [assumption|discriminate].
Qed.

(** The bytes [ToUID] hashes are the stringified parameters joined by the
    separator, behind one more separator per parameter. *)
Theorem ToUID_hashed_text params :
  Join (ToUID_input params) "-"
  = dashes (length params) ++ Join (map Sprint params) "-"
  /\ ToUID params
     = uid_layout (hex_of_bytes (MD5.Sum (bytes_of_string
         (dashes (length params) ++ Join (map Sprint params) "-")))).
Proof.
  assert (H : Join (ToUID_input params) "-"
              = dashes (length params) ++ Join (map Sprint params) "-").
  { rewrite ToUID_input_eq. destruct params as [|p params]; [reflexivity|].
    apply Join_repeat_empty. discriminate. }
  split; [exact H|]. unfold ToUID. now rewrite H.
Qed.

Lemma bytes_of_word_length n x : length (MD5.bytes_of_word n x) = n.
Proof. unfold MD5.bytes_of_word. now rewrite length_map, length_seq. Qed.

Lemma bytes_of_word_range n x :
  Forall (fun b => 0 <= b < 256) (MD5.bytes_of_word n x).
Proof.
  unfold MD5.bytes_of_word. apply Forall_forall. intros b Hb.
  apply list_elem_of_In, in_map_iff in Hb as (i & <- & _).
  change 0xff with (Z.ones 8). rewrite Z.land_ones by lia.
  apply Z.mod_pos_bound. lia.
Qed.

Lemma MD5_Sum_bytes msg :
  length (MD5.Sum msg) = 16%nat /\ Forall (fun b => 0 <= b < 256) (MD5.Sum msg).
Proof.
  unfold MD5.Sum.
  destruct (fold_left MD5.compress (MD5.blocks (MD5.pad msg)) MD5.init) as [a b c d].
  split.
  - now rewrite !length_app, !bytes_of_word_length.
  - repeat (apply Forall_app; split); apply bytes_of_word_range.
Qed.

Lemma hex_digit_hex d : 0 <= d < 16 -> hex_char (hex_digit d) = true.
Proof.
  intros Hd. unfold hex_digit.
  assert (Hn : (Z.to_nat d < 16)%nat) by lia.
  revert Hn. generalize (Z.to_nat d) as n. intros n Hn.
  do 16 (destruct n as [|n]; [reflexivity|]). lia.
Qed.

Lemma all_chars_app p s t : all_chars p (s ++ t) = all_chars p s && all_chars p t.
Proof. induction s as [|c s IH]; simpl; [reflexivity|]. now rewrite IH, andb_assoc. Qed.

Lemma hex_of_bytes_hex bs :
  Forall (fun b => 0 <= b < 256) bs ->
  all_chars hex_char (hex_of_bytes bs) = true
  /\ String.length (hex_of_bytes bs) = (2 * length bs)%nat.
Proof.
  unfold hex_of_bytes. induction 1 as [|b bs Hb _ [IH1 IH2]]; simpl; [now split|].
  rewrite IH1, IH2, !hex_digit_hex.
  - split; [reflexivity|lia].
  - split; [apply Z.mod_pos_bound; lia|apply Z.mod_pos_bound; lia].
  - split; [apply Z.div_pos; lia|apply Z.div_lt_upper_bound; lia].
Qed.

Lemma substring_length n m s :
  (n + m <= String.length s)%nat -> String.length (substring n m s) = m.
Proof.
  revert n m. induction s as [|c s IH]; intros [|n] [|m]; simpl; intros H;
    try reflexivity; try lia.
  - f_equal. apply (IH 0%nat). simpl. lia.
  - apply IH. lia.
  - apply IH. lia.
Qed.

Lemma substring_all_chars p n m s :
  all_chars p s = true -> all_chars p (substring n m s) = true.
Proof.
  revert n m. induction s as [|c s IH]; intros [|n] [|m]; simpl; intros H;
    try reflexivity; apply andb_prop in H as [Hc Hs]; try (now apply IH).
  rewrite Hc. now apply IH.
Qed.

Lemma substring_split n a b s :
  substring n (a + b) s = substring n a s ++ substring (n + a) b s.
Proof.
  revert n a b. induction s as [|c s IH]; intros n a b.
  - destruct n, a, b; reflexivity.
  - destruct n as [|n]; simpl.
    + destruct a as [|a]; simpl.
      * reflexivity.
      * change (String c (substring 0 (a + b) s)
                = String c (String.append (substring 0 a s) (substring (0 + a) b s))).
        f_equal. apply (IH 0%nat).
    + apply IH.
Qed.

Lemma substring_all s : substring 0 (String.length s) s = s.
Proof. induction s as [|c s IH]; simpl; [reflexivity|]. now rewrite IH. Qed.

(** Whatever the parameters, [ToUID] returns the 32 lower-case hexadecimal
    digits of the digest, in order, cut into groups of 8, 4, 4, 4 and 12
    digits with a hyphen between two groups: 36 characters in all. *)
Theorem ToUID_layout params :
  exists a b c d e,
    ToUID params = a ++ "-" ++ b ++ "-" ++ c ++ "-" ++ d ++ "-" ++ e
    /\ String.length a = 8%nat /\ String.length b = 4%nat /\ String.length c = 4%nat
    /\ String.length d = 4%nat /\ String.length e = 12%nat
    /\ all_chars hex_char (a ++ b ++ c ++ d ++ e) = true
    /\ a ++ b ++ c ++ d ++ e
       = hex_of_bytes (MD5.Sum (bytes_of_string (Join (ToUID_input params) "-"))).
Proof.
  unfold ToUID. cbv zeta.
  set (hex := hex_of_bytes (MD5.Sum (bytes_of_string (Join (ToUID_input params) "-")))).
  destruct (MD5_Sum_bytes (bytes_of_string (Join (ToUID_input params) "-")))
    as [Hlen Hrange].
  destruct (hex_of_bytes_hex _ Hrange) as [Hhex Hl]. fold hex in Hhex, Hl.
  rewrite Hlen in Hl. change (2 * 16)%nat with 32%nat in Hl.
  exists (substring 0 8 hex), (substring 8 4 hex), (substring 12 4 hex),
         (substring 16 4 hex), (substring 20 12 hex).
  assert (Hcat : substring 0 8 hex ++ substring 8 4 hex ++ substring 12 4 hex
                 ++ substring 16 4 hex ++ substring 20 12 hex = hex).
  { rewrite <- (substring_split 16 4 12), <- (substring_split 12 4 16),
      <- (substring_split 8 4 20), <- (substring_split 0 8 24).
    change (8 + 24)%nat with 32%nat. rewrite <- Hl. apply substring_all. }
  split.
  - unfold uid_layout, slice, slice_from. rewrite Hl. reflexivity.
  - rewrite !substring_length by (rewrite Hl; lia).
    repeat split; try reflexivity; rewrite Hcat; [exact Hhex|reflexivity].
Qed.

(** ** The property name of a label key *)

Lemma lower_alnum_not_underscore c : lower_alnum c = true -> Ascii.eqb c "_" = false.
Proof.
  intros H. destruct (Ascii.eqb_spec c "_") as [->|]; [|reflexivity].
  discriminate H.
Qed.

Lemma property_char_not_upper c : property_char c = true -> ToLower_byte c = c.
Proof.
  unfold property_char, lower_alnum, ToLower_byte, byte_in. intros H.
  destruct (Ascii.eqb c "_") eqn:E.
  { apply Ascii.eqb_eq in E. subst c. reflexivity. }
  rewrite orb_false_r in H.
  replace ((N_of_ascii "A" <=? N_of_ascii c)%N && (N_of_ascii c <=? N_of_ascii "Z")%N)
    with false; [reflexivity|].
  symmetry. apply andb_false_iff.
  change (N_of_ascii "A") with 65%N. change (N_of_ascii "Z") with 90%N.
  change (N_of_ascii "a") with 97%N in H. change (N_of_ascii "z") with 122%N in H.
  change (N_of_ascii "0") with 48%N in H. change (N_of_ascii "9") with 57%N in H.
  rewrite !N.leb_gt.
  apply orb_true_iff in H as [H|H]; apply andb_true_iff in H as [H1 H2];
    apply N.leb_le in H1, H2; lia.
Qed.

Lemma ReplaceAllString_from_shape (inside : bool) (s : string) :
  let out := ReplaceAllString_from inside s "_" in
  all_chars property_char out = true
  /\ single_underscores out = true
  /\ (inside = true -> starts_underscore out = false).
Proof.
  cbv zeta. revert inside. induction s as [|c s IH]; intros inside; simpl.
  - repeat split.
  - destruct (lower_alnum c) eqn:Hc.
    + destruct (IH false) as (H1 & H2 & _). simpl.
      unfold property_char at 1. rewrite Hc, H1, H2.
      rewrite (lower_alnum_not_underscore c Hc). repeat split.
    + destruct inside.
      * apply IH.
      * destruct (IH true) as (H1 & H2 & H3).
        change ("_" ++ ReplaceAllString_from true s "_")
          with (String "_" (ReplaceAllString_from true s "_")).
        simpl. rewrite H1, H2, (H3 eq_refl). repeat split. discriminate.
Qed.

Lemma property_char_ASCII c : property_char c = true -> (N_of_ascii c <? 128)%N = true.
Proof.
  unfold property_char, lower_alnum, byte_in. intros H. apply N.ltb_lt.
  destruct (Ascii.eqb c "_") eqn:E.
  { apply Ascii.eqb_eq in E. subst c. reflexivity. }
  rewrite orb_false_r in H.
  change (N_of_ascii "a") with 97%N in H. change (N_of_ascii "z") with 122%N in H.
  change (N_of_ascii "0") with 48%N in H. change (N_of_ascii "9") with 57%N in H.
  apply orb_true_iff in H as [H|H]; apply andb_true_iff in H as [H1 H2];
    apply N.leb_le in H1, H2; lia.
Qed.

Lemma ReplaceAllString_from_stable (t : string) :
  all_chars property_char t = true -> single_underscores t = true ->
  (isASCII t = true /\ ToLower_ASCII t = t)
  /\ ReplaceAllString_from false t "_" = t
  /\ (starts_underscore t = false -> ReplaceAllString_from true t "_" = t).
Proof.
  induction t as [|c t IH]; simpl; [repeat split|].
  intros Hall Hsingle.
  apply andb_prop in Hall as [Hc Hall]. apply andb_prop in Hsingle as [Hcc Hsingle].
  destruct (IH Hall Hsingle) as ((IH0 & IH1) & IH2 & IH3).
  rewrite IH0, IH1, (property_char_not_upper c Hc), (property_char_ASCII c Hc).
  split; [split; reflexivity|].
  destruct (lower_alnum c) eqn:Hl.
  - rewrite IH2. repeat split.
  - unfold property_char in Hc. rewrite Hl in Hc. simpl in Hc.
    rewrite Hc in Hcc. simpl in Hcc. apply negb_true_iff in Hcc.
    apply Ascii.eqb_eq in Hc. subst c. split.
    + simpl. now rewrite IH3.
    + discriminate.
Qed.

(** The property name made from a label key consists of lower-case
    letters, digits and underscores only and never has two underscores in
    a row; making a property name of a property name changes nothing. *)
Theorem property_of_key_shape (Map_unicode_ToLower : string -> string) key :
  all_chars property_char (property_of_key Map_unicode_ToLower key) = true
  /\ single_underscores (property_of_key Map_unicode_ToLower key) = true
  /\ property_of_key Map_unicode_ToLower (property_of_key Map_unicode_ToLower key)
     = property_of_key Map_unicode_ToLower key.
Proof.
  destruct (ReplaceAllString_from_shape false (ToLower Map_unicode_ToLower key))
    as (H1 & H2 & _).
  cbv zeta in *. fold (ReplaceAllString (ToLower Map_unicode_ToLower key) "_") in H1, H2.
  fold (property_of_key Map_unicode_ToLower key) in H1, H2.
  split; [exact H1|]. split; [exact H2|].
  destruct (ReplaceAllString_from_stable _ H1 H2) as ((Ha & Hl) & Hr & _).
  unfold property_of_key at 1. unfold ReplaceAllString.
  now rewrite (ToLower_isASCII _ _ Ha), Hl, Hr.
Qed.

(** ** Graph.Node twice *)

Lemma inheritLabels_labelsOf st s :
  inheritLabels st s = if (size (labelsOf st) =? 0)%nat then s else labelsOf st.
Proof. destruct st as [n|]; reflexivity. Qed.

Lemma labelsOf_rewriteNode st w :
  labelsOf (rewriteNode st w) = inheritLabels st (mLabels w.2).
Proof. reflexivity. Qed.

Lemma labelsOf_fold_nonempty ws st :
  size (labelsOf st) <> 0%nat -> labelsOf (fold_left rewriteNode ws st) = labelsOf st.
Proof.
  revert st. induction ws as [|w ws IH]; intros st H; simpl; [reflexivity|].
  assert (Hw : labelsOf (rewriteNode st w) = labelsOf st).
  { rewrite labelsOf_rewriteNode, inheritLabels_labelsOf.
    now destruct (Nat.eqb_spec (size (labelsOf st)) 0). }
  rewrite IH; [exact Hw|]. now rewrite Hw.
Qed.

Lemma labelsOf_fold_empty_inv ws st :
  size (labelsOf (fold_left rewriteNode ws st)) = 0%nat ->
  Forall (fun w => mLabels w.2 = ∅) ws /\ labelsOf st = ∅.
Proof.
  revert st. induction ws as [|w ws IH]; intros st H; simpl in *.
  - split; [constructor|]. now apply map_size_empty_iff.
  - destruct (IH _ H) as [Hall Hw].
    rewrite labelsOf_rewriteNode, inheritLabels_labelsOf in Hw.
    destruct (Nat.eqb_spec (size (labelsOf st)) 0) as [Hz|Hnz].
    + split; [now constructor|]. now apply map_size_empty_iff.
    + exfalso. apply Hnz. rewrite Hw. apply map_size_empty.
Qed.

Lemma labelsOf_fold_empty ws st :
  Forall (fun w => mLabels w.2 = ∅) ws -> labelsOf st = ∅ ->
  labelsOf (fold_left rewriteNode ws st) = ∅.
Proof.
  intros Hall. revert st. induction Hall as [|w ws Hw _ IH]; intros st Hst; simpl;
    [assumption|].
  apply IH. rewrite labelsOf_rewriteNode, inheritLabels_labelsOf, Hst, Hw.
  now destruct (size (∅ : Labels) =? 0)%nat.
Qed.

Lemma fold_rewriteNode_last ws w st :
  fold_left rewriteNode (ws ++ [w]) st
  = Some (nodeOf w.1 (SetLabels w.2 (labelsOf (fold_left rewriteNode (ws ++ [w]) st)))).
Proof. rewrite fold_left_app. reflexivity. Qed.

(** Making the same writes again leaves the same node. *)
Lemma fold_rewriteNode_twice ws st :
  fold_left rewriteNode ws (fold_left rewriteNode ws st) = fold_left rewriteNode ws st.
Proof.
  destruct ws as [|w ws _] using rev_ind; [reflexivity|].
  set (st1 := fold_left rewriteNode (ws ++ [w]) st).
  rewrite (fold_rewriteNode_last ws w st1).
  unfold st1 at 2. rewrite (fold_rewriteNode_last ws w st). fold st1.
  do 3 f_equal.
  destruct (Nat.eq_dec (size (labelsOf st1)) 0%nat) as [Hz|Hnz].
  - destruct (labelsOf_fold_empty_inv _ _ Hz) as [Hall _].
    apply map_size_empty_iff in Hz. rewrite Hz.
    now apply labelsOf_fold_empty.
  - now apply labelsOf_fold_nonempty.
Qed.

Lemma nodeOf_resolveObject gvk g obj :
  nodeOf gvk (resolveObject g obj)
  = nodeOf gvk (SetLabels obj
      (inheritLabels (lookupNode g (clusterOf g obj) (mNamespace obj) (mUID obj))
         (mLabels obj))).
Proof.
  unfold resolveObject, inheritLabels. simpl.
  destruct (lookupNode g (clusterOf g obj) (mNamespace obj) (mUID obj)) as [n|];
    [destruct (size (nLabels n) =? 0)%nat|]; reflexivity.
Qed.

Lemma ownerWrite_cond h obj r c ns u :
  negb (isNamespace (ownerGVK r)) && String.eqb h c
  && String.eqb (mNamespace obj) ns && String.eqb (orUID r) u = true
  <-> storesOwner r /\ h = c /\ mNamespace obj = ns /\ orUID r = u.
Proof.
  unfold storesOwner. rewrite !andb_true_iff, !String.eqb_eq, negb_true_iff. tauto.
Qed.

Lemma lookupNode_fold_ownerStep_writes gvk obj node refs g c ns u :
  lookupNode (fold_left (ownerStep gvk obj node) refs g) c ns u
  = fold_left rewriteNode (ownerWrites (clientset g) obj refs c ns u)
      (lookupNode g c ns u).
Proof.
  revert g. induction refs as [|r refs IH]; intros g; [reflexivity|].
  cbn [fold_left]. rewrite IH, clientset_ownerStep, lookupNode_ownerStep.
  unfold ownerWrites. cbn [omap list_omap].
  pose proof (ownerWrite_cond (clientset g) obj r c ns u) as Hcond.
  destruct (negb (isNamespace (ownerGVK r)) && String.eqb (clientset g) c
            && String.eqb (mNamespace obj) ns && String.eqb (orUID r) u).
  - rewrite decide_True by now apply Hcond.
    destruct (proj1 Hcond eq_refl) as (_ & Hc & Hn & Hu).
    cbn [fold_left]. f_equal.
    unfold rewriteNode. cbn [fst snd]. rewrite nodeOf_resolveObject.
    rewrite clusterOf_ownerMeta. cbn [mNamespace mUID ownerMeta].
    now rewrite Hc, Hn, Hu.
  - rewrite decide_False; [reflexivity|]. intros H. apply Hcond in H. discriminate.
Qed.

Lemma lookupNode_Graph_Node_writes g gvk obj c ns u :
  isNamespace gvk = false ->
  lookupNode (Graph_Node g gvk obj).1.1 c ns u
  = fold_left rewriteNode (nodeWrites g gvk obj c ns u) (lookupNode g c ns u).
Proof.
  intros Hns. rewrite Graph_Node_steps, Hns. cbn [fst].
  rewrite lookupNode_fold_ownerStep_writes, clientset_registerNode.
  unfold nodeWrites. rewrite fold_left_app. f_equal.
  rewrite lookupNode_registerNode.
  assert (Hcond : String.eqb (clusterOf g obj) c && String.eqb (mNamespace obj) ns
                  && String.eqb (mUID obj) u = true
                  <-> clusterOf g obj = c /\ mNamespace obj = ns /\ mUID obj = u).
  { rewrite !andb_true_iff, !String.eqb_eq. tauto. }
  destruct (String.eqb (clusterOf g obj) c && String.eqb (mNamespace obj) ns
            && String.eqb (mUID obj) u).
  - rewrite decide_True by now apply Hcond.
    destruct (proj1 Hcond eq_refl) as (Hc & Hn & Hu).
    cbn [fold_left]. unfold rewriteNode. cbn [fst snd].
    rewrite nodeOf_resolveObject. now rewrite Hc, Hn, Hu.
  - rewrite decide_False; [reflexivity|]. intros H. apply Hcond in H. discriminate.
Qed.

Lemma addEdge_linked rels e : linked rels e -> addEdge rels e = rels.
Proof.
  unfold linked, addEdge. intros H.
  now destruct (find_To (oUID (rTo e)) (default [] (rels !! oUID (rFrom e)))).
Qed.

Lemma linked_addEdge rels e e' : linked rels e -> linked (addEdge rels e') e.
Proof.
  unfold linked. rewrite addEdge_lookup. case_decide as Hk; [|trivial].
  unfold addTo. destruct (find_To (oUID (rTo e')) _); [trivial|].
  rewrite find_To_app. intros H.
  now destruct (find_To (oUID (rTo e)) (default [] (rels !! oUID (rFrom e)))).
Qed.

Lemma linked_addEdge_same rels e : linked (addEdge rels e) e.
Proof.
  unfold linked. rewrite addEdge_lookup, decide_True by reflexivity.
  unfold addTo.
  destruct (find_To (oUID (rTo e)) (default [] (rels !! oUID (rFrom e)))) eqn:Hf.
  - now rewrite Hf.
  - rewrite find_To_app, Hf, String.eqb_refl. discriminate.
Qed.

Lemma linked_fold_addEdge es rels e : linked rels e -> linked (fold_left addEdge es rels) e.
Proof.
  revert rels. induction es as [|e' es IH]; intros rels H; simpl; [assumption|].
  apply IH. now apply linked_addEdge.
Qed.

Lemma fold_addEdge_all_linked es rels : Forall (linked (fold_left addEdge es rels)) es.
Proof.
  revert rels. induction es as [|e es IH]; intros rels; simpl; constructor.
  - apply linked_fold_addEdge, linked_addEdge_same.
  - apply IH.
Qed.

Lemma fold_addEdge_linked es rels : Forall (linked rels) es -> fold_left addEdge es rels = rels.
Proof.
  induction 1 as [|e es He _ IH]; simpl; [reflexivity|].
  now rewrite (addEdge_linked _ _ He).
Qed.

Lemma ownerWrites_no_labels h obj refs c ns u :
  Forall (fun w => mLabels w.2 = ∅) (ownerWrites h obj refs c ns u).
Proof.
  unfold ownerWrites. induction refs as [|r refs IH]; cbn [omap list_omap];
    [constructor|].
  destruct (negb (isNamespace (ownerGVK r)) && String.eqb h c
            && String.eqb (mNamespace obj) ns && String.eqb (orUID r) u);
    [constructor; [reflexivity|exact IH]|exact IH].
Qed.

Lemma inheritLabels_after_writes st w ws :
  Forall (fun w' => mLabels w'.2 = ∅) ws ->
  inheritLabels (fold_left rewriteNode ws (rewriteNode st w)) (mLabels w.2)
  = inheritLabels st (mLabels w.2).
Proof.
  intros Hall.
  set (X := inheritLabels st (mLabels w.2)).
  assert (HX : labelsOf (rewriteNode st w) = X) by reflexivity.
  rewrite (inheritLabels_labelsOf (fold_left _ _ _)).
  destruct (Nat.eq_dec (size X) 0%nat) as [Hz|Hnz].
  - apply map_size_empty_iff in Hz.
    rewrite (labelsOf_fold_empty ws _ Hall) by congruence.
    rewrite map_size_empty. cbn [Nat.eqb].
    unfold X in Hz |- *. rewrite inheritLabels_labelsOf in Hz |- *.
    destruct (Nat.eqb_spec (size (labelsOf st)) 0) as [_|Hne]; [reflexivity|].
    exfalso. apply Hne. rewrite Hz. apply map_size_empty.
  - rewrite (labelsOf_fold_nonempty ws) by now rewrite HX.
    rewrite HX. now destruct (Nat.eqb_spec (size X) 0).
Qed.

Lemma Graph_Node_same_object g gvk obj :
  let first := Graph_Node g gvk obj in
  let second := Graph_Node first.1.1 gvk obj in
  (forall c ns u, lookupNode second.1.1 c ns u = lookupNode first.1.1 c ns u)
  /\ Relationships second.1.1 = Relationships first.1.1
  /\ clientset second.1.1 = clientset first.1.1
  /\ second.1.2 = first.1.2.
Proof.
  cbv zeta.
  destruct (Graph_Node_monotone g gvk obj) as (Hcs & _).
  set (g1 := (Graph_Node g gvk obj).1.1) in *.
  assert (Hcl : clusterOf g1 obj = clusterOf g obj).
  { unfold clusterOf. now rewrite Hcs. }
  destruct (Graph_Node_monotone g1 gvk obj) as (Hcs2 & _).
  destruct (isNamespace gvk) eqn:Hns.
  - assert (Hl : forall c ns u, lookupNode g1 c ns u = lookupNode g c ns u).
    { intros c ns u. unfold g1. now apply lookupNode_Graph_Node_Namespace. }
    split; [|split; [|split; [exact Hcs2|]]].
    + intros c ns u. now apply lookupNode_Graph_Node_Namespace.
    + now rewrite Relationships_Graph_Node, Hns.
    + rewrite !Graph_Node_node, !nodeOf_resolveObject. now rewrite Hcl, Hl.
  - assert (Hw : forall c ns u, nodeWrites g1 gvk obj c ns u = nodeWrites g gvk obj c ns u).
    { intros c ns u. unfold nodeWrites. now rewrite Hcl, Hcs. }
    split; [|split; [|split; [exact Hcs2|]]].
    + intros c ns u. rewrite lookupNode_Graph_Node_writes by assumption.
      unfold g1 at 2 3. rewrite lookupNode_Graph_Node_writes by assumption.
      rewrite Hw. apply fold_rewriteNode_twice.
    + rewrite Relationships_Graph_Node, Hns. unfold g1.
      rewrite Relationships_Graph_Node, Hns.
      apply fold_addEdge_linked, fold_addEdge_all_linked.
    + rewrite !Graph_Node_node, !nodeOf_resolveObject. rewrite Hcl. do 2 f_equal.
      unfold g1. rewrite lookupNode_Graph_Node_writes by assumption.
      unfold nodeWrites. rewrite !String.eqb_refl. cbn [andb app fold_left].
      apply (inheritLabels_after_writes _ (gvk, obj)).
      apply ownerWrites_no_labels.
Qed.

Lemma labelsOf_after_writes st w ws :
  Forall (fun w' => mLabels w'.2 = ∅) ws ->
  labelsOf (fold_left rewriteNode ws (rewriteNode st w)) = inheritLabels st (mLabels w.2).
Proof.
  intros Hall.
  destruct (Nat.eq_dec (size (inheritLabels st (mLabels w.2))) 0%nat) as [Hz|Hnz].
  - apply map_size_empty_iff in Hz. rewrite Hz.
    apply labelsOf_fold_empty; [assumption|]. now rewrite labelsOf_rewriteNode.
  - now apply labelsOf_fold_nonempty.
Qed.

Lemma inheritLabels_empty st s : inheritLabels st s = ∅ -> s = ∅.
Proof.
  rewrite inheritLabels_labelsOf.
  destruct (Nat.eqb_spec (size (labelsOf st)) 0) as [_|Hne]; [trivial|].
  intros H. exfalso. apply Hne. rewrite H. apply map_size_empty.
Qed.

(** Whether the object is handed over as it was or as the first call left
    it, the writes under its key resolve to the same labels. *)
Lemma inheritLabels_resolved st1 X s :
  labelsOf st1 = X -> (X = ∅ -> s = ∅) ->
  inheritLabels st1 X = inheritLabels st1 s.
Proof.
  intros Hl Hs. rewrite !inheritLabels_labelsOf, Hl.
  destruct (Nat.eqb_spec (size X) 0) as [Hz|_]; [|reflexivity].
  apply map_size_empty_iff in Hz. now rewrite (Hs Hz).
Qed.

Lemma resolveObject_ownerWrites h g obj c ns u :
  ownerWrites h (resolveObject g obj) (mOwnerReferences (resolveObject g obj)) c ns u
  = ownerWrites h obj (mOwnerReferences obj) c ns u.
Proof.
  destruct (resolveObject_fields g obj) as (_ & Hn & _ & _ & Hr).
  unfold ownerWrites. now rewrite Hr, Hn.
Qed.

Lemma clusterOf_resolveObject g g1 obj :
  clientset g1 = clientset g -> clusterOf g1 (resolveObject g obj) = clusterOf g obj.
Proof.
  intros Hcs. destruct (resolveObject_fields g obj) as (Hc & _).
  unfold clusterOf at 1. rewrite Hc.
  destruct (String.eqb_spec (clusterOf g obj) "") as [He|]; [|reflexivity].
  rewrite He, Hcs. unfold clusterOf in He.
  destruct (String.eqb_spec (mClusterName obj) ""); congruence.
Qed.

Lemma nodeOf_SetLabels_resolveObject gvk g obj l :
  nodeOf gvk (SetLabels (resolveObject g obj) l) = nodeOf gvk (SetLabels obj l).
Proof.
  destruct (resolveObject_fields g obj) as (_ & Hn & Hm & Hu & _).
  unfold nodeOf. simpl. now rewrite Hn, Hm, Hu.
Qed.

Lemma mLabels_resolveObject g obj :
  mLabels (resolveObject g obj)
  = inheritLabels (lookupNode g (clusterOf g obj) (mNamespace obj) (mUID obj))
      (mLabels obj).
Proof. rewrite resolveObject_labels. reflexivity. Qed.

(** The labels stored under the key of the object after the first call
    are the labels the call resolved. *)
Lemma labelsOf_own_key g gvk obj :
  let st0 := lookupNode g (clusterOf g obj) (mNamespace obj) (mUID obj) in
  let st1 := lookupNode (Graph_Node g gvk obj).1.1
               (clusterOf g obj) (mNamespace obj) (mUID obj) in
  inheritLabels st1 (inheritLabels st0 (mLabels obj)) = inheritLabels st1 (mLabels obj).
Proof.
  cbv zeta. destruct (isNamespace gvk) eqn:Hns.
  - rewrite lookupNode_Graph_Node_Namespace by assumption.
    set (st0 := lookupNode g _ _ _). rewrite !inheritLabels_labelsOf.
    now destruct (Nat.eqb_spec (size (labelsOf st0)) 0).
  - rewrite lookupNode_Graph_Node_writes by assumption.
    unfold nodeWrites. rewrite !String.eqb_refl. cbn [andb app fold_left].
    apply inheritLabels_resolved.
    + apply (labelsOf_after_writes _ (gvk, obj)), ownerWrites_no_labels.
    + apply inheritLabels_empty.
Qed.

Lemma Graph_Node_returned_object g gvk obj :
  let first := Graph_Node g gvk obj in
  (forall c ns u,
     lookupNode (Graph_Node first.1.1 gvk first.2).1.1 c ns u
     = lookupNode (Graph_Node first.1.1 gvk obj).1.1 c ns u)
  /\ Relationships (Graph_Node first.1.1 gvk first.2).1.1
     = Relationships (Graph_Node first.1.1 gvk obj).1.1
  /\ clientset (Graph_Node first.1.1 gvk first.2).1.1
     = clientset (Graph_Node first.1.1 gvk obj).1.1
  /\ (Graph_Node first.1.1 gvk first.2).1.2 = (Graph_Node first.1.1 gvk obj).1.2.
Proof.
  cbv zeta. rewrite Graph_Node_object.
  destruct (Graph_Node_monotone g gvk obj) as (Hcs & _).
  set (g1 := (Graph_Node g gvk obj).1.1) in *.
  pose proof (clusterOf_resolveObject g g1 obj Hcs) as Hcl'.
  assert (Hcl : clusterOf g1 obj = clusterOf g obj).
  { unfold clusterOf. now rewrite Hcs. }
  destruct (resolveObject_fields g obj) as (_ & Hn & Hm & Hu & Hr).
  pose proof (labelsOf_own_key g gvk obj) as Hlab. cbv zeta in Hlab. fold g1 in Hlab.
  assert (Hnode : nodeOf gvk (resolveObject g1 (resolveObject g obj))
                  = nodeOf gvk (resolveObject g1 obj)).
  { rewrite !nodeOf_resolveObject, Hcl', Hcl, Hn, Hu, nodeOf_SetLabels_resolveObject.
    rewrite mLabels_resolveObject. now rewrite Hlab. }
  split; [|split; [|split]].
  - intros c ns u. destruct (isNamespace gvk) eqn:Hns.
    + now rewrite !lookupNode_Graph_Node_Namespace.
    + rewrite !lookupNode_Graph_Node_writes by assumption.
      unfold nodeWrites. rewrite Hcl', Hcl, Hn, Hu, resolveObject_ownerWrites.
      destruct (String.eqb (clusterOf g obj) c && String.eqb (mNamespace obj) ns
                && String.eqb (mUID obj) u) eqn:Hk; [|reflexivity].
      cbn [app fold_left]. f_equal.
      apply andb_true_iff in Hk as [Hk Hk3]. apply andb_true_iff in Hk as [Hk1 Hk2].
      apply String.eqb_eq in Hk1, Hk2, Hk3. subst c ns u.
      unfold rewriteNode. cbn [fst snd]. f_equal.
      rewrite nodeOf_SetLabels_resolveObject, mLabels_resolveObject.
      now rewrite Hlab.
  - rewrite !Relationships_Graph_Node, Hr.
    destruct (isNamespace gvk); [reflexivity|]. f_equal.
    apply map_ext. intros r. unfold ownerEdge. now rewrite Hu.
  - destruct (Graph_Node_monotone g1 gvk (resolveObject g obj)) as (-> & _).
    now destruct (Graph_Node_monotone g1 gvk obj) as (-> & _).
  - now rewrite !Graph_Node_node.
Qed.

(** Calling [Graph.Node] a second time for the same object, handed over
    as it was or as the first call left it (cluster name and labels set),
    leaves the graph as the first call left it: every lookup in the
    registry reads the same node, the relationships are the same, and the
    same node is returned. *)
Theorem Graph_Node_idempotent g gvk obj obj2 :
  obj2 = obj \/ obj2 = (Graph_Node g gvk obj).2 ->
  let first := Graph_Node g gvk obj in
  let second := Graph_Node first.1.1 gvk obj2 in
  (forall c ns u, lookupNode second.1.1 c ns u = lookupNode first.1.1 c ns u)
  /\ Relationships second.1.1 = Relationships first.1.1
  /\ clientset second.1.1 = clientset first.1.1
  /\ second.1.2 = first.1.2.
Proof.
  intros [->| ->]; [apply Graph_Node_same_object|].
  cbv zeta.
  destruct (Graph_Node_returned_object g gvk obj) as (H1 & H2 & H3 & H4).
  destruct (Graph_Node_same_object g gvk obj) as (K1 & K2 & K3 & K4).
  cbv zeta in *.
  split; [|split; [|split]].
  - intros c ns u. now rewrite H1, K1.
  - now rewrite H2, K2.
  - now rewrite H3, K3.
  - now rewrite H4, K4.
Qed.

(** ** The relationship between two identifiers *)

Lemma firstEdge_None rels u v :
  firstEdge rels u v = None <-> find_To v (default [] (rels !! u)) = None.
Proof.
  unfold firstEdge. cbv zeta.
  destruct (find_To v (default [] (rels !! u))) as [i|] eqn:Hf; simpl; [|tauto].
  destruct (find_To_Some _ _ _ Hf) as (r & Hr & _). rewrite Hr.
  split; discriminate.
Qed.

Lemma firstEdge_Some_to rels u v e : firstEdge rels u v = Some e -> oUID (rTo e) = v.
Proof.
  unfold firstEdge. cbv zeta.
  destruct (find_To v (default [] (rels !! u))) as [i|] eqn:Hf; simpl; [|discriminate].
  destruct (find_To_Some _ _ _ Hf) as (r & Hr & Hto). rewrite Hr. now intros [= <-].
Qed.

Lemma firstEdge_addEdge rels e u v :
  firstEdge (addEdge rels e) u v
  = match firstEdge rels u v with
    | Some x => Some x
    | None => if decide (u = oUID (rFrom e) /\ v = oUID (rTo e)) then Some e else None
    end.
Proof.
  destruct (firstEdge rels u v) as [x|] eqn:Hfe.
  - unfold firstEdge in *. cbv zeta in *. rewrite addEdge_lookup.
    case_decide as Hu; [|exact Hfe]. unfold addTo.
    destruct (find_To (oUID (rTo e)) (default [] (rels !! u))); [exact Hfe|].
    destruct (find_To v (default [] (rels !! u))) as [i|] eqn:Hf; simpl in Hfe;
      [|discriminate].
    rewrite find_To_app, Hf. simpl. now apply lookup_app_l_Some.
  - apply firstEdge_None in Hfe.
    unfold firstEdge. cbv zeta. rewrite addEdge_lookup.
    case_decide as Hu.
    + subst u. unfold addTo.
      destruct (find_To (oUID (rTo e)) (default [] (rels !! oUID (rFrom e)))) eqn:Hfe'.
      * rewrite Hfe. simpl. rewrite decide_False; [reflexivity|].
        intros [_ ->]. congruence.
      * rewrite find_To_app, Hfe.
        destruct (String.eqb_spec (oUID (rTo e)) v) as [Hv|Hv]; simpl.
        -- rewrite list_lookup_middle by reflexivity.
           rewrite decide_True; [reflexivity|]. now split.
        -- rewrite decide_False; [reflexivity|]. intros [_ ->]. congruence.
    + rewrite Hfe. simpl. rewrite decide_False; [reflexivity|tauto].
Qed.

Lemma firstEdge_fold_addEdge_old es rels u v x :
  firstEdge rels u v = Some x -> firstEdge (fold_left addEdge es rels) u v = Some x.
Proof.
  revert rels. induction es as [|e es IH]; intros rels H; simpl; [assumption|].
  apply IH. now rewrite firstEdge_addEdge, H.
Qed.

Lemma firstEdge_fold_addEdge_new es rels u v :
  firstEdge rels u v = None ->
  (exists e, e ∈ es /\ oUID (rFrom e) = u /\ oUID (rTo e) = v) ->
  exists e, e ∈ es /\ oUID (rFrom e) = u /\ oUID (rTo e) = v
            /\ firstEdge (fold_left addEdge es rels) u v = Some e.
Proof.
  revert rels. induction es as [|e es IH]; intros rels Hn (e0 & Hin & Hu & Hv).
  - now apply elem_of_nil in Hin.
  - simpl. destruct (decide (u = oUID (rFrom e) /\ v = oUID (rTo e))) as [[Hu' Hv']|Hne].
    + exists e. split; [left|]. split; [congruence|]. split; [congruence|].
      apply firstEdge_fold_addEdge_old. rewrite firstEdge_addEdge, Hn.
      now rewrite decide_True.
    + destruct (IH (addEdge rels e)) as (e1 & Hin1 & Hu1 & Hv1 & Hf1).
      * rewrite firstEdge_addEdge, Hn. now rewrite decide_False.
      * apply elem_of_cons in Hin as [->|Hin]; [exfalso; apply Hne; now split|].
        now exists e0.
      * exists e1. split; [now right|]. now repeat split.
Qed.

Lemma Graph_Node_links_owners g gvk obj r :
  isNamespace gvk = false ->
  r ∈ mOwnerReferences obj ->
  exists e,
    firstEdge (Relationships (Graph_Node g gvk obj).1.1) (orUID r) (mUID obj) = Some e
    /\ (forall e0, firstEdge (Relationships g) (orUID r) (mUID obj) = Some e0 -> e = e0)
    /\ (firstEdge (Relationships g) (orUID r) (mUID obj) = None ->
        rType e = Kind gvk
        /\ rTo e = {| oUID := mUID obj; oKind := Kind gvk |}
        /\ oUID (rFrom e) = orUID r
        /\ (exists r', r' ∈ mOwnerReferences obj /\ orUID r' = orUID r
                       /\ oKind (rFrom e) = orKind r')
        /\ rAttr e = ∅).
Proof.
  intros Hns Hr. rewrite Relationships_Graph_Node, Hns.
  set (es := map (ownerEdge gvk obj) (mOwnerReferences obj)).
  destruct (firstEdge (Relationships g) (orUID r) (mUID obj)) as [e0|] eqn:Hf.
  - exists e0. split; [now apply firstEdge_fold_addEdge_old|].
    split; [now intros ? [= <-]|discriminate].
  - destruct (firstEdge_fold_addEdge_new es (Relationships g) (orUID r) (mUID obj) Hf)
      as (e & Hin & Hu & Hv & Hfe).
    { exists (ownerEdge gvk obj r). split; [|split; reflexivity].
      apply list_elem_of_In, in_map, list_elem_of_In, Hr. }
    exists e. split; [exact Hfe|]. split; [discriminate|]. intros _.
    apply list_elem_of_In, in_map_iff in Hin as (r' & <- & Hr').
    repeat split; try reflexivity; try assumption.
    exists r'. split; [now apply list_elem_of_In|]. now split.
Qed.

(** For every owner reference of an object whose group and kind do not
    read [Namespace], the registry afterwards links the identifier of the
    reference to the identifier of the object.  A pair that was linked
    before keeps its relationship; a pair linked by this call gets a
    relationship labelled with the kind of the object, whose target carries
    the identifier and kind of the object and whose source carries the
    identifier of the reference and the kind of a reference with that
    identifier, without attributes. *)
Theorem Graph_Node_owner_edges g gvk obj r :
  isNamespace gvk = false ->
  r ∈ mOwnerReferences obj ->
  exists e,
    firstEdge (Relationships (Graph_Node g gvk obj).1.1) (orUID r) (mUID obj) = Some e
    /\ (forall e0, firstEdge (Relationships g) (orUID r) (mUID obj) = Some e0 -> e = e0)
    /\ (firstEdge (Relationships g) (orUID r) (mUID obj) = None ->
        rType e = Kind gvk
        /\ rTo e = {| oUID := mUID obj; oKind := Kind gvk |}
        /\ oUID (rFrom e) = orUID r
        /\ (exists r', r' ∈ mOwnerReferences obj /\ orUID r' = orUID r
                       /\ oKind (rFrom e) = orKind r')
        /\ rAttr e = ∅).
Proof. exact (Graph_Node_links_owners g gvk obj r). Qed.

(** ** Two objects in either order *)

Lemma ownerEdges_target gvk obj refs :
  Forall (fun e => oUID (rTo e) = mUID obj) (map (ownerEdge gvk obj) refs).
Proof. induction refs as [|r refs IH]; simpl; constructor; [reflexivity|exact IH]. Qed.

Lemma Relationships_Graph_Node_asked g gvk obj :
  Relationships (Graph_Node g gvk obj).1.1
  = fold_left addEdge (askedEdges gvk obj) (Relationships g).
Proof.
  rewrite Relationships_Graph_Node. unfold askedEdges. now destruct (isNamespace gvk).
Qed.

Lemma askedEdges_target gvk obj :
  Forall (fun e => oUID (rTo e) = mUID obj) (askedEdges gvk obj).
Proof.
  unfold askedEdges. destruct (isNamespace gvk); [constructor|apply ownerEdges_target].
Qed.

Lemma Graph_Node_swap g gvk1 obj1 gvk2 obj2 :
  mUID obj1 <> mUID obj2 ->
  let g12 := (Graph_Node (Graph_Node g gvk1 obj1).1.1 gvk2 obj2).1.1 in
  let g21 := (Graph_Node (Graph_Node g gvk2 obj2).1.1 gvk1 obj1).1.1 in
  dom (Relationships g12) = dom (Relationships g21)
  /\ (forall u, edgesFrom g12 u ≡ₚ edgesFrom g21 u)
  /\ (forall u e, e ∈ edgesFrom g12 u <-> e ∈ edgesFrom g21 u).
Proof.
  intros Hne. cbv zeta.
  assert (Hperm : forall u,
             edgesFrom (Graph_Node (Graph_Node g gvk1 obj1).1.1 gvk2 obj2).1.1 u
             ≡ₚ edgesFrom (Graph_Node (Graph_Node g gvk2 obj2).1.1 gvk1 obj1).1.1 u).
  { intros u. unfold edgesFrom. rewrite !Relationships_Graph_Node_asked.
    rewrite !fold_addEdge_lookup. apply fold_addTo_comm.
    apply Forall_forall. intros e1 He1. apply Forall_forall. intros e2 He2.
    apply list_elem_of_filter in He1 as [_ He1]. apply list_elem_of_filter in He2 as [_ He2].
    pose proof (askedEdges_target gvk1 obj1) as H1.
    pose proof (askedEdges_target gvk2 obj2) as H2.
    rewrite Forall_forall in H1, H2. rewrite (H1 _ He1), (H2 _ He2). congruence. }
  split; [|split; [exact Hperm|]].
  - rewrite !Relationships_Graph_Node_asked, !fold_addEdge_dom. set_solver.
  - intros u e. now rewrite (Hperm u).
Qed.

(** Two objects with different identifiers can be handed to [Graph.Node]
    in either order: the same source identifiers have edge lists, and
    under each of them the two orders leave the same relationships, up to
    their order in the list. *)
Theorem Graph_Node_two_objects_commute g gvk1 obj1 gvk2 obj2 :
  mUID obj1 <> mUID obj2 ->
  let g12 := (Graph_Node (Graph_Node g gvk1 obj1).1.1 gvk2 obj2).1.1 in
  let g21 := (Graph_Node (Graph_Node g gvk2 obj2).1.1 gvk1 obj1).1.1 in
  dom (Relationships g12) = dom (Relationships g21)
  /\ (forall u, edgesFrom g12 u ≡ₚ edgesFrom g21 u)
  /\ (forall u e, e ∈ edgesFrom g12 u <-> e ∈ edgesFrom g21 u).
Proof. exact (Graph_Node_swap g gvk1 obj1 gvk2 obj2). Qed.

(** ** Extractors that only add *)

Lemma grows_refl g : grows g g.
Proof. repeat split; auto. Qed.

Lemma grows_trans g1 g2 g3 : grows g1 g2 -> grows g2 g3 -> grows g1 g3.
Proof.
  intros (H1 & H2 & H3) (K1 & K2 & K3). repeat split.
  - congruence.
  - intros c ns u H. apply K2, H2, H.
  - intros u v H. apply K3, H3, H.
Qed.

Lemma Graph_Node_grows g gvk obj : grows g (Graph_Node g gvk obj).1.1.
Proof.
  destruct (Graph_Node_monotone g gvk obj) as (H1 & H2 & _).
  repeat split; [exact H1|exact H2|].
  intros u v [x Hx]. exists x. rewrite Relationships_Graph_Node_asked.
  now apply firstEdge_fold_addEdge_old.
Qed.

Section GrowingExtractors.

Variables CoreV1_Unstructured NetworkingV1_Unstructured RouteV1_Unstructured :
  Graph -> Unstructured -> Graph * option error.

Hypothesis CoreV1_grows : forall g unstr, grows g (CoreV1_Unstructured g unstr).1.
Hypothesis NetworkingV1_grows :
  forall g unstr, grows g (NetworkingV1_Unstructured g unstr).1.
Hypothesis RouteV1_grows : forall g unstr, grows g (RouteV1_Unstructured g unstr).1.

Let Unstructured_ := Graph_Unstructured CoreV1_Unstructured NetworkingV1_Unstructured
                       RouteV1_Unstructured.

Lemma Graph_Unstructured_grows_after_Node g unstr :
  grows (Graph_Node g (Unstructured_GroupVersionKind unstr) (uMeta unstr)).1.1
    (Unstructured_ g unstr).1.
Proof.
  unfold Unstructured_, Graph_Unstructured.
  destruct (Graph_Node g (Unstructured_GroupVersionKind unstr) (uMeta unstr))
    as [[g' node] meta]. cbn [fst snd uAPIVersion].
  destruct (String.eqb (uAPIVersion unstr) "v1"); [apply CoreV1_grows|].
  destruct (String.eqb (uAPIVersion unstr) "networking.k8s.io/v1");
    [apply NetworkingV1_grows|].
  destruct (String.eqb (uAPIVersion unstr) "route.openshift.io/v1");
    [apply RouteV1_grows|apply grows_refl].
Qed.

Lemma Graph_Unstructured_grows g unstr : grows g (Unstructured_ g unstr).1.
Proof.
  eapply grows_trans; [apply Graph_Node_grows|apply Graph_Unstructured_grows_after_Node].
Qed.

Lemma fold_Unstructured_grows objs g :
  grows g (fold_left (fun g obj => (Unstructured_ g obj).1) objs g).
Proof.
  revert g. induction objs as [|obj objs IH]; intros g; simpl; [apply grows_refl|].
  eapply grows_trans; [apply Graph_Unstructured_grows|apply IH].
Qed.

Lemma NewGraph_registration_survives host objs unstr :
  unstr ∈ objs ->
  isNamespace (Unstructured_GroupVersionKind unstr) = false ->
  let g := (NewGraph CoreV1_Unstructured NetworkingV1_Unstructured
              RouteV1_Unstructured host objs).1.1 in
  clientset g = host
  /\ is_Some (lookupNode g
               (if String.eqb (mClusterName (uMeta unstr)) "" then host
                else mClusterName (uMeta unstr))
               (mNamespace (uMeta unstr)) (mUID (uMeta unstr)))
  /\ (forall r, r ∈ mOwnerReferences (uMeta unstr) ->
        is_Some (firstEdge (Relationships g) (orUID r) (mUID (uMeta unstr)))).
Proof.
  intros Hin Hns. cbv zeta.
  destruct (NewGraph_run CoreV1_Unstructured
              NetworkingV1_Unstructured RouteV1_Unstructured host objs)
    as (_ & _ & _ & _ & _ & ->).
  apply list_elem_of_split in Hin as (l1 & l2 & ->).
  rewrite fold_left_app. cbn [fold_left].
  fold Unstructured_.
  set (ga := fold_left (fun g obj => (Unstructured_ g obj).1) l1 (emptyGraph host)).
  pose proof (fold_Unstructured_grows l1 (emptyGraph host)) as (Hca & _). fold ga in Hca.
  simpl in Hca.
  set (gn := (Graph_Node ga (Unstructured_GroupVersionKind unstr) (uMeta unstr)).1.1).
  assert (Hg : grows gn (fold_left (fun g obj => (Unstructured_ g obj).1) l2
                           (Unstructured_ ga unstr).1)).
  { eapply grows_trans; [apply Graph_Unstructured_grows_after_Node|].
    apply fold_Unstructured_grows. }
  destruct Hg as (Hc & Hnodes & Hedges).
  split; [|split].
  - etransitivity; [exact Hc|]. unfold gn.
    destruct (Graph_Node_monotone ga (Unstructured_GroupVersionKind unstr)
                (uMeta unstr)) as (-> & _). exact Hca.
  - apply Hnodes. unfold gn.
    destruct (proj1 (Graph_Node_lookup_self ga (Unstructured_GroupVersionKind unstr)
                       (uMeta unstr) Hns)) as (n & Hn & _).
    unfold clusterOf in Hn. rewrite Hca in Hn. rewrite Hn. eauto.
  - intros r Hr. apply Hedges. unfold gn.
    destruct (Graph_Node_links_owners ga (Unstructured_GroupVersionKind unstr)
                (uMeta unstr) r Hns Hr) as (e & He & _).
    rewrite He. eauto.
Qed.

(** When the extractors only add to the graph, failures cost nothing of
    the generic registration: after [NewGraph] every object of the batch
    whose group and kind do not read [Namespace] has a node under its key
    and, for each of its owner references, a relationship from the owner
    to it, whether its extractor failed or not. *)
Theorem NewGraph_keeps_generic_registration host objs unstr :
  unstr ∈ objs ->
  isNamespace (Unstructured_GroupVersionKind unstr) = false ->
  let g := (NewGraph CoreV1_Unstructured NetworkingV1_Unstructured
              RouteV1_Unstructured host objs).1.1 in
  clientset g = host
  /\ is_Some (lookupNode g
               (if String.eqb (mClusterName (uMeta unstr)) "" then host
                else mClusterName (uMeta unstr))
               (mNamespace (uMeta unstr)) (mUID (uMeta unstr)))
  /\ (forall r, r ∈ mOwnerReferences (uMeta unstr) ->
        is_Some (firstEdge (Relationships g) (orUID r) (mUID (uMeta unstr)))).
Proof. exact (NewGraph_registration_survives host objs unstr). Qed.

End GrowingExtractors.

(** ** The statements on a concrete graph *)

Module Demo.

(** The deployment and its replica set, ingested in that order. *)
Definition ownership : Graph :=
  (Graph_Node
     (Graph_Node (emptyGraph Sample.host) (Sample.gvkOf Sample.deploymentD)
        (uMeta Sample.deploymentD)).1.1
     (Sample.gvkOf Sample.replicaSetR) (uMeta Sample.replicaSetR)).1.1.

Definition edge : Relationship :=
  {| rFrom := {| oUID := Sample.uidD; oKind := "Deployment" |};
     rType := "ReplicaSet";
     rTo := {| oUID := Sample.uidR; oKind := "ReplicaSet" |};
     rAttr := ∅ |}.

Definition ownerRef : OwnerReference :=
  {| orAPIVersion := "apps/v1"; orKind := "Deployment"; orName := "web";
     orUID := Sample.uidD |}.

Definition node (kind uid : string) : Node :=
  {| nAPIVersion := "apps/v1"; nKind := kind; nLabels := ∅; nName := "";
     nNamespace := "default"; nUID := uid |}.

Definition noExtractor (g : Graph) (unstr : Unstructured) : Graph * option error :=
  (g, None).

End Demo.

Lemma Demo_ownership_built : built Demo.ownership.
Proof. unfold Demo.ownership. do 2 apply built_Node. apply built_empty. Qed.

Lemma Demo_ownership_edges :
  Relationships Demo.ownership !! Sample.uidD = Some [Demo.edge].
Proof. vm_compute. reflexivity. Qed.

Lemma Relationship_Attribute_writes_through_witness :
  exists r',
    deref (Relationship_Attribute Demo.ownership (Sample.uidD, 0%nat) "color" "red").1
      (Sample.uidD, 0%nat) = Some r'
    /\ rAttr r' !! "color" = Some "red"
    /\ (forall k, k <> "color" -> rAttr r' !! k = rAttr Demo.edge !! k)
    /\ rFrom r' = rFrom Demo.edge /\ rType r' = rType Demo.edge
    /\ rTo r' = rTo Demo.edge.
Proof.
  refine (proj1 (proj2 (Relationship_Attribute_writes_through Demo.ownership
                          (Sample.uidD, 0%nat) "color" "red" Demo.edge _))).
  vm_compute. reflexivity.
Defined.

Lemma Graph_Relationship_idempotent_witness :
  Graph_Relationship
    (Graph_Relationship (emptyGraph Sample.host)
       (Demo.node "Deployment" Sample.uidD) "ReplicaSet"
       (Demo.node "ReplicaSet" Sample.uidR)).1
    (Demo.node "Service" Sample.uidD) "Pod" (Demo.node "Pod" Sample.uidR)
  = Graph_Relationship (emptyGraph Sample.host)
      (Demo.node "Deployment" Sample.uidD) "ReplicaSet"
      (Demo.node "ReplicaSet" Sample.uidR).
Proof.
  apply (Graph_Relationship_idempotent (emptyGraph Sample.host)
           (Demo.node "Deployment" Sample.uidD) "ReplicaSet"
           (Demo.node "ReplicaSet" Sample.uidR)
           (Demo.node "Service" Sample.uidD) "Pod" (Demo.node "Pod" Sample.uidR));
    reflexivity.
Defined.

Lemma built_edges_filed_by_source_witness :
  [Demo.edge] <> [] /\ Forall (fun r => oUID (rFrom r) = Sample.uidD) [Demo.edge].
Proof.
  exact (built_edges_filed_by_source Demo.ownership Sample.uidD [Demo.edge]
           Demo_ownership_built Demo_ownership_edges).
Defined.

Lemma built_no_duplicate_edges_witness :
  NoDup (targets (edgesFrom Demo.ownership Sample.uidD)).
Proof.
  exact (proj1 (built_no_duplicate_edges Demo.ownership Demo_ownership_built) Sample.uidD).
Defined.

Lemma Graph_Node_frame_witness :
  lookupNode (Graph_Node Sample.withLabels (Sample.gvkOf Sample.replicaSetR)
                (uMeta Sample.replicaSetR)).1.1 "elsewhere" "default" Sample.uidD
  = lookupNode Sample.withLabels "elsewhere" "default" Sample.uidD.
Proof.
  apply (Graph_Node_frame Sample.withLabels (Sample.gvkOf Sample.replicaSetR)
           (uMeta Sample.replicaSetR) "elsewhere" "default" Sample.uidD).
  - intros H. apply (f_equal (fun t => t.1.1)) in H. vm_compute in H. discriminate H.
  - intros r _ H. apply (f_equal (fun t => t.1.1)) in H. vm_compute in H.
    discriminate H.
Defined.

Lemma Graph_Node_stores_witness :
  exists n,
    lookupNode (Graph_Node Sample.withLabels (Sample.gvkOf Sample.replicaSetR)
                  (uMeta Sample.replicaSetR)).1.1
      (clusterOf Sample.withLabels (uMeta Sample.replicaSetR))
      (mNamespace (uMeta Sample.replicaSetR)) (mUID (uMeta Sample.replicaSetR))
    = Some n
    /\ nUID n = mUID (uMeta Sample.replicaSetR)
    /\ nNamespace n = mNamespace (uMeta Sample.replicaSetR).
Proof.
  exact (proj1 (Graph_Node_stores Sample.withLabels (Sample.gvkOf Sample.replicaSetR)
                  (uMeta Sample.replicaSetR) eq_refl)).
Defined.

Lemma Graph_Node_owner_nodes_witness :
  exists n r',
    lookupNode (Graph_Node (emptyGraph Sample.host) (Sample.gvkOf Sample.replicaSetR)
                  (uMeta Sample.replicaSetR)).1.1
      Sample.host "default" Sample.uidD = Some n
    /\ r' ∈ mOwnerReferences (uMeta Sample.replicaSetR) /\ orUID r' = Sample.uidD
    /\ nUID n = Sample.uidD /\ nNamespace n = "default"
    /\ nKind n = orKind r' /\ nName n = orName r'
    /\ nAPIVersion n = (ToAPIVersionAndKind (ownerGVK r')).1.
Proof.
  apply (Graph_Node_owner_nodes (emptyGraph Sample.host)
           (Sample.gvkOf Sample.replicaSetR) (uMeta Sample.replicaSetR) Demo.ownerRef).
  - reflexivity.
  - left.
  - reflexivity.
Defined.

Lemma built_nodes_keyed_by_identity_witness :
  nUID (nodeOf (ownerGVK Demo.ownerRef) (ownerMeta Demo.ownerRef "default")) = Sample.uidD
  /\ nNamespace (nodeOf (ownerGVK Demo.ownerRef) (ownerMeta Demo.ownerRef "default"))
     = "default".
Proof.
  apply (built_nodes_keyed_by_identity Demo.ownership Sample.host "default" Sample.uidD
           _ Demo_ownership_built).
  vm_compute. reflexivity.
Defined.

Lemma Graph_Node_edges_frame_witness :
  edgesFrom (Graph_Node Sample.withLabels (Sample.gvkOf Sample.replicaSetR)
               (uMeta Sample.replicaSetR)).1.1 Sample.uidR
  = edgesFrom Sample.withLabels Sample.uidR.
Proof.
  apply Graph_Node_edges_frame. intros r Hr.
  apply list_elem_of_singleton in Hr. subst r. discriminate.
Defined.

Lemma Graph_Unstructured_other_version_witness :
  Graph_Unstructured Demo.noExtractor Demo.noExtractor Demo.noExtractor
    (emptyGraph Sample.host) Sample.deploymentD
  = ((Graph_Node (emptyGraph Sample.host)
        (Unstructured_GroupVersionKind Sample.deploymentD)
        (uMeta Sample.deploymentD)).1.1, None).
Proof.
  apply Graph_Unstructured_other_version; discriminate.
Defined.

Lemma Graph_Node_idempotent_witness :
  let first := Graph_Node Sample.withLabels (Sample.gvkOf Sample.replicaSetR)
                 (uMeta Sample.replicaSetR) in
  let second := Graph_Node first.1.1 (Sample.gvkOf Sample.replicaSetR) first.2 in
  (forall c ns u, lookupNode second.1.1 c ns u = lookupNode first.1.1 c ns u)
  /\ Relationships second.1.1 = Relationships first.1.1
  /\ clientset second.1.1 = clientset first.1.1
  /\ second.1.2 = first.1.2.
Proof.
  apply (Graph_Node_idempotent Sample.withLabels (Sample.gvkOf Sample.replicaSetR)
           (uMeta Sample.replicaSetR)).
  right. reflexivity.
Defined.

Lemma Graph_Node_owner_edges_witness :
  exists e,
    firstEdge (Relationships (Graph_Node (emptyGraph Sample.host)
                                (Sample.gvkOf Sample.replicaSetR)
                                (uMeta Sample.replicaSetR)).1.1)
      Sample.uidD Sample.uidR = Some e
    /\ rType e = "ReplicaSet".
Proof.
  destruct (Graph_Node_owner_edges (emptyGraph Sample.host)
              (Sample.gvkOf Sample.replicaSetR) (uMeta Sample.replicaSetR)
              Demo.ownerRef eq_refl (list_elem_of_here _ _))
    as (e & He & _ & Hnew).
  exists e. split; [exact He|]. now destruct (Hnew eq_refl) as (-> & _).
Defined.

Lemma Graph_Node_two_objects_commute_witness :
  edgesFrom (Graph_Node (Graph_Node (emptyGraph Sample.host)
                           (Sample.gvkOf Sample.deploymentD)
                           (uMeta Sample.deploymentD)).1.1
               (Sample.gvkOf Sample.replicaSetR) (uMeta Sample.replicaSetR)).1.1
    Sample.uidD
  ≡ₚ edgesFrom (Graph_Node (Graph_Node (emptyGraph Sample.host)
                              (Sample.gvkOf Sample.replicaSetR)
                              (uMeta Sample.replicaSetR)).1.1
                  (Sample.gvkOf Sample.deploymentD) (uMeta Sample.deploymentD)).1.1
       Sample.uidD.
Proof.
  refine (proj1 (proj2 (Graph_Node_two_objects_commute (emptyGraph Sample.host)
                          (Sample.gvkOf Sample.deploymentD) (uMeta Sample.deploymentD)
                          (Sample.gvkOf Sample.replicaSetR) (uMeta Sample.replicaSetR)
                          _)) Sample.uidD).
  discriminate.
Defined.

Module DemoBatch.

(** A pod owned by the replica set, and a core extractor that fails. *)
Definition pod : Unstructured :=
  {| uAPIVersion := "v1"; uKind := "Pod";
     uMeta := Sample.meta "default" "web-5d4f-x2k" "55555555" ∅
                [{| orAPIVersion := "apps/v1"; orKind := "ReplicaSet";
                    orName := "web-5d4f"; orUID := Sample.uidR |}] |}.

Definition failing (g : Graph) (unstr : Unstructured) : Graph * option error :=
  (g, Some "no pods here").

End DemoBatch.

Lemma DemoBatch_failing_grows : forall g unstr, grows g (DemoBatch.failing g unstr).1.
Proof. intros g unstr. apply grows_refl. Qed.

Lemma Demo_noExtractor_grows : forall g unstr, grows g (Demo.noExtractor g unstr).1.
Proof. intros g unstr. apply grows_refl. Qed.

Lemma NewGraph_keeps_generic_registration_witness :
  is_Some (lookupNode
             (NewGraph DemoBatch.failing Demo.noExtractor Demo.noExtractor Sample.host
                [Sample.deploymentD; DemoBatch.pod]).1.1
             Sample.host "default" "55555555")
  /\ is_Some (firstEdge
                (Relationships
                   (NewGraph DemoBatch.failing Demo.noExtractor Demo.noExtractor
                      Sample.host [Sample.deploymentD; DemoBatch.pod]).1.1)
                Sample.uidR "55555555").
Proof.
  assert (Hin : DemoBatch.pod ∈ [Sample.deploymentD; DemoBatch.pod]) by (right; left).
  assert (Hns : isNamespace (Unstructured_GroupVersionKind DemoBatch.pod) = false)
    by (vm_compute; reflexivity).
  pose proof (NewGraph_keeps_generic_registration
                DemoBatch.failing Demo.noExtractor Demo.noExtractor
                DemoBatch_failing_grows Demo_noExtractor_grows Demo_noExtractor_grows
                Sample.host [Sample.deploymentD; DemoBatch.pod] DemoBatch.pod Hin Hns)
    as H.
  cbv zeta in H. destruct H as (_ & Hnode & Hedges).
  split; [exact Hnode|]. apply (Hedges _ (list_elem_of_here _ _)).
Defined.

(** * Deduplication of edges *)

Lemma find_To_targets v rs rs' : targets rs = targets rs' -> find_To v rs = find_To v rs'.
Proof.
  revert rs'. induction rs as [|r rs IH]; intros [|r' rs'] H; simpl in *;
    try discriminate; [reflexivity|].
  injection H as H1 H2. rewrite H1, (IH rs' H2). reflexivity.
Qed.

Lemma edgesFrom_Attribute g p key value u :
  edgesFrom (Relationship_Attribute g p key value).1 u
  = if decide (u = p.1) then alter (setAttr key value) p.2 (edgesFrom g u)
    else edgesFrom g u.
Proof.
  rewrite Relationship_Attribute_eq. unfold edgesFrom. simpl.
  destruct (decide (u = p.1)) as [->|Hne].
  - rewrite lookup_alter_eq. now destruct (Relationships g !! p.1).
  - now rewrite lookup_alter_ne by congruence.
Qed.

Lemma withAttributes_cons kv kvs r :
  withAttributes (kv :: kvs) r = withAttributes kvs (setAttr kv.1 kv.2 r).
Proof. reflexivity. Qed.

Lemma edgesFrom_setAttributes g p kvs u :
  edgesFrom (setAttributes g p kvs) u
  = if decide (u = p.1) then alter (withAttributes kvs) p.2 (edgesFrom g u)
    else edgesFrom g u.
Proof.
  revert g. induction kvs as [|kv kvs IH]; intros g.
  - simpl. case_decide; [|reflexivity]. symmetry. now apply list_alter_id.
  - change (setAttributes g p (kv :: kvs))
      with (setAttributes (Relationship_Attribute g p kv.1 kv.2).1 p kvs).
    rewrite IH, edgesFrom_Attribute. case_decide; [|reflexivity].
    rewrite list_alter_alter_eq. apply list_alter_ext; [|reflexivity].
    intros r _. reflexivity.
Qed.

Lemma withAttributes_fields kvs r :
  withAttributes kvs r
  = {| rFrom := rFrom r; rType := rType r; rTo := rTo r;
       rAttr := attributesOf kvs (rAttr r) |}.
Proof.
  revert r. induction kvs as [|kv kvs IH]; intros r.
  - now destruct r.
  - rewrite withAttributes_cons, IH. reflexivity.
Qed.

Lemma targets_alter_withAttributes kvs i rs :
  targets (alter (withAttributes kvs) i rs) = targets rs.
Proof.
  revert i. induction rs as [|r rs IH]; intros [|i]; simpl; try reflexivity.
  - now rewrite withAttributes_fields.
  - f_equal. apply IH.
Qed.

Lemma find_To_setAttributes g p kvs u v :
  find_To v (edgesFrom (setAttributes g p kvs) u) = find_To v (edgesFrom g u).
Proof.
  apply find_To_targets. rewrite edgesFrom_setAttributes.
  case_decide; [apply targets_alter_withAttributes|reflexivity].
Qed.

Lemma built_setAttributes g p kvs : built g -> built (setAttributes g p kvs).
Proof.
  revert g. induction kvs as [|kv kvs IH]; intros g Hb; [exact Hb|].
  apply IH. now constructor.
Qed.

Lemma elem_of_allRelationships g e :
  e ∈ allRelationships g <-> exists u rs, Relationships g !! u = Some rs /\ e ∈ rs.
Proof.
  unfold allRelationships. rewrite list_elem_of_bind. split.
  - intros ([u rs] & He & Hin). apply elem_of_map_to_list in Hin. eauto.
  - intros (u & rs & Hl & He). exists (u, rs). split; [exact He|].
    now apply elem_of_map_to_list.
Qed.

Lemma edgesTo_unlinked v rs : find_To v rs = None -> edgesTo v rs = [].
Proof.
  intros H. apply find_To_None in H. unfold edgesTo.
  induction H as [|r rs Hr _ IH]; [reflexivity|].
  now rewrite filter_cons_False.
Qed.

Lemma edgesFrom_set_insert g u rs :
  edgesFrom (set_Relationships g (<[u := rs]> (Relationships g))) u = rs.
Proof. unfold edgesFrom. simpl. now rewrite lookup_insert_eq. Qed.

(** The second registration of a pair finds the relationship of the first. *)
Lemma Graph_Relationship_again g X Y L1 L2 attrs :
  let first := Graph_Relationship g X L1 Y in
  let g1 := setAttributes first.1 first.2 attrs in
  Graph_Relationship g1 X L2 Y = (g1, first.2).
Proof.
  cbv zeta.
  destruct (Graph_Relationship_deref g X L1 Y) as (Hp & Hfind & _). cbv zeta in *.
  rewrite <- (find_To_setAttributes _ (Graph_Relationship g X L1 Y).2 attrs) in Hfind.
  rewrite (Graph_Relationship_found _ _ _ _ _ Hfind), <- Hp.
  now destruct (Graph_Relationship g X L1 Y).2.
Qed.

Lemma Graph_Relationship_first g X Y L1 attrs :
  find_To (nUID Y) (edgesFrom g (nUID X)) = None ->
  let first := Graph_Relationship g X L1 Y in
  edgesFrom (setAttributes first.1 first.2 attrs) (nUID X)
  = (edgesFrom g (nUID X) ++ [withAttributes attrs (newRelationship X L1 Y)])%list
  /\ first.2 = (nUID X, length (edgesFrom g (nUID X))).
Proof.
  intros Hf. cbv zeta. rewrite (Graph_Relationship_fresh _ _ _ _ Hf). cbn [fst snd].
  split; [|reflexivity].
  rewrite edgesFrom_setAttributes. cbn [fst snd]. rewrite decide_True by reflexivity.
  rewrite edgesFrom_set_insert.
  rewrite <- (Nat.add_0_r (length (edgesFrom g (nUID X)))) at 1.
  now rewrite alter_app_r.
Qed.

(** C5: whatever the registry holds, registering the pair [(X, Y)] a second
    time, with any label, changes nothing and returns the relationship of
    the first registration, also after attributes were written through
    it.  When the first registration is the one that links [X] to [Y],
    the registry afterwards holds exactly one relationship from [X] to
    [Y]: it carries the label of the first registration, the identifiers
    and kinds of the two nodes and the attributes written after the first
    registration; in a graph built through the registration primitives it
    is the only relationship with these two ends in the whole registry. *)
Theorem Graph_Relationship_first_wins g X Y L1 L2 attrs :
  let first := Graph_Relationship g X L1 Y in
  let g1 := setAttributes first.1 first.2 attrs in
  let second := Graph_Relationship g1 X L2 Y in
  second = (g1, first.2)
  /\ (exists e, deref second.1 second.2 = Some e /\ deref g1 first.2 = Some e
                /\ oUID (rTo e) = nUID Y /\ second.2.1 = nUID X)
  /\ (firstEdge (Relationships g) (nUID X) (nUID Y) = None ->
      let e := {| rFrom := {| oUID := nUID X; oKind := nKind X |};
                  rType := L1;
                  rTo := {| oUID := nUID Y; oKind := nKind Y |};
                  rAttr := attributesOf attrs ∅ |} in
      deref second.1 second.2 = Some e
      /\ edgesTo (nUID Y) (edgesFrom second.1 (nUID X)) = [e]
      /\ (built g ->
          forall e', e' ∈ allRelationships second.1 ->
            oUID (rFrom e') = nUID X -> oUID (rTo e') = nUID Y -> e' = e)).
Proof.
  cbv zeta. rewrite Graph_Relationship_again. cbn [fst snd].
  split; [reflexivity|]. split.
  - destruct (Graph_Relationship_deref g X L1 Y) as (Hp & Hfind & _). cbv zeta in *.
    rewrite <- (find_To_setAttributes _ (Graph_Relationship g X L1 Y).2 attrs) in Hfind.
    destruct (find_To_Some _ _ _ Hfind) as (e & He & Hto).
    exists e. rewrite deref_edgesFrom, Hp. repeat split; assumption.
  - intros Hfresh. apply firstEdge_None in Hfresh.
    change (find_To (nUID Y) (edgesFrom g (nUID X)) = None) in Hfresh.
    destruct (Graph_Relationship_first g X Y L1 attrs Hfresh) as (Hes & Hptr).
    cbv zeta in *. rewrite withAttributes_fields in Hes. simpl in Hes.
    assert (Hto : edgesTo (nUID Y)
                    (edgesFrom (setAttributes (Graph_Relationship g X L1 Y).1
                                  (Graph_Relationship g X L1 Y).2 attrs) (nUID X))
                  = [{| rFrom := {| oUID := nUID X; oKind := nKind X |}; rType := L1;
                        rTo := {| oUID := nUID Y; oKind := nKind Y |};
                        rAttr := attributesOf attrs ∅ |}]).
    { rewrite Hes. unfold edgesTo. rewrite filter_app.
      fold (edgesTo (nUID Y) (edgesFrom g (nUID X))).
      rewrite (edgesTo_unlinked _ _ Hfresh). now rewrite filter_cons_True. }
    split; [|split; [exact Hto|]].
    + assert (Hp1 : (Graph_Relationship g X L1 Y).2.1 = nUID X) by now rewrite Hptr.
      assert (Hp2 : (Graph_Relationship g X L1 Y).2.2 = length (edgesFrom g (nUID X)))
        by now rewrite Hptr.
      rewrite deref_edgesFrom, Hp1, Hp2, Hes.
      now rewrite lookup_app_r, Nat.sub_diag by lia.
    + intros Hb e' Hin Hfrom Hto'.
      apply elem_of_allRelationships in Hin as (u & rs & Hl & Hin).
      assert (Hwf : built (setAttributes (Graph_Relationship g X L1 Y).1
                             (Graph_Relationship g X L1 Y).2 attrs))
        by (apply built_setAttributes; now constructor).
      destruct (wfEdgeLists_built _ Hwf u rs Hl) as (_ & Hsrc & _).
      rewrite Forall_forall in Hsrc. specialize (Hsrc e' Hin).
      assert (Hin' : e' ∈ edgesTo (nUID Y)
                       (edgesFrom (setAttributes (Graph_Relationship g X L1 Y).1
                                     (Graph_Relationship g X L1 Y).2 attrs) (nUID X))).
      { apply list_elem_of_filter. split; [exact Hto'|].
        unfold edgesFrom. rewrite <- Hfrom, Hsrc, Hl. exact Hin. }
      rewrite Hto in Hin'. now apply list_elem_of_singleton in Hin'.
Qed.

Lemma Graph_Relationship_first_wins_witness :
  edgesTo Sample.uidR
    (edgesFrom
       (Graph_Relationship
          (setAttributes
             (Graph_Relationship (emptyGraph Sample.host)
                (Demo.node "Deployment" Sample.uidD) "ReplicaSet"
                (Demo.node "ReplicaSet" Sample.uidR)).1
             (Sample.uidD, 0%nat) [("color", "red")])
          (Demo.node "Deployment" Sample.uidD) "Pod"
          (Demo.node "ReplicaSet" Sample.uidR)).1 Sample.uidD)
  = [{| rFrom := {| oUID := Sample.uidD; oKind := "Deployment" |};
        rType := "ReplicaSet";
        rTo := {| oUID := Sample.uidR; oKind := "ReplicaSet" |};
        rAttr := <["color" := "red"]> ∅ |}].
Proof.
  assert (Hf : firstEdge (Relationships (emptyGraph Sample.host)) Sample.uidD Sample.uidR
               = None) by (vm_compute; reflexivity).
  pose proof (Graph_Relationship_first_wins (emptyGraph Sample.host)
                (Demo.node "Deployment" Sample.uidD) (Demo.node "ReplicaSet" Sample.uidR)
                "ReplicaSet" "Pod" [("color", "red")]) as H.
  cbv zeta in H. destruct H as (_ & _ & H). destruct (H Hf) as (_ & H2 & _).
  exact H2.
Defined.

(** * Ownership edges *)

Lemma Graph_Node_ancestor g ownerRef namespace :
  let owner := (Graph_Node g (ownerGVK ownerRef) (ownerMeta ownerRef namespace)).1.2 in
  nUID owner = orUID ownerRef /\ nName owner = orName ownerRef
  /\ nKind owner = orKind ownerRef /\ nNamespace owner = namespace.
Proof.
  cbv zeta. rewrite Graph_Node_node.
  destruct (nodeOf_resolveObject_ids (ownerGVK ownerRef) g (ownerMeta ownerRef namespace))
    as (-> & -> & -> & ->).
  repeat split. apply Kind_FromAPIVersionAndKind.
Qed.

Section Undispatched.

Variables CoreV1_Unstructured NetworkingV1_Unstructured RouteV1_Unstructured :
  Graph -> Unstructured -> Graph * option error.

Lemma Graph_Unstructured_undispatched g unstr :
  undispatched unstr ->
  Graph_Unstructured CoreV1_Unstructured NetworkingV1_Unstructured RouteV1_Unstructured
    g unstr
  = ((Graph_Node g (Unstructured_GroupVersionKind unstr) (uMeta unstr)).1.1, None).
Proof.
  intros (H1 & H2 & H3). unfold Graph_Unstructured.
  destruct (Graph_Node g (Unstructured_GroupVersionKind unstr) (uMeta unstr))
    as [[g' node] meta]. simpl.
  apply String.eqb_neq in H1, H2, H3. now rewrite H1, H2, H3.
Qed.

Lemma NewGraph_loop_undispatched objs g errs calls :
  Forall undispatched objs ->
  NewGraph_loop CoreV1_Unstructured NetworkingV1_Unstructured RouteV1_Unstructured
    objs (g, errs, calls)
  = (registerAll objs g, errs, (calls + length objs)%nat).
Proof.
  intros H. revert g calls. induction H as [|unstr objs Hu _ IH]; intros g calls.
  - simpl. now rewrite Nat.add_0_r.
  - unfold NewGraph_loop in *. cbn [fold_left].
    rewrite (Graph_Unstructured_undispatched g unstr Hu).
    unfold registerAll in *. cbn [fold_left length]. rewrite IH. f_equal. lia.
Qed.

Lemma NewGraph_undispatched host objs :
  Forall undispatched objs ->
  NewGraph CoreV1_Unstructured NetworkingV1_Unstructured RouteV1_Unstructured host objs
  = (registerAll objs (emptyGraph host), None, length objs).
Proof.
  intros H. unfold NewGraph. now rewrite (NewGraph_loop_undispatched objs _ _ _ H).
Qed.

End Undispatched.

Lemma Graph_Relationship_links g from label to :
  let res := Graph_Relationship g from label to in
  match firstEdge (Relationships g) (nUID from) (nUID to) with
  | Some e0 => res.1 = g /\ deref g res.2 = Some e0
  | None =>
      deref res.1 res.2 = Some (newRelationship from label to)
      /\ firstEdge (Relationships res.1) (nUID from) (nUID to)
         = Some (newRelationship from label to)
  end.
Proof.
  cbv zeta. unfold firstEdge. cbv zeta. fold (edgesFrom g (nUID from)).
  destruct (find_To (nUID to) (edgesFrom g (nUID from))) as [i|] eqn:Hf.
  - rewrite (Graph_Relationship_found _ _ _ _ _ Hf). cbn [fst snd mbind option_bind].
    destruct (find_To_Some _ _ _ Hf) as (r & Hr & _). rewrite Hr.
    split; [reflexivity|]. now rewrite deref_edgesFrom.
  - rewrite (Graph_Relationship_fresh _ _ _ _ Hf). cbn [fst snd mbind option_bind].
    rewrite deref_edgesFrom. cbn [fst snd].
    fold (edgesFrom
            (set_Relationships g
               (<[nUID from := (edgesFrom g (nUID from)
                                ++ [newRelationship from label to])%list]>
                  (Relationships g))) (nUID from)).
    rewrite edgesFrom_set_insert, find_To_app, Hf.
    assert (Hto : String.eqb (oUID (rTo (newRelationship from label to))) (nUID to) = true)
      by apply String.eqb_refl.
    rewrite Hto. cbn [mbind option_bind].
    now rewrite lookup_app_r, Nat.sub_diag by lia.
Qed.

Lemma registerAll_deployment_replicaSet :
  let g := registerAll [Sample.deploymentD; Sample.replicaSetR] (emptyGraph Sample.host) in
  length (allNodes g) = 2%nat
  /\ lookupNode g Sample.host "default" Sample.uidD
     = Some {| nAPIVersion := "apps/v1"; nKind := "Deployment"; nLabels := ∅;
               nName := "web"; nNamespace := "default"; nUID := Sample.uidD |}
  /\ lookupNode g Sample.host "default" Sample.uidR
     = Some {| nAPIVersion := "apps/v1"; nKind := "ReplicaSet"; nLabels := ∅;
               nName := "web-5d4f"; nNamespace := "default"; nUID := Sample.uidR |}
  /\ allRelationships g = [Demo.edge].
Proof. cbv zeta. repeat split; vm_compute; reflexivity. Qed.

Lemma undispatched_deployment_replicaSet :
  Forall undispatched [Sample.deploymentD; Sample.replicaSetR].
Proof. repeat constructor; discriminate. Qed.

(** C1, as the code has it: for an object whose group and kind do not read
    [Namespace], [Graph.Node] stores the node of the object and then, for
    each owner reference in order, makes the ancestor node from the
    identifier, name and kind of the reference and the namespace of the
    child, and hands ancestor, kind of the child and child to
    [Graph.Relationship], which keeps the relationship that already links
    the two identifiers and otherwise adds the one from the ancestor to the
    child with that label.  After the call the identifier of the reference
    is linked to the identifier of the child: by the relationship that
    linked them before the call when there was one, and otherwise by a new
    one labelled with the kind of the child.  Ingesting the deployment and
    then its replica set leaves two nodes and the one relationship from the
    deployment to the replica set, labelled [ReplicaSet]. *)
Theorem Graph_Node_registers_owner_edges :
  (forall g gvk obj, isNamespace gvk = false ->
     let child := (Graph_Node g gvk obj).1.2 in
     (Graph_Node g gvk obj).1.1
     = fold_left (ownerStep gvk obj child) (mOwnerReferences obj) (registerNode g gvk obj)
     /\ nUID child = mUID obj /\ nKind child = Kind gvk)
  /\ (forall gvk obj child g r,
        let ancestor := Graph_Node g (ownerGVK r) (ownerMeta r (mNamespace obj)) in
        ownerStep gvk obj child g r
        = (Graph_Relationship ancestor.1.1 ancestor.1.2 (Kind gvk) child).1
        /\ nUID ancestor.1.2 = orUID r /\ nName ancestor.1.2 = orName r
        /\ nKind ancestor.1.2 = orKind r /\ nNamespace ancestor.1.2 = mNamespace obj)
  /\ (forall g from label to,
        let res := Graph_Relationship g from label to in
        match firstEdge (Relationships g) (nUID from) (nUID to) with
        | Some e0 => res.1 = g /\ deref g res.2 = Some e0
        | None =>
            deref res.1 res.2 = Some (newRelationship from label to)
            /\ firstEdge (Relationships res.1) (nUID from) (nUID to)
               = Some (newRelationship from label to)
        end)
  /\ (forall g gvk obj r, isNamespace gvk = false -> r ∈ mOwnerReferences obj ->
        exists e,
          firstEdge (Relationships (Graph_Node g gvk obj).1.1) (orUID r) (mUID obj) = Some e
          /\ (forall e0, firstEdge (Relationships g) (orUID r) (mUID obj) = Some e0 ->
                e = e0)
          /\ (firstEdge (Relationships g) (orUID r) (mUID obj) = None ->
              rType e = Kind gvk
              /\ rTo e = {| oUID := mUID obj; oKind := Kind gvk |}
              /\ oUID (rFrom e) = orUID r
              /\ (exists r', r' ∈ mOwnerReferences obj /\ orUID r' = orUID r
                             /\ oKind (rFrom e) = orKind r')
              /\ rAttr e = ∅))
  /\ (forall CoreV1 NetworkingV1 RouteV1 : Graph -> Unstructured -> Graph * option error,
        let res := NewGraph CoreV1 NetworkingV1 RouteV1 Sample.host
                     [Sample.deploymentD; Sample.replicaSetR] in
        res.1.2 = None
        /\ length (allNodes res.1.1) = 2%nat
        /\ lookupNode res.1.1 Sample.host "default" Sample.uidD
           = Some {| nAPIVersion := "apps/v1"; nKind := "Deployment"; nLabels := ∅;
                     nName := "web"; nNamespace := "default"; nUID := Sample.uidD |}
        /\ lookupNode res.1.1 Sample.host "default" Sample.uidR
           = Some {| nAPIVersion := "apps/v1"; nKind := "ReplicaSet"; nLabels := ∅;
                     nName := "web-5d4f"; nNamespace := "default";
                     nUID := Sample.uidR |}
        /\ allRelationships res.1.1
           = [{| rFrom := {| oUID := Sample.uidD; oKind := "Deployment" |};
                 rType := "ReplicaSet";
                 rTo := {| oUID := Sample.uidR; oKind := "ReplicaSet" |};
                 rAttr := ∅ |}]).
Proof.
  split; [|split; [|split; [exact Graph_Relationship_links|split]]].
  - intros g gvk obj Hns. cbv zeta. rewrite Graph_Node_steps, Hns. cbn [fst snd].
    destruct (nodeOf_resolveObject_ids gvk g obj) as (Hu & Hk & _).
    repeat split; assumption.
  - intros gvk obj child g r. cbv zeta. split.
    + unfold ownerStep, ownerGVK.
      now destruct (Graph_Node g (FromAPIVersionAndKind (orAPIVersion r) (orKind r))
                      (ownerMeta r (mNamespace obj))) as [[g' owner] meta].
    + apply Graph_Node_ancestor.
  - exact Graph_Node_links_owners.
  - intros CoreV1 NetworkingV1 RouteV1. cbv zeta.
    rewrite (NewGraph_undispatched CoreV1 NetworkingV1 RouteV1 Sample.host _
               undispatched_deployment_replicaSet).
    cbn [fst snd]. split; [reflexivity|].
    exact registerAll_deployment_replicaSet.
Qed.

Lemma Graph_Node_registers_owner_edges_witness :
  exists e,
    firstEdge (Relationships Demo.ownership) Sample.uidD Sample.uidR = Some e
    /\ rType e = "ReplicaSet"
    /\ rTo e = {| oUID := Sample.uidR; oKind := "ReplicaSet" |}.
Proof.
  assert (Hns : isNamespace (Sample.gvkOf Sample.replicaSetR) = false)
    by (vm_compute; reflexivity).
  assert (Hf : firstEdge
                 (Relationships
                    (Graph_Node (emptyGraph Sample.host) (Sample.gvkOf Sample.deploymentD)
                       (uMeta Sample.deploymentD)).1.1) Sample.uidD Sample.uidR = None)
    by (vm_compute; reflexivity).
  destruct Graph_Node_registers_owner_edges as (_ & _ & _ & H & _).
  destruct (H (Graph_Node (emptyGraph Sample.host) (Sample.gvkOf Sample.deploymentD)
                 (uMeta Sample.deploymentD)).1.1
              (Sample.gvkOf Sample.replicaSetR) (uMeta Sample.replicaSetR)
              Demo.ownerRef Hns (list_elem_of_here _ _)) as (e & He & _ & Hnew).
  destruct (Hnew Hf) as (Ht & Hto & _).
  exists e. split; [exact He|]. split; [exact Ht|exact Hto].
Defined.

(** C1 as stated fails: of two objects that share a unique identifier and
    an owner, the second finds the relationship of the first, so that no
    relationship is labelled with its kind. *)
Lemma second_twin_gets_no_label_of_its_own :
  isNamespace (Unstructured_GroupVersionKind Twins.beta) = false
  /\ uKind Twins.beta = "Beta"
  /\ Twins.replicaSet ∈ mOwnerReferences (uMeta Twins.beta)
  /\ (NewGraph Demo.noExtractor Demo.noExtractor Demo.noExtractor "api.cluster.local"
        [Twins.alpha; Twins.beta]).1.2 = None
  /\ allRelationships
       (NewGraph Demo.noExtractor Demo.noExtractor Demo.noExtractor "api.cluster.local"
          [Twins.alpha; Twins.beta]).1.1
     = [{| rFrom := {| oUID := orUID Twins.replicaSet; oKind := "ReplicaSet" |};
           rType := "Alpha";
           rTo := {| oUID := Twins.uid; oKind := "Alpha" |};
           rAttr := ∅ |}]
  /\ ~ (exists e,
          e ∈ allRelationships
                (NewGraph Demo.noExtractor Demo.noExtractor Demo.noExtractor
                   "api.cluster.local" [Twins.alpha; Twins.beta]).1.1
          /\ rType e = uKind Twins.beta).
Proof.
  assert (Hall : allRelationships
                   (NewGraph Demo.noExtractor Demo.noExtractor Demo.noExtractor
                      "api.cluster.local" [Twins.alpha; Twins.beta]).1.1
                 = [{| rFrom := {| oUID := orUID Twins.replicaSet; oKind := "ReplicaSet" |};
                       rType := "Alpha";
                       rTo := {| oUID := Twins.uid; oKind := "Alpha" |};
                       rAttr := ∅ |}]) by (vm_compute; reflexivity).
  split; [vm_compute; reflexivity|]. split; [reflexivity|].
  split; [apply list_elem_of_here|]. split; [vm_compute; reflexivity|].
  split; [exact Hall|].
  intros (e & He & Ht). rewrite Hall in He. apply list_elem_of_singleton in He.
  subst e. discriminate Ht.
Qed.

(** * Owner and child in either order *)

Lemma elem_of_allRelationships_edgesFrom g e :
  e ∈ allRelationships g <-> exists u, e ∈ edgesFrom g u.
Proof.
  rewrite elem_of_allRelationships. unfold edgesFrom. split.
  - intros (u & rs & Hl & He). exists u. now rewrite Hl.
  - intros (u & He). destruct (Relationships g !! u) as [rs|] eqn:Hl; simpl in He.
    + eauto.
    + now apply not_elem_of_nil in He.
Qed.

(** C2, for objects with different identifiers: a child that names its owner
    and the owner can be handed to [Graph.Node] in either order.  The two
    orders leave the same relationships, hence the same ends and labels,
    under every source identifier the same ones up to their order, and in
    both the owner is linked to the child.  So do the two orders of the
    batch that [NewGraph] is given, when the API version of the two
    objects is none of those handed to an extractor. *)
Theorem owner_and_child_in_either_order g gvkC child gvkP owner r :
  r ∈ mOwnerReferences child ->
  orUID r = mUID owner ->
  mUID child <> mUID owner ->
  let child_first := (Graph_Node (Graph_Node g gvkC child).1.1 gvkP owner).1.1 in
  let owner_first := (Graph_Node (Graph_Node g gvkP owner).1.1 gvkC child).1.1 in
  (forall e, e ∈ allRelationships child_first <-> e ∈ allRelationships owner_first)
  /\ (forall u v label,
        (exists e, e ∈ allRelationships child_first
                   /\ oUID (rFrom e) = u /\ oUID (rTo e) = v /\ rType e = label)
        <-> (exists e, e ∈ allRelationships owner_first
                       /\ oUID (rFrom e) = u /\ oUID (rTo e) = v /\ rType e = label))
  /\ (forall u, edgesFrom child_first u ≡ₚ edgesFrom owner_first u)
  /\ (isNamespace gvkC = false ->
      is_Some (firstEdge (Relationships child_first) (mUID owner) (mUID child))
      /\ is_Some (firstEdge (Relationships owner_first) (mUID owner) (mUID child)))
  /\ (forall (CoreV1 NetworkingV1 RouteV1 : Graph -> Unstructured -> Graph * option error)
             host apiVersion kindC kindP,
        gvkC = Unstructured_GroupVersionKind
                 {| uAPIVersion := apiVersion; uKind := kindC; uMeta := child |} ->
        gvkP = Unstructured_GroupVersionKind
                 {| uAPIVersion := apiVersion; uKind := kindP; uMeta := owner |} ->
        apiVersion <> "v1" -> apiVersion <> "networking.k8s.io/v1" ->
        apiVersion <> "route.openshift.io/v1" ->
        forall e,
          e ∈ allRelationships
                (NewGraph CoreV1 NetworkingV1 RouteV1 host
                   [{| uAPIVersion := apiVersion; uKind := kindC; uMeta := child |};
                    {| uAPIVersion := apiVersion; uKind := kindP; uMeta := owner |}]).1.1
          <-> e ∈ allRelationships
                    (NewGraph CoreV1 NetworkingV1 RouteV1 host
                       [{| uAPIVersion := apiVersion; uKind := kindP; uMeta := owner |};
                        {| uAPIVersion := apiVersion; uKind := kindC;
                           uMeta := child |}]).1.1).
Proof.
  intros Hr Hu Hne. cbv zeta.
  assert (Hany : forall g0,
            forall e,
              e ∈ allRelationships (Graph_Node (Graph_Node g0 gvkC child).1.1 gvkP owner).1.1
              <-> e ∈ allRelationships
                        (Graph_Node (Graph_Node g0 gvkP owner).1.1 gvkC child).1.1).
  { intros g0 e.
    pose proof (Graph_Node_swap g0 gvkC child gvkP owner Hne) as Hswap.
    cbv zeta in Hswap. destruct Hswap as (_ & Hperm & _).
    rewrite !elem_of_allRelationships_edgesFrom.
    split; intros (u & He); exists u; [rewrite <- (Hperm u)|rewrite (Hperm u)]; exact He. }
  pose proof (Graph_Node_swap g gvkC child gvkP owner Hne) as Hswap.
  cbv zeta in Hswap. destruct Hswap as (_ & Hperm & _).
  assert (Hall : forall e,
             e ∈ allRelationships (Graph_Node (Graph_Node g gvkC child).1.1 gvkP owner).1.1
             <-> e ∈ allRelationships
                       (Graph_Node (Graph_Node g gvkP owner).1.1 gvkC child).1.1).
  { intros e. rewrite !elem_of_allRelationships_edgesFrom.
    split; intros (u & He); exists u; [rewrite <- (Hperm u)|rewrite (Hperm u)]; exact He. }
  split; [exact Hall|]. split; [|split; [exact Hperm|split]].
  - intros u v label.
    split; intros (e & He & H); exists e; (split; [apply Hall, He|exact H]).
  - intros Hns. rewrite <- Hu. split.
    + destruct (Graph_Node_links_owners g gvkC child r Hns Hr) as (e & He & _).
      destruct (Graph_Node_grows (Graph_Node g gvkC child).1.1 gvkP owner)
        as (_ & _ & Hedges).
      apply Hedges. rewrite He. eauto.
    + destruct (Graph_Node_links_owners (Graph_Node g gvkP owner).1.1 gvkC child r Hns Hr)
        as (e & He & _).
      rewrite He. eauto.
  - intros CoreV1 NetworkingV1 RouteV1 host apiVersion kindC kindP HC HP H1 H2 H3 e.
    rewrite !NewGraph_undispatched by (repeat constructor; assumption).
    unfold registerAll. cbn [fst fold_left uMeta]. rewrite <- HC, <- HP. apply Hany.
Qed.

Lemma owner_and_child_in_either_order_witness :
  Demo.edge
  ∈ allRelationships
      (Graph_Node
         (Graph_Node (emptyGraph Sample.host) (Sample.gvkOf Sample.replicaSetR)
            (uMeta Sample.replicaSetR)).1.1
         (Sample.gvkOf Sample.deploymentD) (uMeta Sample.deploymentD)).1.1.
Proof.
  assert (Hne : mUID (uMeta Sample.replicaSetR) <> mUID (uMeta Sample.deploymentD))
    by discriminate.
  assert (Hall : allRelationships Demo.ownership = [Demo.edge])
    by (vm_compute; reflexivity).
  pose proof (owner_and_child_in_either_order (emptyGraph Sample.host)
                (Sample.gvkOf Sample.replicaSetR) (uMeta Sample.replicaSetR)
                (Sample.gvkOf Sample.deploymentD) (uMeta Sample.deploymentD)
                Demo.ownerRef (list_elem_of_here _ _) eq_refl Hne) as H.
  cbv zeta in H. destruct H as (H & _).
  apply (proj2 (H Demo.edge)). fold Demo.ownership. rewrite Hall.
  apply list_elem_of_here.
Defined.

(** C2 as stated fails: two objects with one identifier that name each
    other as owner are linked by one relationship, which carries the kind
    of the object that came first. *)
Lemma mutual_owners_with_one_identifier :
  (exists r, r ∈ mOwnerReferences (uMeta Twins.child)
             /\ orUID r = mUID (uMeta Twins.owner))
  /\ allRelationships (registerAll [Twins.child; Twins.owner]
                         (emptyGraph "api.cluster.local"))
     = [{| rFrom := {| oUID := Twins.uid; oKind := "Beta" |}; rType := "Alpha";
           rTo := {| oUID := Twins.uid; oKind := "Alpha" |}; rAttr := ∅ |}]
  /\ allRelationships (registerAll [Twins.owner; Twins.child]
                         (emptyGraph "api.cluster.local"))
     = [{| rFrom := {| oUID := Twins.uid; oKind := "Alpha" |}; rType := "Beta";
           rTo := {| oUID := Twins.uid; oKind := "Beta" |}; rAttr := ∅ |}].
Proof.
  split; [|split; vm_compute; reflexivity].
  eexists. split; [apply list_elem_of_here|reflexivity].
Qed.

(** * Batches with failing extractors *)

Lemma NewAggregate_decide (errs : list error) :
  NewAggregate errs = if decide (errs = []) then None else Some errs.
Proof. now destruct errs. Qed.

(** C7: [NewGraph] goes through the whole batch, whatever the extractors
    return: there is one outcome and one call of [processed] per object,
    and the aggregate lists the errors of the failed objects, as many as
    objects failed, in the order of the batch; it is [nil] when none
    failed.  For every object, [Graph.Unstructured] first registers the
    node and the ownership edges and only then hands the graph to the
    extractor, so the registration is done whether the extractor fails or
    not; when the extractors only add to the graph, the node and the
    ownership edges of every object that is not a [Namespace] are in the
    final graph. *)
Theorem NewGraph_survives_extractor_failures
    (CoreV1 NetworkingV1 RouteV1 : Graph -> Unstructured -> Graph * option error)
    (host : string) (objs : list Unstructured) :
  let res := NewGraph CoreV1 NetworkingV1 RouteV1 host objs in
  let outcomes := NewGraph_outcomes CoreV1 NetworkingV1 RouteV1 objs (emptyGraph host) in
  let failures := omap id outcomes in
  length outcomes = length objs
  /\ res.2 = length objs
  /\ length failures = length (filter (fun o => is_Some o) outcomes)
  /\ res.1.2 = (if decide (failures = []) then None else Some failures)
  /\ (res.1.2 = None <-> Forall (fun o => o = None) outcomes)
  /\ res.1.1
     = fold_left (fun g obj => (Graph_Unstructured CoreV1 NetworkingV1 RouteV1 g obj).1)
         objs (emptyGraph host)
  /\ (forall g unstr,
        let registered :=
          Graph_Node g (Unstructured_GroupVersionKind unstr) (uMeta unstr) in
        exists extractor,
          extractor ∈ [CoreV1; NetworkingV1; RouteV1; fun g _ => (g, None)]
          /\ Graph_Unstructured CoreV1 NetworkingV1 RouteV1 g unstr
             = extractor registered.1.1
                 {| uAPIVersion := uAPIVersion unstr; uKind := uKind unstr;
                    uMeta := registered.2 |})
  /\ ((forall g unstr, grows g (CoreV1 g unstr).1) ->
      (forall g unstr, grows g (NetworkingV1 g unstr).1) ->
      (forall g unstr, grows g (RouteV1 g unstr).1) ->
      forall unstr, unstr ∈ objs ->
        isNamespace (Unstructured_GroupVersionKind unstr) = false ->
        is_Some (lookupNode res.1.1
                   (if String.eqb (mClusterName (uMeta unstr)) "" then host
                    else mClusterName (uMeta unstr))
                   (mNamespace (uMeta unstr)) (mUID (uMeta unstr)))
        /\ (forall r, r ∈ mOwnerReferences (uMeta unstr) ->
              is_Some (firstEdge (Relationships res.1.1) (orUID r)
                         (mUID (uMeta unstr))))).
Proof.
  cbv zeta.
  pose proof (NewGraph_run CoreV1 NetworkingV1 RouteV1 host objs) as Hrun.
  cbv zeta in Hrun. destruct Hrun as (Hcalls & Hlen & Hagg & Hnil & _ & Hfold).
  split; [exact Hlen|]. split; [exact Hcalls|].
  split; [apply omap_id_length|].
  split; [rewrite Hagg; apply NewAggregate_decide|].
  split; [exact Hnil|]. split; [exact Hfold|]. split.
  - intros g unstr. cbv zeta. unfold Graph_Unstructured.
    destruct (Graph_Node g (Unstructured_GroupVersionKind unstr) (uMeta unstr))
      as [[g' node] meta]. cbn [fst snd uAPIVersion].
    destruct (String.eqb (uAPIVersion unstr) "v1");
      [exists CoreV1; split; [set_solver|reflexivity]|].
    destruct (String.eqb (uAPIVersion unstr) "networking.k8s.io/v1");
      [exists NetworkingV1; split; [set_solver|reflexivity]|].
    destruct (String.eqb (uAPIVersion unstr) "route.openshift.io/v1");
      [exists RouteV1; split; [set_solver|reflexivity]|].
    exists (fun g _ => (g, None)). split; [set_solver|reflexivity].
  - intros H1 H2 H3 unstr Hin Hns.
    pose proof (NewGraph_registration_survives CoreV1 NetworkingV1 RouteV1 H1 H2 H3
                  host objs unstr Hin Hns) as H.
    cbv zeta in H. destruct H as (_ & Hnode & Hedges). split; assumption.
Qed.

Lemma NewGraph_survives_extractor_failures_witness :
  (NewGraph DemoBatch.failing Demo.noExtractor Demo.noExtractor Sample.host
     [Sample.deploymentD; DemoBatch.pod]).1.2 = Some ["no pods here"]
  /\ (NewGraph DemoBatch.failing Demo.noExtractor Demo.noExtractor Sample.host
        [Sample.deploymentD; DemoBatch.pod]).2 = 2%nat
  /\ is_Some (lookupNode
                (NewGraph DemoBatch.failing Demo.noExtractor Demo.noExtractor Sample.host
                   [Sample.deploymentD; DemoBatch.pod]).1.1
                Sample.host "default" "55555555")
  /\ is_Some (firstEdge
                (Relationships
                   (NewGraph DemoBatch.failing Demo.noExtractor Demo.noExtractor
                      Sample.host [Sample.deploymentD; DemoBatch.pod]).1.1)
                Sample.uidR "55555555").
Proof.
  assert (Hin : DemoBatch.pod ∈ [Sample.deploymentD; DemoBatch.pod]) by (right; left).
  assert (Hns : isNamespace (Unstructured_GroupVersionKind DemoBatch.pod) = false)
    by (vm_compute; reflexivity).
  pose proof (NewGraph_survives_extractor_failures
                DemoBatch.failing Demo.noExtractor Demo.noExtractor
                Sample.host [Sample.deploymentD; DemoBatch.pod]) as H.
  cbv zeta in H. destruct H as (_ & Hcalls & _ & Hagg & _ & _ & _ & Hkept).
  destruct (Hkept DemoBatch_failing_grows Demo_noExtractor_grows Demo_noExtractor_grows
              DemoBatch.pod Hin Hns) as (Hnode & Hedges).
  split; [|split; [exact Hcalls|split; [exact Hnode|]]].
  - etransitivity; [exact Hagg|]. vm_compute. reflexivity.
  - apply (Hedges _ (list_elem_of_here _ _)).
Defined.

(** * Rendering *)

Lemma append_empty_r (s : string) : s ++ "" = s.
Proof.
  induction s as [|c s IH]; [reflexivity|].
  change (String c (String.append s "") = String c s). now rewrite IH.
Qed.

Lemma append_assoc (s t u : string) : (s ++ t) ++ u = s ++ (t ++ u).
Proof.
  induction s as [|c s IH]; [reflexivity|].
  change (String c (String.append (String.append s t) u)
          = String c (String.append s (String.append t u))).
  f_equal. exact IH.
Qed.

Lemma templates_lookup (cypherTemplate graphvizTemplate : Template) name :
  templates cypherTemplate graphvizTemplate !! name
  = if String.eqb name "graphviz" then Some graphvizTemplate
    else if String.eqb name "cypher" then Some cypherTemplate
    else None.
Proof.
  unfold templates.
  destruct (String.eqb_spec name "graphviz") as [->|H1];
    [apply lookup_insert_eq|].
  rewrite lookup_insert_ne by congruence.
  destruct (String.eqb_spec name "cypher") as [->|H2];
    [apply lookup_insert_eq|].
  rewrite lookup_insert_ne by congruence. apply lookup_empty.
Qed.

Lemma Graph_Write_eq (cypherTemplate graphvizTemplate : Template) {W : Type}
    (wr : Writer W) g w format :
  Graph_Write cypherTemplate graphvizTemplate g wr w format
  = match templates cypherTemplate graphvizTemplate !! format with
    | None => (w, g, Some (ErrNoTemplate format))
    | Some tmpl => Execute_steps wr (tmpl g).1 (tmpl g).2 w g
    end.
Proof.
  unfold Graph_Write, ExecuteTemplate, Execute.
  destruct (templates cypherTemplate graphvizTemplate !! format) as [tmpl|];
    [|reflexivity].
  destruct (tmpl g) as [steps failure]. cbn [fst snd].
  now destruct (Execute_steps wr steps failure w g) as [[w' g'] [e|]].
Qed.

Lemma Graph_Write_unknown (cypherTemplate graphvizTemplate : Template) {W : Type}
    (wr : Writer W) g w format :
  format <> "cypher" -> format <> "graphviz" ->
  Graph_Write cypherTemplate graphvizTemplate g wr w format
  = (w, g, Some (ErrNoTemplate format)).
Proof.
  intros H1 H2. rewrite Graph_Write_eq, templates_lookup.
  apply String.eqb_neq in H1, H2. now rewrite H1, H2.
Qed.

Lemma Execute_steps_Buffer steps failure b g :
  Execute_steps Buffer_Write steps failure b g
  = (b ++ emitted steps, called steps g, ErrExec <$> failure).
Proof.
  revert b g. induction steps as [|[text|r key value] steps IH]; intros b g.
  - simpl. now rewrite append_empty_r.
  - cbn [Execute_steps Buffer_Write]. rewrite IH.
    change (emitted (Emit text :: steps)) with (text ++ emitted steps).
    now rewrite append_assoc.
  - cbn [Execute_steps]. rewrite IH. reflexivity.
Qed.

(** C9: whatever the writer, [Graph.Write] returns no error only for the
    formats [cypher] and [graphviz].  For any other format it returns the
    error of the missing template without executing anything: nothing is
    written, the graph is as before, and a later call behaves as if the
    failed one had not been made.  With the templates that serve as
    example, the buffer gets the whole text of the one and the text before
    the failure of the other. *)
Theorem Graph_Write_formats (cypherTemplate graphvizTemplate : Template) (W : Type)
    (wr : Writer W) (g : Graph) (w : W) (format : string) :
  let res := Graph_Write cypherTemplate graphvizTemplate g wr w format in
  (res.2 = None -> format = "cypher" \/ format = "graphviz")
  /\ (format <> "cypher" -> format <> "graphviz" ->
      res = (w, g, Some (ErrNoTemplate format))
      /\ forall format',
           Graph_Write cypherTemplate graphvizTemplate res.1.2 wr res.1.1 format'
           = Graph_Write cypherTemplate graphvizTemplate g wr w format')
  /\ Graph_Write cypherTemplate graphvizTemplate g wr w "cypher"
     = Execute_steps wr (cypherTemplate g).1 (cypherTemplate g).2 w g
  /\ Graph_Write cypherTemplate graphvizTemplate g wr w "graphviz"
     = Execute_steps wr (graphvizTemplate g).1 (graphvizTemplate g).2 w g
  /\ Graph_Write DemoTemplates.cypher DemoTemplates.graphviz g Buffer_Write "" "cypher"
     = ("MATCH (n)", g, None)
  /\ Graph_Write DemoTemplates.cypher DemoTemplates.graphviz g Buffer_Write "" "graphviz"
     = ("digraph {", g, Some (ErrExec "no such field"))
  /\ Graph_Write DemoTemplates.cypher DemoTemplates.graphviz g (fun w _ => (w, Some "closed"))
       "" "cypher"
     = ("", g, Some (ErrWriter "closed")).
Proof.
  cbv zeta. split; [|split; [|split; [|split; [|split; [|split]]]]].
  - intros Hok.
    destruct (String.eqb_spec format "cypher") as [|H1]; [now left|].
    destruct (String.eqb_spec format "graphviz") as [|H2]; [now right|].
    rewrite (Graph_Write_unknown _ _ wr g w format H1 H2) in Hok. discriminate Hok.
  - intros H1 H2. rewrite (Graph_Write_unknown _ _ wr g w format H1 H2).
    split; reflexivity.
  - rewrite Graph_Write_eq, templates_lookup. reflexivity.
  - rewrite Graph_Write_eq, templates_lookup. reflexivity.
  - rewrite Graph_Write_eq, templates_lookup. reflexivity.
  - rewrite Graph_Write_eq, templates_lookup. reflexivity.
  - rewrite Graph_Write_eq, templates_lookup. reflexivity.
Qed.

Lemma Graph_Write_formats_witness :
  Graph_Write DemoTemplates.cypher DemoTemplates.graphviz Demo.ownership
    Buffer_Write "so far" "json"
  = ("so far", Demo.ownership, Some (ErrNoTemplate "json")).
Proof.
  pose proof (Graph_Write_formats DemoTemplates.cypher DemoTemplates.graphviz string
                Buffer_Write Demo.ownership "so far" "json") as H.
  cbv zeta in H. destruct H as (_ & H & _).
  assert (H1 : "json" <> "cypher") by discriminate.
  assert (H2 : "json" <> "graphviz") by discriminate.
  exact (proj1 (H H1 H2)).
Defined.

(** C10: [Graph.String] returns what the buffer holds after [Graph.Write]
    and drops the error.  For a format other than [cypher] and [graphviz]
    it returns the empty string although the write failed; for the two
    formats it returns the text the template wrote, the same whether the
    execution ended with an error or not, while [Graph.Write] on the same
    buffer returns that error. *)
Theorem Graph_String_drops_the_error (cypherTemplate graphvizTemplate : Template)
    (g : Graph) (format : string) :
  let written := Graph_Write cypherTemplate graphvizTemplate g Buffer_Write "" format in
  Graph_String cypherTemplate graphvizTemplate g format = (written.1.1, written.1.2)
  /\ (format <> "cypher" -> format <> "graphviz" ->
      Graph_String cypherTemplate graphvizTemplate g format = ("", g)
      /\ written.2 = Some (ErrNoTemplate format))
  /\ ((Graph_String cypherTemplate graphvizTemplate g "cypher").1
      = emitted (cypherTemplate g).1
      /\ (Graph_Write cypherTemplate graphvizTemplate g Buffer_Write "" "cypher").2
         = ErrExec <$> (cypherTemplate g).2)
  /\ ((Graph_String cypherTemplate graphvizTemplate g "graphviz").1
      = emitted (graphvizTemplate g).1
      /\ (Graph_Write cypherTemplate graphvizTemplate g Buffer_Write "" "graphviz").2
         = ErrExec <$> (graphvizTemplate g).2)
  /\ Graph_String DemoTemplates.cypher DemoTemplates.graphviz g "graphviz"
     = ("digraph {", g)
  /\ Graph_String DemoTemplates.cypher DemoTemplates.graphviz g "json" = ("", g).
Proof.
  cbv zeta.
  assert (Hs : forall cy gv f,
             Graph_String cy gv g f
             = ((Graph_Write cy gv g Buffer_Write "" f).1.1,
                (Graph_Write cy gv g Buffer_Write "" f).1.2)).
  { intros cy gv f. unfold Graph_String.
    now destruct (Graph_Write cy gv g Buffer_Write "" f) as [[b g'] err]. }
  split; [apply Hs|]. split; [|split; [|split; [|split]]].
  - intros H1 H2. rewrite Hs, (Graph_Write_unknown _ _ Buffer_Write g "" format H1 H2).
    split; reflexivity.
  - rewrite Hs, Graph_Write_eq, templates_lookup. cbn [String.eqb Ascii.eqb Bool.eqb].
    rewrite Execute_steps_Buffer. split; reflexivity.
  - rewrite Hs, Graph_Write_eq, templates_lookup. cbn [String.eqb Ascii.eqb Bool.eqb].
    rewrite Execute_steps_Buffer. split; reflexivity.
  - rewrite Hs, Graph_Write_eq, templates_lookup. reflexivity.
  - rewrite Hs, Graph_Write_eq, templates_lookup. reflexivity.
Qed.

Lemma Graph_String_drops_the_error_witness :
  Graph_String DemoTemplates.cypher DemoTemplates.graphviz Demo.ownership "yaml"
  = ("", Demo.ownership)
  /\ (Graph_Write DemoTemplates.cypher DemoTemplates.graphviz Demo.ownership
        Buffer_Write "" "yaml").2 = Some (ErrNoTemplate "yaml").
Proof.
  pose proof (Graph_String_drops_the_error DemoTemplates.cypher DemoTemplates.graphviz
                Demo.ownership "yaml") as H.
  cbv zeta in H. destruct H as (_ & H & _).
  assert (H1 : "yaml" <> "cypher") by discriminate.
  assert (H2 : "yaml" <> "graphviz") by discriminate.
  exact (H H1 H2).
Defined.
